(** * MemoryTree: gesture tracking and the gallery layout machine

    A shallow embedding of [src/vision/VisionManager.ts], of the [PhotoSystem]
    class, of [ExplosionSystem.explode] and of the frame callback of
    [src/main.ts], followed by the properties of the specification that
    are stated about them.

    Conventions of the embedding.
    - A JavaScript [number] is an exact rational ([Q]); rounding of binary64
      arithmetic is not modelled.  [===] on numbers is [Qeq_bool].
    - Objects mutated in place become records threaded through the
      functions, in the order of the statements of the source.
    - [Math.sqrt], [Math.sin], [Math.cos], [Math.PI] and the three.js
      operations [applyEuler], [lookAt] and [slerp] are not rational
      functions; the functions that call them take them as parameters.
    - The clock reads ([performance.now()], [Date.now()]), the video frame
      and the tracker results are inputs of the tick. *)

From Stdlib Require Import QArith Qabs ZArith List Bool Lia Lqa String.
Import ListNotations.
Open Scope Q_scope.

(** ** Numbers *)

(** [a < b], [a > b], [a >= b] of the source, as booleans. *)
Definition Qltb (a b : Q) : bool := negb (Qle_bool b a).
Definition Qgtb (a b : Q) : bool := Qltb b a.
Definition Qgeb (a b : Q) : bool := Qle_bool b a.

Definition Math_max (a b : Q) : Q := if Qle_bool a b then b else a.
Definition Math_min (a b : Q) : Q := if Qle_bool a b then a else b.
Definition Math_abs (a : Q) : Q := Qabs a.

(** ** Geometry carried by the state *)

Record Vec2 : Type := mkVec2 { v2x : Q; v2y : Q }.
Record Vec3 : Type := mkVec3 { v3x : Q; v3y : Q; v3z : Q }.
(** [THREE.Euler]: [ex] is the pitch, [ey] the yaw, [ez] the roll. *)
Record Euler : Type := mkEuler { ex : Q; ey : Q; ez : Q }.
Record Quaternion : Type := mkQuat { qx : Q; qy : Q; qz : Q; qw : Q }.

(** [Vector3.multiplyScalar], [Vector3.lerp], [Vector3.setScalar]. *)
Definition multiplyScalar (v : Vec3) (s : Q) : Vec3 :=
  mkVec3 (v3x v * s) (v3y v * s) (v3z v * s).
Definition lerp (v target : Vec3) (alpha : Q) : Vec3 :=
  mkVec3 (v3x v + (v3x target - v3x v) * alpha)
         (v3y v + (v3y target - v3y v) * alpha)
         (v3z v + (v3z target - v3z v) * alpha).
Definition setScalar (s : Q) : Vec3 := mkVec3 s s s.

(** [new Quaternion()], also the value of [setFromEuler(new Euler(0,0,0))]. *)
Definition Quaternion_identity : Quaternion := mkQuat 0 0 0 1.

(** ** Gestures and hands *)

Inductive Gesture : Type :=
| NONE | PINCH_START | PINCH_END | DOUBLE_PINCH | FIST
| SWIPE_LEFT | SWIPE_RIGHT | SWIPE_UP | SWIPE_DOWN.

Definition Gesture_eqb (a b : Gesture) : bool :=
  match a, b with
  | NONE, NONE | PINCH_START, PINCH_START | PINCH_END, PINCH_END
  | DOUBLE_PINCH, DOUBLE_PINCH | FIST, FIST
  | SWIPE_LEFT, SWIPE_LEFT | SWIPE_RIGHT, SWIPE_RIGHT
  | SWIPE_UP, SWIPE_UP | SWIPE_DOWN, SWIPE_DOWN => true
  | _, _ => false
  end.

(** [interface HandData].  [lastPosition] is written by the spread
    [{ ...hand.position }], so it holds the three coordinates. *)
Record HandData : Type := mkHand {
  detected : bool;
  position : Vec3;
  pinchDistance : Q;
  isPinching : bool;
  gesture : Gesture;
  velocity : Vec2;
  lastPosition : option Vec3;
  rotationSpeed : Vec2;
  cursor : Vec2;
  lastPinchTime : Q;
  lastGestureTime : Q
}.

(** The landmark array of one hand; the tracker delivers 21 points and the
    source reads the indices 0, 4, 5, 8, 12, 16, 17 and 20. *)
Definition Landmarks : Type := nat -> Vec3.

(** One entry of the tracker result: [results.handedness[i][0].categoryName],
    [results.landmarks[i]], and the value [performance.now()] returns inside
    the call of [updateHandData] for this entry. *)
Record Detection : Type := mkDetection {
  categoryName : string;
  landmarks : Landmarks;
  nowMs : Q
}.

(** What one call of [VisionManager.update] observes. *)
Record VisionInput : Type := mkVisionInput {
  trackerReady : bool;          (* handLandmarker && isWebcamRunning *)
  currentTime : Q;              (* video.currentTime *)
  detections : list Detection   (* detectForVideo(...) *)
}.

Module VisionManager.

Record t : Type := mk {
  leftHand : HandData;
  rightHand : HandData;
  lastVideoTime : Q;
  lastHandsDistance : Q;
  handsDistance : Q;
  handsDetectedBoth : bool
}.

Definition createEmptyHandData : HandData :=
  {| detected := false;
     position := mkVec3 0.5 0.5 0;
     pinchDistance := 0;
     isPinching := false;
     gesture := NONE;
     velocity := mkVec2 0 0;
     lastPosition := None;
     rotationSpeed := mkVec2 0 0;
     cursor := mkVec2 0.5 0.5;
     lastPinchTime := 0;
     lastGestureTime := 0 |}.

Definition new : t :=
  {| leftHand := createEmptyHandData;
     rightHand := createEmptyHandData;
     lastVideoTime := -1;
     lastHandsDistance := 0;
     handsDistance := 0;
     handsDetectedBoth := false |}.

Definition zoomFactor (vm : t) : Q := handsDistance vm.

Definition setDetected (b : bool) (h : HandData) : HandData :=
  {| detected := b;
     position := position h;
     pinchDistance := pinchDistance h;
     isPinching := isPinching h;
     gesture := gesture h;
     velocity := velocity h;
     lastPosition := lastPosition h;
     rotationSpeed := rotationSpeed h;
     cursor := cursor h;
     lastPinchTime := lastPinchTime h;
     lastGestureTime := lastGestureTime h |}.

Definition setGesture (g : Gesture) (h : HandData) : HandData :=
  {| detected := detected h;
     position := position h;
     pinchDistance := pinchDistance h;
     isPinching := isPinching h;
     gesture := g;
     velocity := velocity h;
     lastPosition := lastPosition h;
     rotationSpeed := rotationSpeed h;
     cursor := cursor h;
     lastPinchTime := lastPinchTime h;
     lastGestureTime := lastGestureTime h |}.

(** [resetHand]: three fields are cleared, the others are not touched. *)
Definition resetHand (h : HandData) : HandData :=
  {| detected := detected h;
     position := position h;
     pinchDistance := 0;
     isPinching := isPinching h;
     gesture := gesture h;
     velocity := mkVec2 0 0;
     lastPosition := lastPosition h;
     rotationSpeed := mkVec2 0 0;
     cursor := cursor h;
     lastPinchTime := lastPinchTime h;
     lastGestureTime := lastGestureTime h |}.

(** The deadzone of [rotationSpeed]. *)
Definition deadzone (d : Q) : Q :=
  if Qgtb (Math_abs d) 0.1
  then (if Qgtb d 0 then d - 0.1 else d + 0.1) * 2
  else 0.

(** [updateHandData], lines 208 to 222: the pinch edge. *)
Definition classifyPinch (now : Q) (h : HandData) : HandData :=
  let currentlyPinching := Qltb (pinchDistance h) 0.1 in
  if currentlyPinching && negb (isPinching h) then
    {| detected := detected h;
       position := position h;
       pinchDistance := pinchDistance h;
       isPinching := true;
       gesture := if Qltb (now - lastPinchTime h) 400
                  then DOUBLE_PINCH else PINCH_START;
       velocity := velocity h;
       lastPosition := lastPosition h;
       rotationSpeed := rotationSpeed h;
       cursor := cursor h;
       lastPinchTime := now;
       lastGestureTime := lastGestureTime h |}
  else if negb currentlyPinching && isPinching h then
    {| detected := detected h;
       position := position h;
       pinchDistance := pinchDistance h;
       isPinching := false;
       gesture := PINCH_END;
       velocity := velocity h;
       lastPosition := lastPosition h;
       rotationSpeed := rotationSpeed h;
       cursor := cursor h;
       lastPinchTime := lastPinchTime h;
       lastGestureTime := lastGestureTime h |}
  else setGesture NONE h.

(** Lines 234 to 236. *)
Definition classifyFist (closedFingers : nat) (h : HandData) : HandData :=
  if (3 <=? closedFingers)%nat then setGesture FIST h else h.

(** Lines 238 to 251. *)
Definition classifySwipe (closedFingers : nat) (now : Q) (h : HandData)
  : HandData :=
  if Gesture_eqb (gesture h) NONE && negb (isPinching h)
     && (closedFingers <? 3)%nat && Qgtb (now - lastGestureTime h) 400
  then
    let speedX := v2x (velocity h) * 100 in
    let speedY := v2y (velocity h) * 100 in
    let threshold := 1.5 in
    if Qgtb (Math_abs speedX) threshold || Qgtb (Math_abs speedY) threshold
    then
      {| detected := detected h;
         position := position h;
         pinchDistance := pinchDistance h;
         isPinching := isPinching h;
         gesture :=
           if Qgtb (Math_abs speedX) (Math_abs speedY)
           then (if Qgtb speedX 0 then SWIPE_RIGHT else SWIPE_LEFT)
           else (if Qgtb speedY 0 then SWIPE_DOWN else SWIPE_UP);
         velocity := velocity h;
         lastPosition := lastPosition h;
         rotationSpeed := rotationSpeed h;
         cursor := cursor h;
         lastPinchTime := lastPinchTime h;
         lastGestureTime := now |}
    else h
  else h.

Section WithMath.

(** [Math.sqrt]. *)
Variable Math_sqrt : Q -> Q.

(** Lines 224 to 232: the fingertips (index, middle, ring, pinky) whose
    distance to the wrist in the image plane is below 0.15. *)
Definition tips : list nat := [8; 12; 16; 20]%nat.

Definition closedFingers (lm : Landmarks) : nat :=
  let palmCenter := lm 0%nat in
  fold_left
    (fun closed idx =>
       let tip := lm idx in
       let d := Math_sqrt ((v3x tip - v3x palmCenter) ^ 2
                           + (v3y tip - v3y palmCenter) ^ 2) in
       if Qltb d 0.15 then S closed else closed)
    tips 0%nat.

(** Lines 164 to 206: position, cursor, velocity, rotation speed and
    pinch distance. *)
Definition updateKinematics (hand : HandData) (lm : Landmarks) : HandData :=
  let wrist := lm 0%nat in
  let indexMCP := lm 5%nat in
  let pinkyMCP := lm 17%nat in
  let pos := mkVec3 ((v3x wrist + v3x indexMCP + v3x pinkyMCP) / 3)
                    ((v3y wrist + v3y indexMCP + v3y pinkyMCP) / 3)
                    ((v3z wrist + v3z indexMCP + v3z pinkyMCP) / 3) in
  let thumbTip := lm 4%nat in
  let indexTip := lm 8%nat in
  let targetCursorX := 1 - v3x indexTip in
  let targetCursorY := v3y indexTip in
  let cur := mkVec2
               (v2x (cursor hand) + (targetCursorX - v2x (cursor hand)) * 0.2)
               (v2y (cursor hand) + (targetCursorY - v2y (cursor hand)) * 0.2) in
  let vel :=
    match lastPosition hand with
    | Some lp =>
        let vx := v3x pos - v3x lp in
        let vy := v3y pos - v3y lp in
        mkVec2 (v2x (velocity hand) * 0.5 + vx * 0.5)
               (v2y (velocity hand) * 0.5 + vy * 0.5)
    | None => velocity hand
    end in
  let dx := v3x pos - 0.5 in
  let dy := v3y pos - 0.5 in
  let dx_pinch := v3x thumbTip - v3x indexTip in
  let dy_pinch := v3y thumbTip - v3y indexTip in
  let dz_pinch := v3z thumbTip - v3z indexTip in
  let rawDist := Math_sqrt (dx_pinch * dx_pinch + dy_pinch * dy_pinch
                            + dz_pinch * dz_pinch) in
  let minP := 0.03 in
  let maxP := 0.25 in
  {| detected := detected hand;
     position := pos;
     pinchDistance :=
       Math_min (Math_max ((rawDist - minP) / (maxP - minP)) 0) 1;
     isPinching := isPinching hand;
     gesture := gesture hand;
     velocity := vel;
     lastPosition := Some pos;
     rotationSpeed := mkVec2 (deadzone dx) (deadzone dy);
     cursor := cur;
     lastPinchTime := lastPinchTime hand;
     lastGestureTime := lastGestureTime hand |}.

Definition updateHandData (hand : HandData) (lm : Landmarks) (now : Q)
  : HandData :=
  let h1 := updateKinematics hand lm in
  let h2 := classifyPinch now h1 in
  let closed := closedFingers lm in
  let h3 := classifyFist closed h2 in
  classifySwipe closed now h3.

Definition calculateHandsDistance (vm : t) : t :=
  if detected (leftHand vm) && detected (rightHand vm) then
    let dx := v3x (position (leftHand vm)) - v3x (position (rightHand vm)) in
    let dy := v3y (position (leftHand vm)) - v3y (position (rightHand vm)) in
    let dz := v3z (position (leftHand vm)) - v3z (position (rightHand vm)) in
    let currentDistance := Math_sqrt (dx * dx + dy * dy + dz * dz) in
    let smoothingFactor := 0.3 in
    let smoothed := handsDistance vm * (1 - smoothingFactor)
                    + currentDistance * smoothingFactor in
    let minDistance := 0.15 in
    let maxDistance := 0.8 in
    let normalizedDistance :=
      (smoothed - minDistance) / (maxDistance - minDistance) in
    {| leftHand := leftHand vm;
       rightHand := rightHand vm;
       lastVideoTime := lastVideoTime vm;
       lastHandsDistance := lastHandsDistance vm;
       handsDistance := Math_max 0 (Math_min 1 normalizedDistance);
       handsDetectedBoth := true |}
  else
    {| leftHand := leftHand vm;
       rightHand := rightHand vm;
       lastVideoTime := lastVideoTime vm;
       lastHandsDistance := lastHandsDistance vm;
       handsDistance := handsDistance vm;
       handsDetectedBoth := false |}.

(** The body of the loop of [update], lines 115 to 119. *)
Definition applyDetection (vm : t) (d : Detection) : t :=
  if String.eqb (categoryName d) "Right" then
    {| leftHand := leftHand vm;
       rightHand := updateHandData (setDetected true (rightHand vm))
                                   (landmarks d) (nowMs d);
       lastVideoTime := lastVideoTime vm;
       lastHandsDistance := lastHandsDistance vm;
       handsDistance := handsDistance vm;
       handsDetectedBoth := handsDetectedBoth vm |}
  else
    {| leftHand := updateHandData (setDetected true (leftHand vm))
                                  (landmarks d) (nowMs d);
       rightHand := rightHand vm;
       lastVideoTime := lastVideoTime vm;
       lastHandsDistance := lastHandsDistance vm;
       handsDistance := handsDistance vm;
       handsDetectedBoth := handsDetectedBoth vm |}.

(** Lines 110, 111 and 123, 124 around the loop. *)
Definition beginFrame (vm : t) (time : Q) : t :=
  {| leftHand := setDetected false (leftHand vm);
     rightHand := setDetected false (rightHand vm);
     lastVideoTime := time;
     lastHandsDistance := lastHandsDistance vm;
     handsDistance := handsDistance vm;
     handsDetectedBoth := handsDetectedBoth vm |}.

Definition resetUndetected (vm : t) : t :=
  {| leftHand := if negb (detected (leftHand vm))
                 then resetHand (leftHand vm) else leftHand vm;
     rightHand := if negb (detected (rightHand vm))
                  then resetHand (rightHand vm) else rightHand vm;
     lastVideoTime := lastVideoTime vm;
     lastHandsDistance := lastHandsDistance vm;
     handsDistance := handsDistance vm;
     handsDetectedBoth := handsDetectedBoth vm |}.

Definition update (vm : t) (inp : VisionInput) : t :=
  if negb (trackerReady inp) then vm
  else if negb (Qeq_bool (currentTime inp) (lastVideoTime vm)) then
    let vm1 := beginFrame vm (currentTime inp) in
    let vm2 := fold_left applyDetection (detections inp) vm1 in
    let vm3 := resetUndetected vm2 in
    calculateHandsDistance vm3
  else vm.

(** The manager after a sequence of calls of [update]. *)
Definition run (vm : t) (inps : list VisionInput) : t :=
  fold_left update inps vm.

End WithMath.

End VisionManager.

(** ** The explosion effect *)

Module ExplosionSystem.

(** The particle buffers are filled from [Math.random] and read by the
    renderer only.  The model keeps the [active] flag and [bursts], the
    number of calls of [explode] so far. *)
Record t : Type := mk { active : bool; bursts : nat }.

Definition new : t := {| active := false; bursts := 0 |}.

Definition explode (es : t) : t :=
  {| active := true; bursts := S (bursts es) |}.

(** [update] moves the particles while [active]; neither field changes. *)
Definition update (es : t) : t := es.

End ExplosionSystem.

(** ** The photo system *)

Inductive LayoutState : Type := CRYSTAL_BALL | SPHERE | DETAIL.

Definition LayoutState_eqb (a b : LayoutState) : bool :=
  match a, b with
  | CRYSTAL_BALL, CRYSTAL_BALL | SPHERE, SPHERE | DETAIL, DETAIL => true
  | _, _ => false
  end.

(** [arr[i] = v].  The arrays of the photo system all have [count]
    elements and are indexed below [count] only (see [PhotoSystem.wf] and
    [reachable_wf]). *)
Fixpoint set_nth {A : Type} (i : nat) (v : A) (l : list A) : list A :=
  match l, i with
  | [], _ => []
  | _ :: l', O => v :: l'
  | a :: l', S i' => a :: set_nth i' v l'
  end.

(** The arrival of the texture of photo [texIndex]: the loader callback of
    the constructor, with the size of [tex.image] when there is one. *)
Record TextureLoad : Type := mkTextureLoad {
  texIndex : nat;
  texImage : option (Q * Q)
}.

Module PhotoSystem.

Record PhotoTransform : Type := mkTransform {
  position : Vec3;
  rotation : Quaternion;
  scale : Vec3
}.

Record t : Type := mk {
  count : nat;
  state : LayoutState;
  explosionSystem : ExplosionSystem.t;
  targetTransforms : list PhotoTransform;
  currentTransforms : list PhotoTransform;
  spherePositions : list Vec3;
  selectedIndex : Z;
  hoveredIndex : Z;
  hoverIntensities : list Q;
  aspectRatios : list Q;
  sphereRotation : Euler;
  sphereScale : Q
}.

Definition BASE_RADIUS : Q := 15.
Definition BASE_PHOTO_SCALE : Q := 3.1.
Definition BASE_HEIGHT : Q := 1.5.

Definition defaultTransform : PhotoTransform :=
  mkTransform (mkVec3 0 0 0) Quaternion_identity (mkVec3 1 1 1).

Definition targetAt (ps : t) (i : nat) : PhotoTransform :=
  nth i (targetTransforms ps) defaultTransform.
Definition currentAt (ps : t) (i : nat) : PhotoTransform :=
  nth i (currentTransforms ps) defaultTransform.
Definition spherePositionAt (ps : t) (i : nat) : Vec3 :=
  nth i (spherePositions ps) (mkVec3 0 0 0).

(** All the per-photo arrays have [count] elements. *)
Definition wf (ps : t) : Prop :=
  List.length (targetTransforms ps) = count ps
  /\ List.length (currentTransforms ps) = count ps
  /\ List.length (spherePositions ps) = count ps
  /\ List.length (hoverIntensities ps) = count ps
  /\ List.length (aspectRatios ps) = count ps.

Definition setTargetTransforms (l : list PhotoTransform) (ps : t) : t :=
  {| count := count ps;
     state := state ps;
     explosionSystem := explosionSystem ps;
     targetTransforms := l;
     currentTransforms := currentTransforms ps;
     spherePositions := spherePositions ps;
     selectedIndex := selectedIndex ps;
     hoveredIndex := hoveredIndex ps;
     hoverIntensities := hoverIntensities ps;
     aspectRatios := aspectRatios ps;
     sphereRotation := sphereRotation ps;
     sphereScale := sphereScale ps |}.

Definition setSphereRotation (e : Euler) (ps : t) : t :=
  {| count := count ps;
     state := state ps;
     explosionSystem := explosionSystem ps;
     targetTransforms := targetTransforms ps;
     currentTransforms := currentTransforms ps;
     spherePositions := spherePositions ps;
     selectedIndex := selectedIndex ps;
     hoveredIndex := hoveredIndex ps;
     hoverIntensities := hoverIntensities ps;
     aspectRatios := aspectRatios ps;
     sphereRotation := e;
     sphereScale := sphereScale ps |}.

(** The texture callback: [aspectRatios[i] = width / height] when the
    image has a positive height. *)
Definition onTextureLoad (ps : t) (ev : TextureLoad) : t :=
  match texImage ev with
  | Some (width, height) =>
      if Qgtb height 0 then
        {| count := count ps;
           state := state ps;
           explosionSystem := explosionSystem ps;
           targetTransforms := targetTransforms ps;
           currentTransforms := currentTransforms ps;
           spherePositions := spherePositions ps;
           selectedIndex := selectedIndex ps;
           hoveredIndex := hoveredIndex ps;
           hoverIntensities := hoverIntensities ps;
           aspectRatios := set_nth (texIndex ev) (width / height)
                                   (aspectRatios ps);
           sphereRotation := sphereRotation ps;
           sphereScale := sphereScale ps |}
      else ps
  | None => ps
  end.

(** *** State transitions *)

Definition setCrystalBallLayout (ps : t) : t :=
  {| count := count ps;
     state := CRYSTAL_BALL;
     explosionSystem := explosionSystem ps;
     targetTransforms := targetTransforms ps;
     currentTransforms := currentTransforms ps;
     spherePositions := spherePositions ps;
     selectedIndex := -1;
     hoveredIndex := hoveredIndex ps;
     hoverIntensities := hoverIntensities ps;
     aspectRatios := aspectRatios ps;
     sphereRotation := sphereRotation ps;
     sphereScale := 0.2 |}.

Definition setSphereLayout (ps : t) : t :=
  {| count := count ps;
     state := SPHERE;
     explosionSystem :=
       if LayoutState_eqb (state ps) CRYSTAL_BALL
       then ExplosionSystem.explode (explosionSystem ps)
       else explosionSystem ps;
     targetTransforms := targetTransforms ps;
     currentTransforms := currentTransforms ps;
     spherePositions := spherePositions ps;
     selectedIndex := -1;
     hoveredIndex := hoveredIndex ps;
     hoverIntensities := hoverIntensities ps;
     aspectRatios := aspectRatios ps;
     sphereRotation := sphereRotation ps;
     sphereScale := 1.0 |}.

(** The loop of [setDetailLayout] over the photos other than [index]. *)
Definition parkOthers (index : nat) (ps : t) (i : nat) : t :=
  if (i =? index)%nat then ps
  else
    let pos := multiplyScalar (spherePositionAt ps i) (BASE_RADIUS * 2.0) in
    setTargetTransforms
      (set_nth i {| position := pos;
                    rotation := rotation (targetAt ps i);
                    scale := setScalar 0 |}
               (targetTransforms ps))
      ps.

Definition setDetailLayout (ps : t) (index : Z) : t :=
  if ((index <? 0) || (index >=? Z.of_nat (count ps)))%Z then ps
  else
    let idx := Z.to_nat index in
    let detailScale := 36 in
    let ar := nth idx (aspectRatios ps) 0 in
    let centerTarget :=
      {| position := mkVec3 0 0 32;
         rotation := Quaternion_identity;
         scale := mkVec3 (detailScale * ar) detailScale 1 |} in
    let ps1 :=
      {| count := count ps;
         state := DETAIL;
         explosionSystem := explosionSystem ps;
         targetTransforms := set_nth idx centerTarget (targetTransforms ps);
         currentTransforms := currentTransforms ps;
         spherePositions := spherePositions ps;
         selectedIndex := index;
         hoveredIndex := hoveredIndex ps;
         hoverIntensities := hoverIntensities ps;
         aspectRatios := aspectRatios ps;
         sphereRotation := sphereRotation ps;
         sphereScale := sphereScale ps |} in
    fold_left (parkOthers idx) (seq 0 (count ps)) ps1.

(** *** Interaction *)

Definition setHovered (ps : t) (index : Z) : t :=
  if negb (LayoutState_eqb (state ps) SPHERE) then ps
  else
    {| count := count ps;
       state := state ps;
       explosionSystem := explosionSystem ps;
       targetTransforms := targetTransforms ps;
       currentTransforms := currentTransforms ps;
       spherePositions := spherePositions ps;
       selectedIndex := selectedIndex ps;
       hoveredIndex := index;
       hoverIntensities := hoverIntensities ps;
       aspectRatios := aspectRatios ps;
       sphereRotation := sphereRotation ps;
       sphereScale := sphereScale ps |}.

Definition rotateSphere (ps : t) (deltaX deltaY : Q) : t :=
  setSphereRotation
    (mkEuler (ex (sphereRotation ps) + deltaY)
             (ey (sphereRotation ps) + deltaX)
             (ez (sphereRotation ps)))
    ps.

Definition nextPhoto (ps : t) : t :=
  if negb (LayoutState_eqb (state ps) DETAIL) then ps
  else
    let next := (selectedIndex ps + 1)%Z in
    let next := if (next >=? Z.of_nat (count ps))%Z then 0%Z else next in
    setDetailLayout ps next.

Definition prevPhoto (ps : t) : t :=
  if negb (LayoutState_eqb (state ps) DETAIL) then ps
  else
    let prev := (selectedIndex ps - 1)%Z in
    let prev := if (prev <? 0)%Z then (Z.of_nat (count ps) - 1)%Z else prev in
    setDetailLayout ps prev.

Definition setExpansion (ps : t) (factor : Q) : t :=
  if LayoutState_eqb (state ps) SPHERE then
    {| count := count ps;
       state := state ps;
       explosionSystem := explosionSystem ps;
       targetTransforms := targetTransforms ps;
       currentTransforms := currentTransforms ps;
       spherePositions := spherePositions ps;
       selectedIndex := selectedIndex ps;
       hoveredIndex := hoveredIndex ps;
       hoverIntensities := hoverIntensities ps;
       aspectRatios := aspectRatios ps;
       sphereRotation := sphereRotation ps;
       sphereScale := 0.5 + factor * 2.05 |}
  else ps.

Section WithMath.

(** [Math.sqrt], [Math.sin], [Math.cos], [Math.PI]. *)
Variable Math_sqrt : Q -> Q.
Variable Math_sin : Q -> Q.
Variable Math_cos : Q -> Q.
Variable Math_PI : Q.
(** [v.applyEuler(e)]. *)
Variable applyEuler : Vec3 -> Euler -> Vec3.
(** The quaternion of an [Object3D] placed at the first point after
    [lookAt] of the second. *)
Variable lookAt : Vec3 -> Vec3 -> Quaternion.
(** [q.slerp(target, alpha)]. *)
Variable slerp : Quaternion -> Quaternion -> Q -> Quaternion.

(** The Fibonacci sphere.  For [count = 1] the source divides 0 by 0. *)
Definition generateSphereLayout (count : nat) : list Vec3 :=
  let phi := Math_PI * (3 - Math_sqrt 5) in
  map (fun i : nat =>
         let iq := inject_Z (Z.of_nat i) in
         let y := 1 - (iq / inject_Z (Z.of_nat count - 1)) * 2 in
         let r := Math_sqrt (1 - y * y) in
         let theta := phi * iq in
         let x := Math_cos theta * r in
         let z := Math_sin theta * r in
         mkVec3 x y z)
      (seq 0 count).

(** The constructor: the field initialisers, the loop that pushes one
    hover intensity and one aspect ratio per photo, [initTransforms],
    [generateSphereLayout] and [setCrystalBallLayout]. *)
Definition new (count : nat) : t :=
  setCrystalBallLayout
    {| count := count;
       state := CRYSTAL_BALL;
       explosionSystem := ExplosionSystem.new;
       targetTransforms := repeat defaultTransform count;
       currentTransforms := repeat defaultTransform count;
       spherePositions := generateSphereLayout count;
       selectedIndex := -1;
       hoveredIndex := -1;
       hoverIntensities := repeat 0 count;
       aspectRatios := repeat 0.8 count;
       sphereRotation := mkEuler 0 0 0;
       sphereScale := 1.0 |}.

(** *** [update] *)

(** Lines 485 to 490: the automatic rotation. *)
Definition autoRotate (time : Q) (ps : t) : t :=
  match state ps with
  | CRYSTAL_BALL =>
      setSphereRotation
        (mkEuler (ex (sphereRotation ps))
                 (ey (sphereRotation ps) + 0.05)
                 (Math_sin time * 0.1))
        ps
  | SPHERE =>
      setSphereRotation
        (mkEuler (ex (sphereRotation ps))
                 (ey (sphereRotation ps) + 0.002)
                 (ez (sphereRotation ps)))
        ps
  | DETAIL => ps
  end.

(** Lines 498 to 550: the target of photo [i] on the sphere, and its
    hover intensity. *)
Definition layoutOnSphere (ps : t) (i : nat) : t :=
  let ar := nth i (aspectRatios ps) 0 in
  let r := BASE_RADIUS * sphereScale ps in
  let basePos := spherePositionAt ps i in
  let p := applyEuler (multiplyScalar basePos r) (sphereRotation ps) in
  let isHovered := (Z.of_nat i =? hoveredIndex ps)%Z
                   && LayoutState_eqb (state ps) SPHERE in
  let targetIntensity := if isHovered then 1.0 else 0.0 in
  let old := nth i (hoverIntensities ps) 0 in
  let hoverEffect := old + (targetIntensity - old) * 0.15 in
  let p := if Qgtb hoverEffect 0.001
           then multiplyScalar p (1.0 + 0.1 * hoverEffect) else p in
  let s := BASE_PHOTO_SCALE * sphereScale ps in
  let baseH := BASE_HEIGHT * s in
  let scaleMult := if Qgtb hoverEffect 0.001
                   then 1.0 + 0.2 * hoverEffect else 1.0 in
  let finalH := baseH * scaleMult in
  let finalW := finalH * ar in
  {| count := count ps;
     state := state ps;
     explosionSystem := explosionSystem ps;
     targetTransforms :=
       set_nth i {| position := p;
                    rotation := lookAt p (multiplyScalar p 2);
                    scale := mkVec3 finalW finalH 1 |}
               (targetTransforms ps);
     currentTransforms := currentTransforms ps;
     spherePositions := spherePositions ps;
     selectedIndex := selectedIndex ps;
     hoveredIndex := hoveredIndex ps;
     hoverIntensities := set_nth i hoverEffect (hoverIntensities ps);
     aspectRatios := aspectRatios ps;
     sphereRotation := sphereRotation ps;
     sphereScale := sphereScale ps |}.

(** Lines 553 to 555: the selected photo floats up and down. *)
Definition floatSelected (time : Q) (ps : t) (i : nat) : t :=
  let target := targetAt ps i in
  setTargetTransforms
    (set_nth i {| position := mkVec3 (v3x (position target))
                                     (Math_sin (time * 2) * 0.5)
                                     (v3z (position target));
                  rotation := rotation target;
                  scale := scale target |}
             (targetTransforms ps))
    ps.

(** Lines 558 to 560: the current transform eases towards the target.
    The mesh of the photo then copies the current transform. *)
Definition interpolate (ps : t) (i : nat) : t :=
  let lerpFactor := 0.05 in
  let current := currentAt ps i in
  let target := targetAt ps i in
  {| count := count ps;
     state := state ps;
     explosionSystem := explosionSystem ps;
     targetTransforms := targetTransforms ps;
     currentTransforms :=
       set_nth i {| position := lerp (position current) (position target)
                                     lerpFactor;
                    rotation := slerp (rotation current) (rotation target)
                                      lerpFactor;
                    scale := lerp (scale current) (scale target)
                                  lerpFactor |}
               (currentTransforms ps);
     spherePositions := spherePositions ps;
     selectedIndex := selectedIndex ps;
     hoveredIndex := hoveredIndex ps;
     hoverIntensities := hoverIntensities ps;
     aspectRatios := aspectRatios ps;
     sphereRotation := sphereRotation ps;
     sphereScale := sphereScale ps |}.

(** The body of the loop over the photos. *)
Definition updateItem (time : Q) (ps : t) (i : nat) : t :=
  let ps1 :=
    if LayoutState_eqb (state ps) SPHERE
       || LayoutState_eqb (state ps) CRYSTAL_BALL
    then layoutOnSphere ps i else ps in
  let ps2 :=
    if LayoutState_eqb (state ps1) DETAIL
       && (Z.of_nat i =? selectedIndex ps1)%Z
    then floatSelected time ps1 i else ps1 in
  interpolate ps2 i.

(** [update], with the value read from [Date.now()]. *)
Definition update (ps : t) (dateNow : Q) : t :=
  let time := dateNow * 0.001 in
  let ps0 :=
    {| count := count ps;
       state := state ps;
       explosionSystem := ExplosionSystem.update (explosionSystem ps);
       targetTransforms := targetTransforms ps;
       currentTransforms := currentTransforms ps;
       spherePositions := spherePositions ps;
       selectedIndex := selectedIndex ps;
       hoveredIndex := hoveredIndex ps;
       hoverIntensities := hoverIntensities ps;
       aspectRatios := aspectRatios ps;
       sphereRotation := sphereRotation ps;
       sphereScale := sphereScale ps |} in
  fold_left (updateItem time) (seq 0 (count ps)) (autoRotate time ps0).

End WithMath.

End PhotoSystem.

(** ** The frame callback of [main.ts] *)

Record World : Type := mkWorld {
  visionManager : VisionManager.t;
  photoSystem : PhotoSystem.t
}.

(** What one frame observes: the input of [visionManager.update()], the
    textures whose load callback ran since the previous frame, the id of the
    first mesh hit by the ray through the cursor (when there is one), and
    [Date.now()]. *)
Record TickInput : Type := mkTickInput {
  visionInput : VisionInput;
  texturesLoaded : list TextureLoad;
  raycastHit : option Z;
  dateNow : Q
}.

Section Main.

Variable Math_sqrt : Q -> Q.
Variable Math_sin : Q -> Q.
Variable Math_cos : Q -> Q.
Variable Math_PI : Q.
Variable applyEuler : Vec3 -> Euler -> Vec3.
Variable lookAt : Vec3 -> Vec3 -> Quaternion.
Variable slerp : Quaternion -> Quaternion -> Q -> Quaternion.

(** The world at the start of the frame loop.  [main.ts] builds the photo
    system with the default number of photos, 130. *)
Definition initialWorld (count : nat) : World :=
  {| visionManager := VisionManager.new;
     photoSystem := PhotoSystem.new Math_sqrt Math_sin Math_cos Math_PI count |}.

(** Lines 74 to 144 of [main.ts]: the interaction logic. *)
Definition interact (vm : VisionManager.t) (hoveredIndex : Z)
           (ps : PhotoSystem.t) : PhotoSystem.t :=
  let leftHand := VisionManager.leftHand vm in
  let rightHand := VisionManager.rightHand vm in
  match PhotoSystem.state ps with
  | CRYSTAL_BALL =>
      if Gesture_eqb (gesture leftHand) PINCH_START
         || Gesture_eqb (gesture rightHand) PINCH_START
      then PhotoSystem.setSphereLayout ps else ps
  | SPHERE =>
      let ps1 := if VisionManager.handsDetectedBoth vm
                 then PhotoSystem.setExpansion ps (VisionManager.zoomFactor vm)
                 else ps in
      if detected rightHand then
        let ps2 :=
          if negb (isPinching rightHand)
          then PhotoSystem.rotateSphere ps1
                 (v2x (rotationSpeed rightHand) * 0.05)
                 (v2y (rotationSpeed rightHand) * 0.05)
          else ps1 in
        let ps3 :=
          if Gesture_eqb (gesture rightHand) DOUBLE_PINCH
             && negb (hoveredIndex =? -1)%Z
          then PhotoSystem.setDetailLayout ps2 hoveredIndex else ps2 in
        if Gesture_eqb (gesture rightHand) PINCH_START
           && negb (hoveredIndex =? -1)%Z
        then PhotoSystem.setDetailLayout ps3 hoveredIndex else ps3
      else
        if negb (detected leftHand) || Qltb (pinchDistance leftHand) 0.2
        then PhotoSystem.rotateSphere ps1 0.002 0 else ps1
  | DETAIL =>
      if detected rightHand then
        let ps1 :=
          if Gesture_eqb (gesture rightHand) SWIPE_LEFT
          then PhotoSystem.nextPhoto ps
          else if Gesture_eqb (gesture rightHand) SWIPE_RIGHT
               then PhotoSystem.prevPhoto ps else ps in
        if Gesture_eqb (gesture rightHand) FIST
        then PhotoSystem.setSphereLayout ps1 else ps1
      else ps
  end.

(** One call of the frame callback. *)
Definition tick (w : World) (inp : TickInput) : World :=
  let ps0 := fold_left PhotoSystem.onTextureLoad (texturesLoaded inp)
                       (photoSystem w) in
  let vm := VisionManager.update Math_sqrt (visionManager w)
                                 (visionInput inp) in
  let rightHand := VisionManager.rightHand vm in
  let hoveredIndex :=
    if detected rightHand && LayoutState_eqb (PhotoSystem.state ps0) SPHERE
    then match raycastHit inp with Some id => id | None => (-1)%Z end
    else (-1)%Z in
  let ps1 := PhotoSystem.setHovered ps0 hoveredIndex in
  let ps2 := interact vm hoveredIndex ps1 in
  {| visionManager := vm;
     photoSystem := PhotoSystem.update Math_sin applyEuler lookAt slerp
                                       ps2 (dateNow inp) |}.

Definition run (w : World) (inps : list TickInput) : World :=
  fold_left tick inps w.

End Main.

(** ** A computable instance of the parameters

    The examples below run the model on concrete frames, which needs
    closed functions for the parameters.  [Sample.sqrt] rounds the square
    root down to a multiple of [1 / (den * 2^32)]; it is exact on the
    distances the example hands produce (0, 0.3, 0.4 and 1, see
    [Sample_sqrt_values]).  The values of the other functions reach the
    transforms of the photos only, never what the examples observe
    (gestures, distances, layout state, scale, rotation, calls of
    [explode]): the general theorems of this file hold for all choices of
    the parameters. *)

Module Sample.

Definition sqrt (q : Q) : Q :=
  let r := Qred q in
  (Z.sqrt (Qnum r * Z.pos (Qden r) * 4 ^ 32) # (Qden r * 2 ^ 32)).

Definition sin (x : Q) : Q := x - x * x * x / 6.
Definition cos (x : Q) : Q := 1 - x * x / 2.
Definition PI : Q := 3.141592653589793.
Definition applyEuler (v : Vec3) (e : Euler) : Vec3 := v.
Definition lookAt (p target : Vec3) : Quaternion := Quaternion_identity.
Definition slerp (q target : Quaternion) (alpha : Q) : Quaternion := target.

Abbreviation updateHandData := (VisionManager.updateHandData sqrt).
Abbreviation update := (VisionManager.update sqrt).
Abbreviation initialWorld := (initialWorld sqrt sin cos PI).
Abbreviation tick := (tick sqrt sin applyEuler lookAt slerp).
Abbreviation run := (run sqrt sin applyEuler lookAt slerp).

(** Landmark sets used by the examples.  [closedHand p]: every landmark at
    [p], thumb on index and all fingertips on the wrist.  [pinchingHand p]:
    wrist 0.4 below [p], everything else at [p], so thumb on index and
    fingers open.  [openHand p]: as before with the thumb tip 0.3 to the
    side. *)
Definition closedHand (p : Vec3) : Landmarks := fun _ => p.

Definition pinchingHand (p : Vec3) : Landmarks :=
  fun i => match i with
           | O => mkVec3 (v3x p) (v3y p + 0.4) (v3z p)
           | _ => p
           end.

Definition openHand (p : Vec3) : Landmarks :=
  fun i => match i with
           | O => mkVec3 (v3x p) (v3y p + 0.4) (v3z p)
           | 4%nat => mkVec3 (v3x p + 0.3) (v3y p) (v3z p)
           | _ => p
           end.

Definition frame (time : Q) (ds : list Detection) : VisionInput :=
  {| trackerReady := true; currentTime := time; detections := ds |}.

Definition tickOf (time : Q) (ds : list Detection) : TickInput :=
  {| visionInput := frame time ds;
     texturesLoaded := [];
     raycastHit := None;
     dateNow := 0 |}.

End Sample.

(** ** Vocabulary of the statements *)

(** The hand slot a detection is written to. *)
Definition isRight (d : Detection) : bool :=
  String.eqb (categoryName d) "Right".

Definition handOf (right : bool) (vm : VisionManager.t) : HandData :=
  if right then VisionManager.rightHand vm else VisionManager.leftHand vm.

(** [update] goes past its two early returns: the tracker is ready and the
    video shows a new frame. *)
Definition processes (vm : VisionManager.t) (inp : VisionInput) : Prop :=
  trackerReady inp = true
  /\ Qeq_bool (currentTime inp) (VisionManager.lastVideoTime vm) = false.

Definition in01 (q : Q) : Prop := 0 <= q /\ q <= 1.

(** Two vectors with numerically equal coordinates; the fractions that
    stand for the numbers may differ. *)
Definition Vec3_eq (a b : Vec3) : Prop :=
  v3x a == v3x b /\ v3y a == v3y b /\ v3z a == v3z b.

Definition isPinchEvent (g : Gesture) : bool :=
  match g with
  | PINCH_START | DOUBLE_PINCH | PINCH_END => true
  | _ => false
  end.

Definition isPinchStart (g : Gesture) : bool :=
  match g with
  | PINCH_START | DOUBLE_PINCH => true
  | _ => false
  end.

(** What [resetHand] leaves behind. *)
Definition cleared (h : HandData) : Prop :=
  velocity h = mkVec2 0 0
  /\ rotationSpeed h = mkVec2 0 0
  /\ pinchDistance h = 0.

(** The facts about a hand slot that hold after every frame. *)
Definition hand_inv (h : HandData) : Prop :=
  in01 (pinchDistance h)
  /\ (isPinchStart (gesture h) = true -> isPinching h = true)
  /\ (detected h = false -> cleared h).

Definition vision_inv (vm : VisionManager.t) : Prop :=
  hand_inv (VisionManager.leftHand vm)
  /\ hand_inv (VisionManager.rightHand vm)
  /\ in01 (VisionManager.handsDistance vm)
  /\ VisionManager.handsDetectedBoth vm
     = detected (VisionManager.leftHand vm)
       && detected (VisionManager.rightHand vm).

(** The number of frames of a run that take the layout from CRYSTAL_BALL to
    SPHERE. *)
Definition entersSphere (before after : PhotoSystem.t) : bool :=
  LayoutState_eqb (PhotoSystem.state before) CRYSTAL_BALL
  && LayoutState_eqb (PhotoSystem.state after) SPHERE.

Fixpoint transitions (step : World -> TickInput -> World) (w : World)
         (inps : list TickInput) : nat :=
  match inps with
  | [] => 0
  | inp :: rest =>
      (if entersSphere (photoSystem w) (photoSystem (step w inp)) then 1 else 0)
      + transitions step (step w inp) rest
  end.

(** The number of calls of [explode] so far. *)
Definition bursts_of (ps : PhotoSystem.t) : nat :=
  ExplosionSystem.bursts (PhotoSystem.explosionSystem ps).

(** The photo system with its per-photo arrays replaced. *)
Definition withArrays (targets currents : list PhotoSystem.PhotoTransform)
           (hovers : list Q) (ps : PhotoSystem.t) : PhotoSystem.t :=
  {| PhotoSystem.count := PhotoSystem.count ps;
     PhotoSystem.state := PhotoSystem.state ps;
     PhotoSystem.explosionSystem := PhotoSystem.explosionSystem ps;
     PhotoSystem.targetTransforms := targets;
     PhotoSystem.currentTransforms := currents;
     PhotoSystem.spherePositions := PhotoSystem.spherePositions ps;
     PhotoSystem.selectedIndex := PhotoSystem.selectedIndex ps;
     PhotoSystem.hoveredIndex := PhotoSystem.hoveredIndex ps;
     PhotoSystem.hoverIntensities := hovers;
     PhotoSystem.aspectRatios := PhotoSystem.aspectRatios ps;
     PhotoSystem.sphereRotation := PhotoSystem.sphereRotation ps;
     PhotoSystem.sphereScale := PhotoSystem.sphereScale ps |}.

(** [ps'] differs from [ps] in the per-photo arrays at most; the arrays
    keep their lengths and the hover intensities stay in the unit interval
    if they were. *)
Definition arrays_only (ps ps' : PhotoSystem.t) : Prop :=
  exists targets currents hovers,
    ps' = withArrays targets currents hovers ps
    /\ List.length targets = List.length (PhotoSystem.targetTransforms ps)
    /\ List.length currents = List.length (PhotoSystem.currentTransforms ps)
    /\ List.length hovers = List.length (PhotoSystem.hoverIntensities ps)
    /\ (Forall in01 (PhotoSystem.hoverIntensities ps) -> Forall in01 hovers).

(** [ps'] differs from [ps] in the target transforms at most. *)
Definition targets_only (ps ps' : PhotoSystem.t) : Prop :=
  exists targets,
    ps' = PhotoSystem.setTargetTransforms targets ps
    /\ List.length targets = List.length (PhotoSystem.targetTransforms ps).

(** The photo system in DETAIL with the given selection. *)
Definition enterDetail (index : Z) (ps : PhotoSystem.t) : PhotoSystem.t :=
  {| PhotoSystem.count := PhotoSystem.count ps;
     PhotoSystem.state := DETAIL;
     PhotoSystem.explosionSystem := PhotoSystem.explosionSystem ps;
     PhotoSystem.targetTransforms := PhotoSystem.targetTransforms ps;
     PhotoSystem.currentTransforms := PhotoSystem.currentTransforms ps;
     PhotoSystem.spherePositions := PhotoSystem.spherePositions ps;
     PhotoSystem.selectedIndex := index;
     PhotoSystem.hoveredIndex := PhotoSystem.hoveredIndex ps;
     PhotoSystem.hoverIntensities := PhotoSystem.hoverIntensities ps;
     PhotoSystem.aspectRatios := PhotoSystem.aspectRatios ps;
     PhotoSystem.sphereRotation := PhotoSystem.sphereRotation ps;
     PhotoSystem.sphereScale := PhotoSystem.sphereScale ps |}.

(** What [setDetailLayout], [nextPhoto] and [prevPhoto] do not touch. *)
Definition keeps_sphere (ps ps' : PhotoSystem.t) : Prop :=
  PhotoSystem.count ps' = PhotoSystem.count ps
  /\ PhotoSystem.explosionSystem ps' = PhotoSystem.explosionSystem ps
  /\ PhotoSystem.hoverIntensities ps' = PhotoSystem.hoverIntensities ps
  /\ PhotoSystem.sphereRotation ps' = PhotoSystem.sphereRotation ps
  /\ PhotoSystem.sphereScale ps' = PhotoSystem.sphereScale ps
  /\ (PhotoSystem.state ps' = PhotoSystem.state ps
      \/ PhotoSystem.state ps' = DETAIL).

(** What the interaction logic of a frame does not touch, except through
    [setSphereLayout]. *)
Definition keeps_effects (ps ps' : PhotoSystem.t) : Prop :=
  PhotoSystem.count ps' = PhotoSystem.count ps
  /\ PhotoSystem.explosionSystem ps' = PhotoSystem.explosionSystem ps
  /\ PhotoSystem.hoverIntensities ps' = PhotoSystem.hoverIntensities ps
  /\ (PhotoSystem.state ps' = PhotoSystem.state ps
      \/ PhotoSystem.state ps' = DETAIL).

(** The fields of the photo system that the texture callback leaves. *)
Definition layoutFields (ps : PhotoSystem.t) :=
  (PhotoSystem.count ps, PhotoSystem.state ps, PhotoSystem.explosionSystem ps,
   PhotoSystem.selectedIndex ps, PhotoSystem.hoveredIndex ps,
   PhotoSystem.hoverIntensities ps, PhotoSystem.sphereRotation ps,
   PhotoSystem.sphereScale ps).

(** The hovered index the frame passes to the photo system. *)
Definition hoveredIndexOf (Math_sqrt : Q -> Q) (w : World) (inp : TickInput) : Z :=
  let ps0 := fold_left PhotoSystem.onTextureLoad (texturesLoaded inp)
                       (photoSystem w) in
  let vm := VisionManager.update Math_sqrt (visionManager w) (visionInput inp) in
  if detected (VisionManager.rightHand vm)
     && LayoutState_eqb (PhotoSystem.state ps0) SPHERE
  then match raycastHit inp with Some id => id | None => (-1)%Z end
  else (-1)%Z.

(** The photo system the interaction logic of the frame starts from. *)
Definition hoveredSystem (Math_sqrt : Q -> Q) (w : World) (inp : TickInput) : PhotoSystem.t :=
  PhotoSystem.setHovered
    (fold_left PhotoSystem.onTextureLoad (texturesLoaded inp) (photoSystem w))
    (hoveredIndexOf Math_sqrt w inp).

(** The photo system the right-hand branch of SPHERE starts from. *)
Definition expanded (vm : VisionManager.t) (ps : PhotoSystem.t) : PhotoSystem.t :=
  if VisionManager.handsDetectedBoth vm
  then PhotoSystem.setExpansion ps (VisionManager.zoomFactor vm) else ps.

(** One hover intensity per photo, each in the unit interval. *)
Definition hover_inv (ps : PhotoSystem.t) : Prop :=
  Forall in01 (PhotoSystem.hoverIntensities ps)
  /\ List.length (PhotoSystem.hoverIntensities ps) = PhotoSystem.count ps.

(** The number of photos and the lengths of the per-photo arrays agree. *)
Definition same_shape (ps ps' : PhotoSystem.t) : Prop :=
  PhotoSystem.count ps' = PhotoSystem.count ps
  /\ List.length (PhotoSystem.targetTransforms ps')
     = List.length (PhotoSystem.targetTransforms ps)
  /\ List.length (PhotoSystem.currentTransforms ps')
     = List.length (PhotoSystem.currentTransforms ps)
  /\ List.length (PhotoSystem.spherePositions ps')
     = List.length (PhotoSystem.spherePositions ps)
  /\ List.length (PhotoSystem.hoverIntensities ps')
     = List.length (PhotoSystem.hoverIntensities ps)
  /\ List.length (PhotoSystem.aspectRatios ps')
     = List.length (PhotoSystem.aspectRatios ps).

Definition isSwipe (g : Gesture) : bool :=
  match g with
  | SWIPE_LEFT | SWIPE_RIGHT | SWIPE_UP | SWIPE_DOWN => true
  | _ => false
  end.

(** The distance between thumb tip and index tip that [updateHandData]
    computes (lines 199 to 202). *)
Definition rawPinch (Math_sqrt : Q -> Q) (lm : Landmarks) : Q :=
  let thumbTip := lm 4%nat in
  let indexTip := lm 8%nat in
  Math_sqrt ((v3x thumbTip - v3x indexTip) * (v3x thumbTip - v3x indexTip)
             + (v3y thumbTip - v3y indexTip) * (v3y thumbTip - v3y indexTip)
             + (v3z thumbTip - v3z indexTip) * (v3z thumbTip - v3z indexTip)).

(** The fields the fist and swipe stages do not write. *)
Definition poseOf (h : HandData) :=
  (detected h, position h, pinchDistance h, isPinching h, velocity h,
   lastPosition h, rotationSpeed h, cursor h, lastPinchTime h).

(** An open hand seen at x = 0.3 and, 100 ms later, at x = 0.5. *)
Definition swipingHand : HandData :=
  Sample.updateHandData
    (VisionManager.setDetected true VisionManager.createEmptyHandData)
    (Sample.openHand (mkVec3 0.3 0.5 0)) 1000.

(** The distance between the two hand positions that
    [calculateHandsDistance] computes (lines 134 to 138). *)
Definition rawHandsDistance (Math_sqrt : Q -> Q) (vm : VisionManager.t) : Q :=
  let l := position (VisionManager.leftHand vm) in
  let r := position (VisionManager.rightHand vm) in
  Math_sqrt ((v3x l - v3x r) * (v3x l - v3x r)
             + (v3y l - v3y r) * (v3y l - v3y r)
             + (v3z l - v3z r) * (v3z l - v3z r)).

Definition bothDetected (vm : VisionManager.t) : bool :=
  detected (VisionManager.leftHand vm) && detected (VisionManager.rightHand vm).

(** The manager after a first frame that shows the hands one unit apart. *)
Definition handsApart : VisionManager.t :=
  Sample.update VisionManager.new
    (Sample.frame 0
       [mkDetection "Left" (Sample.closedHand (mkVec3 0 0.5 0)) 1000;
        mkDetection "Right" (Sample.closedHand (mkVec3 1 0.5 0)) 1000]).

(** The selection agrees with the layout: a photo index in DETAIL, -1
    elsewhere. *)
Definition selection_inv (ps : PhotoSystem.t) : Prop :=
  match PhotoSystem.state ps with
  | DETAIL => (0 <= PhotoSystem.selectedIndex ps
               < Z.of_nat (PhotoSystem.count ps))%Z
  | _ => PhotoSystem.selectedIndex ps = (-1)%Z
  end.

(** The scale agrees with the layout: 0.2 in CRYSTAL_BALL, between 0.5 and
    2.55 elsewhere. *)
Definition scale_inv (ps : PhotoSystem.t) : Prop :=
  match PhotoSystem.state ps with
  | CRYSTAL_BALL => PhotoSystem.sphereScale ps = 0.2
  | _ => 0.5 <= PhotoSystem.sphereScale ps <= 2.55
  end.

(** The ray of the frame hits a photo of the system. *)
Definition hitsPhoto (inp : TickInput) (ps : PhotoSystem.t) : bool :=
  match raycastHit inp with
  | Some id => ((0 <=? id) && (id <? Z.of_nat (PhotoSystem.count ps)))%Z
  | None => false
  end.

(** The layout and the scale after a frame, from the layout before it and
    the hands after the vision update of the frame. *)
Definition nextLayout (vm : VisionManager.t) (inp : TickInput)
           (ps : PhotoSystem.t) : LayoutState :=
  let left := VisionManager.leftHand vm in
  let right := VisionManager.rightHand vm in
  match PhotoSystem.state ps with
  | CRYSTAL_BALL =>
      if Gesture_eqb (gesture left) PINCH_START
         || Gesture_eqb (gesture right) PINCH_START
      then SPHERE else CRYSTAL_BALL
  | SPHERE =>
      if detected right && isPinchStart (gesture right) && hitsPhoto inp ps
      then DETAIL else SPHERE
  | DETAIL =>
      if detected right && Gesture_eqb (gesture right) FIST
      then SPHERE else DETAIL
  end.

Definition nextScale (vm : VisionManager.t) (ps : PhotoSystem.t) : Q :=
  let left := VisionManager.leftHand vm in
  let right := VisionManager.rightHand vm in
  match PhotoSystem.state ps with
  | CRYSTAL_BALL =>
      if Gesture_eqb (gesture left) PINCH_START
         || Gesture_eqb (gesture right) PINCH_START
      then 1.0 else PhotoSystem.sphereScale ps
  | SPHERE =>
      if VisionManager.handsDetectedBoth vm
      then 0.5 + VisionManager.handsDistance vm * 2.05
      else PhotoSystem.sphereScale ps
  | DETAIL =>
      if detected right && Gesture_eqb (gesture right) FIST
      then 1.0 else PhotoSystem.sphereScale ps
  end.
(** The selection after a frame. *)
Definition nextSelection (vm : VisionManager.t) (inp : TickInput)
           (ps : PhotoSystem.t) : Z :=
  let right := VisionManager.rightHand vm in
  let n := Z.of_nat (PhotoSystem.count ps) in
  let s := PhotoSystem.selectedIndex ps in
  match PhotoSystem.state ps with
  | CRYSTAL_BALL => (-1)%Z
  | SPHERE =>
      if detected right && isPinchStart (gesture right) && hitsPhoto inp ps
      then match raycastHit inp with Some id => id | None => (-1)%Z end
      else (-1)%Z
  | DETAIL =>
      if detected right then
        match gesture right with
        | FIST => (-1)%Z
        | SWIPE_LEFT => ((s + 1) mod n)%Z
        | SWIPE_RIGHT => ((s - 1) mod n)%Z
        | _ => s
        end
      else s
  end.

(** Where [setDetailLayout] parks photo [i] when another photo is shown:
    on the sphere of twice the base radius, at scale 0, rotation kept. *)
Definition parkedTransform (ps : PhotoSystem.t) (i : nat)
  : PhotoSystem.PhotoTransform :=
  PhotoSystem.mkTransform
    (multiplyScalar (PhotoSystem.spherePositionAt ps i)
                    (PhotoSystem.BASE_RADIUS * 2.0))
    (PhotoSystem.rotation (PhotoSystem.targetAt ps i))
    (setScalar 0).

(** Where [setDetailLayout] pins the photo it shows. *)
Definition pinnedTransform (ps : PhotoSystem.t) (i : nat)
  : PhotoSystem.PhotoTransform :=
  PhotoSystem.mkTransform
    (mkVec3 0 0 32) Quaternion_identity
    (mkVec3 (36 * nth i (PhotoSystem.aspectRatios ps) 0) 36 1).

Definition hoverAt (ps : PhotoSystem.t) (i : nat) : Q :=
  nth i (PhotoSystem.hoverIntensities ps) 0.

(** The intensity the hover of photo [i] eases to: 1 for the hovered photo
    in SPHERE, 0 otherwise. *)
Definition hoverTarget (ps : PhotoSystem.t) (i : nat) : Q :=
  if (Z.of_nat i =? PhotoSystem.hoveredIndex ps)%Z
     && LayoutState_eqb (PhotoSystem.state ps) SPHERE
  then 1.0 else 0.0.

Definition onSphere (ps : PhotoSystem.t) : bool :=
  LayoutState_eqb (PhotoSystem.state ps) SPHERE
  || LayoutState_eqb (PhotoSystem.state ps) CRYSTAL_BALL.

(** One step of the easing of a transform towards a target (lines 558 to
    560). *)
Definition eased (slerp : Quaternion -> Quaternion -> Q -> Quaternion)
           (current target : PhotoSystem.PhotoTransform)
  : PhotoSystem.PhotoTransform :=
  PhotoSystem.mkTransform
    (lerp (PhotoSystem.position current) (PhotoSystem.position target) 0.05)
    (slerp (PhotoSystem.rotation current) (PhotoSystem.rotation target) 0.05)
    (lerp (PhotoSystem.scale current) (PhotoSystem.scale target) 0.05).

(** ** The particles of the explosion effect

    [ExplosionSystem] above keeps what the photo system observes.  This
    module follows the particle buffers of [ExplosionSystem.ts] as well.
    The three floats of a particle in [positions] and in [velocities] are
    one [Vec3] each; the stores into the [Float32Array]s are exact, as all
    numbers of the model.  The colours go to the mesh only.  [Math.random]
    is a stream: [Math_random k] is the value of call number [k], and
    [randomCalls] counts the calls made so far. *)

Module ExplosionParticles.

Record Particle : Type := mkParticle {
  position : Vec3;
  velocity : Vec3;
  life : Q
}.

Record t : Type := mk {
  active : bool;
  visible : bool;
  particles : list Particle;
  randomCalls : nat
}.

Definition particleCount : nat := 300.

Definition particleAt (es : t) (i : nat) : Particle :=
  nth i (particles es) (mkParticle (mkVec3 0 0 0) (mkVec3 0 0 0) 0).

(** The constructor: zeroed buffers, the mesh hidden. *)
Definition new : t :=
  {| active := false;
     visible := false;
     particles := repeat (mkParticle (mkVec3 0 0 0) (mkVec3 0 0 0) 0)
                         particleCount;
     randomCalls := 0 |}.

Section WithRandom.

Variable Math_random : nat -> Q.
Variable Math_sin : Q -> Q.
Variable Math_cos : Q -> Q.
Variable Math_acos : Q -> Q.
Variable Math_PI : Q.

(** The particle [resetParticle] writes when [Math.random] has been
    called [k] times: three calls for the position, one each for [theta],
    [phi] and [speed]. *)
Definition spawn (k : nat) : Particle :=
  let theta := Math_random (k + 3)%nat * Math_PI * 2 in
  let phi := Math_acos (2 * Math_random (k + 4)%nat - 1) in
  let speed := 0.5 + Math_random (k + 5)%nat * 2.0 in
  {| position := mkVec3 ((Math_random k - 0.5) * 2)
                        ((Math_random (k + 1)%nat - 0.5) * 2)
                        ((Math_random (k + 2)%nat - 0.5) * 2);
     velocity := mkVec3 (speed * Math_sin phi * Math_cos theta)
                        (speed * Math_sin phi * Math_sin theta)
                        (speed * Math_cos phi);
     life := 1.0 |}.

(** [resetParticle]; the seventh call of [Math.random] picks the hue. *)
Definition resetParticle (es : t) (i : nat) (force : bool) : t :=
  if negb force && Qgtb (life (particleAt es i)) 0 then es
  else
    {| active := active es;
       visible := visible es;
       particles := set_nth i (spawn (randomCalls es)) (particles es);
       randomCalls := (randomCalls es + 7)%nat |}.

Definition explode (es : t) : t :=
  fold_left (fun es i => resetParticle es i true) (seq 0 particleCount)
            {| active := true;
               visible := true;
               particles := particles es;
               randomCalls := randomCalls es |}.

(** The physics of a live particle, [r] being the value of
    [Math.random()]. *)
Definition advance (r : Q) (p : Particle) : Particle :=
  {| position := mkVec3 (v3x (position p) + v3x (velocity p))
                        (v3y (position p) + v3y (velocity p))
                        (v3z (position p) + v3z (velocity p));
     velocity := mkVec3 (v3x (velocity p) * 0.95)
                        (v3y (velocity p) * 0.95)
                        (v3z (velocity p) * 0.95);
     life := life p - (0.01 + r * 0.01) |}.

(** The body of the loop of [update]. *)
Definition updateParticle (es : t) (i : nat) : t :=
  if Qgtb (life (particleAt es i)) 0 then
    {| active := active es;
       visible := visible es;
       particles := set_nth i (advance (Math_random (randomCalls es))
                                       (particleAt es i))
                            (particles es);
       randomCalls := (randomCalls es + 1)%nat |}
  else resetParticle es i true.

Definition update (es : t) : t :=
  if negb (active es) then es
  else fold_left updateParticle (seq 0 particleCount) es.

(** The calls the photo system makes. *)
Inductive Call : Type := Explode | Update.

Definition call (es : t) (c : Call) : t :=
  match c with
  | Explode => explode es
  | Update => update es
  end.

Definition run (es : t) (calls : list Call) : t := fold_left call calls es.

End WithRandom.

End ExplosionParticles.

(** [Math.random] returns numbers from 0 inclusive to 1 exclusive. *)
Definition unit_random (Math_random : nat -> Q) : Prop :=
  forall k, 0 <= Math_random k /\ Math_random k < 1.

(** Every life is at most 1 and above -0.02, and there are
    [particleCount] particles. *)
Definition lives_inv (es : ExplosionParticles.t) : Prop :=
  List.length (ExplosionParticles.particles es)
  = ExplosionParticles.particleCount
  /\ Forall (fun p => -0.02 < ExplosionParticles.life p
                      /\ ExplosionParticles.life p <= 1)
            (ExplosionParticles.particles es).

(** A stream of random numbers for the examples. *)
Definition sampleRandom (k : nat) : Q := inject_Z (Z.of_nat (k mod 10)) / 10.

(** ** The getters of [VisionManager] *)

Module VisionGetters.

Definition isHandDetected (vm : VisionManager.t) : bool :=
  detected (VisionManager.rightHand vm) || detected (VisionManager.leftHand vm).

Definition cursorPosition (vm : VisionManager.t) : Vec2 :=
  if detected (VisionManager.rightHand vm)
  then cursor (VisionManager.rightHand vm)
  else cursor (VisionManager.leftHand vm).

Definition handRotationSpeed (vm : VisionManager.t) : Vec2 :=
  rotationSpeed (VisionManager.rightHand vm).

Definition gesture (vm : VisionManager.t) : Gesture :=
  gesture (VisionManager.rightHand vm).

Definition pinchDistance (vm : VisionManager.t) : Q :=
  if detected (VisionManager.leftHand vm)
  then pinchDistance (VisionManager.leftHand vm)
  else 0.

End VisionGetters.

(** * Properties *)

(** ** Comparisons and clamping *)

Lemma Qltb_true (a b : Q) : Qltb a b = true <-> a < b.
Proof.
  unfold Qltb. rewrite negb_true_iff, <- not_true_iff_false, Qle_bool_iff.
  split; intro H; [apply Qnot_le_lt | apply Qlt_not_le]; exact H.
Qed.

Lemma Qltb_false (a b : Q) : Qltb a b = false <-> b <= a.
Proof.
  unfold Qltb. rewrite negb_false_iff. apply Qle_bool_iff.
Qed.

Lemma Qle_bool_false (a b : Q) : Qle_bool a b = false <-> b < a.
Proof.
  rewrite <- not_true_iff_false, Qle_bool_iff.
  split; intro H; [apply Qnot_le_lt | apply Qlt_not_le]; exact H.
Qed.

(** Case analysis on every comparison of the goal, with the outcome as an
    inequality among the hypotheses. *)
Ltac no_comparison t :=
  lazymatch t with
  | context [Qle_bool _ _] => fail
  | _ => idtac
  end.

Ltac split_comparisons :=
  repeat match goal with
         | |- context [Qle_bool ?a ?b] =>
             no_comparison a; no_comparison b;
             let E := fresh "E" in
             destruct (Qle_bool a b) eqn:E;
             [apply Qle_bool_iff in E | apply Qle_bool_false in E]
         end.

Lemma Math_min_max_in01 (x : Q) : in01 (Math_min (Math_max x 0) 1).
Proof.
  unfold in01, Math_min, Math_max. split_comparisons; lra.
Qed.

Lemma Math_max_min_in01 (x : Q) : in01 (Math_max 0 (Math_min 1 x)).
Proof.
  unfold in01, Math_min, Math_max. split_comparisons; lra.
Qed.

Lemma Math_max_min_compat (x y : Q) :
  x == y -> Math_max 0 (Math_min 1 x) == Math_max 0 (Math_min 1 y).
Proof.
  intro H. unfold Math_min, Math_max. split_comparisons; lra.
Qed.

Lemma Math_max_min_zero (x : Q) : Math_max 0 (Math_min 1 x) == 0 <-> x <= 0.
Proof.
  unfold Math_min, Math_max. split_comparisons; split; intros; lra.
Qed.

(** ** The gesture classifier *)

Lemma Gesture_eqb_eq (a b : Gesture) : Gesture_eqb a b = true <-> a = b.
Proof. destruct a, b; simpl; split; congruence. Qed.

Lemma LayoutState_eqb_eq (a b : LayoutState) :
  LayoutState_eqb a b = true <-> a = b.
Proof. destruct a, b; simpl; split; congruence. Qed.

Lemma classifyPinch_gesture (now : Q) (h : HandData) :
  let g := gesture (VisionManager.classifyPinch now h) in
  g = NONE \/ isPinchEvent g = true.
Proof.
  unfold VisionManager.classifyPinch.
  destruct (Qltb (pinchDistance h) 0.1 && negb (isPinching h)).
  - simpl. destruct (Qltb (now - lastPinchTime h) 400); auto.
  - destruct (negb (Qltb (pinchDistance h) 0.1) && isPinching h); simpl; auto.
Qed.

Lemma classifyFist_closed (closed : nat) (h : HandData) :
  (3 <= closed)%nat ->
  VisionManager.classifyFist closed h = VisionManager.setGesture FIST h.
Proof.
  intro H. unfold VisionManager.classifyFist.
  apply Nat.leb_le in H. rewrite H. reflexivity.
Qed.

Lemma classifyFist_open (closed : nat) (h : HandData) :
  (closed < 3)%nat -> VisionManager.classifyFist closed h = h.
Proof.
  intro H. unfold VisionManager.classifyFist.
  apply Nat.leb_gt in H. rewrite H. reflexivity.
Qed.

Lemma classifySwipe_keeps (closed : nat) (now : Q) (h : HandData) :
  gesture h <> NONE -> VisionManager.classifySwipe closed now h = h.
Proof.
  intro H. unfold VisionManager.classifySwipe.
  destruct (Gesture_eqb (gesture h) NONE) eqn:E.
  - apply Gesture_eqb_eq in E. contradiction.
  - reflexivity.
Qed.

Lemma classifySwipe_detected (closed : nat) (now : Q) (h : HandData) :
  detected (VisionManager.classifySwipe closed now h) = detected h.
Proof.
  unfold VisionManager.classifySwipe.
  repeat match goal with |- context [if ?c then _ else _] => destruct c end;
    reflexivity.
Qed.

Lemma classifyFist_detected (closed : nat) (h : HandData) :
  detected (VisionManager.classifyFist closed h) = detected h.
Proof.
  unfold VisionManager.classifyFist. destruct (3 <=? closed)%nat; reflexivity.
Qed.

Lemma classifyPinch_detected (now : Q) (h : HandData) :
  detected (VisionManager.classifyPinch now h) = detected h.
Proof.
  unfold VisionManager.classifyPinch.
  repeat match goal with |- context [if ?c then _ else _] => destruct c end;
    reflexivity.
Qed.

Section HandFacts.

Variable Math_sqrt : Q -> Q.

Local Abbreviation updateKinematics := (VisionManager.updateKinematics Math_sqrt).
Local Abbreviation updateHandData := (VisionManager.updateHandData Math_sqrt).
Local Abbreviation closedFingers := (VisionManager.closedFingers Math_sqrt).

Lemma updateHandData_detected (h : HandData) (lm : Landmarks) (now : Q) :
  detected (updateHandData h lm now) = detected h.
Proof.
  unfold VisionManager.updateHandData.
  rewrite classifySwipe_detected, classifyFist_detected,
    classifyPinch_detected.
  reflexivity.
Qed.

(** A closed hand always ends the call as [FIST]. *)
Lemma updateHandData_fist (h : HandData) (lm : Landmarks) (now : Q) :
  (3 <= closedFingers lm)%nat -> gesture (updateHandData h lm now) = FIST.
Proof.
  intro H. unfold VisionManager.updateHandData.
  rewrite (classifyFist_closed _ _ H).
  rewrite classifySwipe_keeps; simpl; congruence.
Qed.

(** With fewer than three closed fingers a pinch event is not replaced. *)
Lemma updateHandData_pinch (h : HandData) (lm : Landmarks) (now : Q) :
  (closedFingers lm < 3)%nat ->
  isPinchEvent
    (gesture (VisionManager.classifyPinch now (updateKinematics h lm))) = true ->
  updateHandData h lm now
  = VisionManager.classifyPinch now (updateKinematics h lm).
Proof.
  intros Hopen Hev. unfold VisionManager.updateHandData.
  rewrite (classifyFist_open _ _ Hopen).
  apply classifySwipe_keeps. intro E. rewrite E in Hev. discriminate.
Qed.

(** C1, as amended.  When the pinch stage of [updateHandData] produces
    PINCH_START, DOUBLE_PINCH or PINCH_END, that event is the final
    gesture of the call if fewer than three fingertips are closed; the
    fist test runs on every call, and with three or more closed
    fingertips the final gesture is FIST, replacing the pinch event. *)
Theorem C1_pinch_event_unless_fist (h : HandData) (lm : Landmarks) (now : Q) :
  let pinched := VisionManager.classifyPinch now (updateKinematics h lm) in
  isPinchEvent (gesture pinched) = true ->
  ((closedFingers lm < 3)%nat ->
   gesture (updateHandData h lm now) = gesture pinched)
  /\ ((3 <= closedFingers lm)%nat ->
      gesture (updateHandData h lm now) = FIST).
Proof.
  intros pinched Hev. split; intro Hc.
  - rewrite (updateHandData_pinch _ _ _ Hc Hev). reflexivity.
  - apply updateHandData_fist. exact Hc.
Qed.

End HandFacts.

(** C1, as stated, fails.  A hand seen for the first time with thumb tip on
    index tip and all fingertips on the wrist: the pinch stage sets
    PINCH_START, and the call ends with FIST. *)
Lemma C1_counterexample :
  let h := VisionManager.setDetected true VisionManager.createEmptyHandData in
  let lm := Sample.closedHand (mkVec3 0.5 0.5 0) in
  let pinched :=
    VisionManager.classifyPinch 1000
      (VisionManager.updateKinematics Sample.sqrt h lm) in
  gesture pinched = PINCH_START
  /\ isPinching pinched = true
  /\ gesture (Sample.updateHandData h lm 1000) = FIST
  /\ gesture (Sample.updateHandData h lm 1000) <> gesture pinched.
Proof.
  vm_compute. repeat split; congruence.
Qed.

(** The theorem on a first pinch made with open fingers. *)
Lemma C1_witness :
  let h := VisionManager.setDetected true VisionManager.createEmptyHandData in
  let lm := Sample.pinchingHand (mkVec3 0.5 0.5 0) in
  let pinched :=
    VisionManager.classifyPinch 1000
      (VisionManager.updateKinematics Sample.sqrt h lm) in
  isPinchEvent (gesture pinched) = true
  /\ ((VisionManager.closedFingers Sample.sqrt lm < 3)%nat ->
      gesture (Sample.updateHandData h lm 1000) = gesture pinched)
  /\ ((3 <= VisionManager.closedFingers Sample.sqrt lm)%nat ->
      gesture (Sample.updateHandData h lm 1000) = FIST).
Proof.
  intros h lm pinched.
  assert (Hev : isPinchEvent (gesture pinched) = true) by (vm_compute; reflexivity).
  split; [exact Hev |].
  exact (C1_pinch_event_unless_fist Sample.sqrt h lm 1000 Hev).
Defined.

(** ** One frame of the vision manager *)

Section FrameFacts.

Variable Math_sqrt : Q -> Q.

Local Abbreviation updateHandData := (VisionManager.updateHandData Math_sqrt).
Local Abbreviation closedFingers := (VisionManager.closedFingers Math_sqrt).
Local Abbreviation applyDetection := (VisionManager.applyDetection Math_sqrt).
Local Abbreviation update := (VisionManager.update Math_sqrt).
Local Abbreviation calculateHandsDistance :=
  (VisionManager.calculateHandsDistance Math_sqrt).

Lemma applyDetection_same (vm : VisionManager.t) (d : Detection) :
  handOf (isRight d) (applyDetection vm d)
  = updateHandData (VisionManager.setDetected true (handOf (isRight d) vm))
                   (landmarks d) (nowMs d).
Proof.
  unfold VisionManager.applyDetection, handOf, isRight.
  destruct (String.eqb (categoryName d) "Right"); reflexivity.
Qed.

Lemma applyDetection_other (side : bool) (vm : VisionManager.t) (d : Detection) :
  isRight d <> side -> handOf side (applyDetection vm d) = handOf side vm.
Proof.
  unfold VisionManager.applyDetection, handOf, isRight.
  destruct (String.eqb (categoryName d) "Right"), side;
    intro H; try reflexivity; congruence.
Qed.

Lemma applyDetection_frame (vm : VisionManager.t) (d : Detection) :
  VisionManager.handsDistance (applyDetection vm d)
  = VisionManager.handsDistance vm
  /\ VisionManager.handsDetectedBoth (applyDetection vm d)
     = VisionManager.handsDetectedBoth vm
  /\ VisionManager.lastVideoTime (applyDetection vm d)
     = VisionManager.lastVideoTime vm.
Proof.
  unfold VisionManager.applyDetection.
  destruct (String.eqb (categoryName d) "Right"); auto.
Qed.

Lemma detections_frame (ds : list Detection) (vm : VisionManager.t) :
  VisionManager.handsDistance (fold_left applyDetection ds vm)
  = VisionManager.handsDistance vm
  /\ VisionManager.handsDetectedBoth (fold_left applyDetection ds vm)
     = VisionManager.handsDetectedBoth vm.
Proof.
  revert vm. induction ds as [|d ds IH]; intro vm; simpl.
  - auto.
  - destruct (IH (applyDetection vm d)) as [H1 H2].
    destruct (applyDetection_frame vm d) as (F1 & F2 & _).
    split; congruence.
Qed.

(** A slot no detection of the list is written to keeps its content. *)
Lemma detections_other (side : bool) (ds : list Detection) (vm : VisionManager.t) :
  Forall (fun d => isRight d <> side) ds ->
  handOf side (fold_left applyDetection ds vm) = handOf side vm.
Proof.
  intro H. revert vm. induction H as [|d ds Hd _ IH]; intro vm; simpl.
  - reflexivity.
  - rewrite IH. apply applyDetection_other. exact Hd.
Qed.

(** After the loop a slot holds what it held before, or the result of a
    call of [updateHandData] on a slot marked as detected. *)
Lemma detections_cases (side : bool) (ds : list Detection) (vm : VisionManager.t) :
  handOf side (fold_left applyDetection ds vm) = handOf side vm
  \/ exists h lm now,
       handOf side (fold_left applyDetection ds vm)
       = updateHandData (VisionManager.setDetected true h) lm now.
Proof.
  revert vm. induction ds as [|d ds IH]; intro vm; simpl.
  - left. reflexivity.
  - destruct (IH (applyDetection vm d)) as [E | E]; [| right; exact E].
    rewrite E. destruct (Bool.bool_dec (isRight d) side) as [S | S].
    + right. subst side. rewrite applyDetection_same. eauto.
    + left. apply applyDetection_other. exact S.
Qed.

Lemma detections_undetected (side : bool) (ds : list Detection)
      (vm : VisionManager.t) :
  detected (handOf side (fold_left applyDetection ds vm)) = false ->
  handOf side (fold_left applyDetection ds vm) = handOf side vm.
Proof.
  intro H. destruct (detections_cases side ds vm) as [E | (h & lm & now & E)].
  - exact E.
  - rewrite E in H. rewrite updateHandData_detected in H. discriminate.
Qed.

Lemma calculateHandsDistance_hands (side : bool) (vm : VisionManager.t) :
  handOf side (calculateHandsDistance vm) = handOf side vm.
Proof.
  unfold VisionManager.calculateHandsDistance, handOf.
  destruct (detected (VisionManager.leftHand vm)
            && detected (VisionManager.rightHand vm)), side; reflexivity.
Qed.

Lemma resetUndetected_hand (side : bool) (vm : VisionManager.t) :
  handOf side (VisionManager.resetUndetected vm)
  = if negb (detected (handOf side vm))
    then VisionManager.resetHand (handOf side vm) else handOf side vm.
Proof. destruct side; reflexivity. Qed.

Lemma beginFrame_hand (side : bool) (vm : VisionManager.t) (time : Q) :
  handOf side (VisionManager.beginFrame vm time)
  = VisionManager.setDetected false (handOf side vm).
Proof. destruct side; reflexivity. Qed.

Lemma update_processes (vm : VisionManager.t) (inp : VisionInput) :
  processes vm inp ->
  update vm inp
  = calculateHandsDistance
      (VisionManager.resetUndetected
         (fold_left applyDetection (detections inp)
                    (VisionManager.beginFrame vm (currentTime inp)))).
Proof.
  intros [H1 H2]. unfold VisionManager.update. rewrite H1, H2. reflexivity.
Qed.

Lemma update_cases (vm : VisionManager.t) (inp : VisionInput) :
  processes vm inp \/ update vm inp = vm.
Proof.
  unfold processes, VisionManager.update.
  destruct (trackerReady inp); simpl; [| right; reflexivity].
  destruct (Qeq_bool (currentTime inp) (VisionManager.lastVideoTime vm));
    simpl; auto.
Qed.

(** The slot of a processed frame, after the frame. *)
Lemma update_hand (side : bool) (vm : VisionManager.t) (inp : VisionInput) :
  processes vm inp ->
  let after_loop :=
    handOf side (fold_left applyDetection (detections inp)
                           (VisionManager.beginFrame vm (currentTime inp))) in
  handOf side (update vm inp)
  = if negb (detected after_loop)
    then VisionManager.resetHand after_loop else after_loop.
Proof.
  intro P. rewrite (update_processes _ _ P).
  rewrite calculateHandsDistance_hands, resetUndetected_hand. reflexivity.
Qed.

(** A slot that is undetected after a processed frame holds its previous
    content, passed through [resetHand]. *)
Lemma update_undetected (side : bool) (vm : VisionManager.t) (inp : VisionInput) :
  processes vm inp ->
  detected (handOf side (update vm inp)) = false ->
  handOf side (update vm inp)
  = VisionManager.resetHand (VisionManager.setDetected false (handOf side vm)).
Proof.
  intros P. rewrite (update_hand side _ _ P). cbv zeta.
  destruct (detected (handOf side (fold_left applyDetection (detections inp)
             (VisionManager.beginFrame vm (currentTime inp))))) eqn:D; simpl.
  - rewrite D. discriminate.
  - intros _. rewrite (detections_undetected _ _ _ D), beginFrame_hand.
    reflexivity.
Qed.

(** C10.  On every processed frame in which the last detection written to
    a hand slot has at least three of the four fingertips (index, middle,
    ring, pinky) closer than 0.15 to the wrist, that hand is detected and
    its gesture after the frame is FIST, whatever the earlier state of the
    hand and the clock: there is no debounce, and a held fist gives FIST on
    every such frame. *)
Theorem C10_fist_on_every_frame
        (vm : VisionManager.t) (inp : VisionInput)
        (pre post : list Detection) (d : Detection) :
  processes vm inp ->
  detections inp = pre ++ d :: post ->
  Forall (fun d' => isRight d' <> isRight d) post ->
  (3 <= closedFingers (landmarks d))%nat ->
  detected (handOf (isRight d) (update vm inp)) = true
  /\ gesture (handOf (isRight d) (update vm inp)) = FIST.
Proof.
  intros P Hds Hpost Hclosed.
  rewrite (update_hand _ _ _ P). cbv zeta.
  rewrite Hds, fold_left_app. simpl.
  rewrite (detections_other _ _ _ Hpost), applyDetection_same.
  rewrite updateHandData_detected. simpl.
  split.
  - apply updateHandData_detected.
  - apply updateHandData_fist. exact Hclosed.
Qed.

End FrameFacts.

(** The theorem on the first frame of a closed right hand. *)
Lemma C10_witness :
  let vm := VisionManager.new in
  let d := mkDetection "Right" (Sample.closedHand (mkVec3 0.5 0.5 0)) 1000 in
  let inp := Sample.frame 0 [d] in
  detected (VisionManager.rightHand (Sample.update vm inp)) = true
  /\ gesture (VisionManager.rightHand (Sample.update vm inp)) = FIST.
Proof.
  intros vm d inp.
  apply (C10_fist_on_every_frame Sample.sqrt vm inp [] [] d).
  - split; vm_compute; reflexivity.
  - reflexivity.
  - constructor.
  - vm_compute. lia.
Defined.

(** ** Invariants of the vision manager *)

Lemma Sample_sqrt_zero (q : Q) : q == 0 -> Sample.sqrt q == 0.
Proof.
  intro H. unfold Sample.sqrt.
  rewrite (Qred_complete _ _ H). reflexivity.
Qed.

Lemma Sample_sqrt_values :
  Sample.sqrt 0 == 0
  /\ Sample.sqrt (0.3 * 0.3 + 0 * 0 + 0 * 0) == 0.3
  /\ Sample.sqrt (0 ^ 2 + (-0.4) ^ 2) == 0.4
  /\ Sample.sqrt (1 * 1 + 0 * 0 + 0 * 0) == 1.
Proof. repeat split; reflexivity. Qed.

Lemma classifySwipe_pinch (closed : nat) (now : Q) (h : HandData) :
  pinchDistance (VisionManager.classifySwipe closed now h) = pinchDistance h
  /\ isPinching (VisionManager.classifySwipe closed now h) = isPinching h
  /\ (isPinchStart (gesture (VisionManager.classifySwipe closed now h)) = true ->
      isPinchStart (gesture h) = true).
Proof.
  unfold VisionManager.classifySwipe.
  repeat match goal with |- context [if ?c then _ else _] => destruct c end;
    simpl; auto; repeat split; discriminate.
Qed.

Lemma classifyFist_pinch (closed : nat) (h : HandData) :
  pinchDistance (VisionManager.classifyFist closed h) = pinchDistance h
  /\ isPinching (VisionManager.classifyFist closed h) = isPinching h
  /\ (isPinchStart (gesture (VisionManager.classifyFist closed h)) = true ->
      isPinchStart (gesture h) = true).
Proof.
  unfold VisionManager.classifyFist.
  destruct (3 <=? closed)%nat; simpl; auto. repeat split. discriminate.
Qed.

Lemma classifyPinch_pinch (now : Q) (h : HandData) :
  pinchDistance (VisionManager.classifyPinch now h) = pinchDistance h
  /\ (isPinchStart (gesture (VisionManager.classifyPinch now h)) = true ->
      isPinching (VisionManager.classifyPinch now h) = true).
Proof.
  unfold VisionManager.classifyPinch.
  repeat match goal with |- context [if ?c then _ else _] => destruct c end;
    simpl; auto; split; auto; discriminate.
Qed.

Section VisionInvariant.

Variable Math_sqrt : Q -> Q.

Local Abbreviation updateHandData := (VisionManager.updateHandData Math_sqrt).
Local Abbreviation applyDetection := (VisionManager.applyDetection Math_sqrt).
Local Abbreviation update := (VisionManager.update Math_sqrt).
Local Abbreviation run := (VisionManager.run Math_sqrt).
Local Abbreviation calculateHandsDistance :=
  (VisionManager.calculateHandsDistance Math_sqrt).

Lemma updateHandData_inv (h : HandData) (lm : Landmarks) (now : Q) :
  detected h = true -> hand_inv (updateHandData h lm now).
Proof.
  intro D. unfold hand_inv, VisionManager.updateHandData.
  destruct (classifySwipe_pinch (VisionManager.closedFingers Math_sqrt lm) now
    (VisionManager.classifyFist (VisionManager.closedFingers Math_sqrt lm)
       (VisionManager.classifyPinch now
          (VisionManager.updateKinematics Math_sqrt h lm)))) as (S1 & S2 & S3).
  destruct (classifyFist_pinch (VisionManager.closedFingers Math_sqrt lm)
    (VisionManager.classifyPinch now
       (VisionManager.updateKinematics Math_sqrt h lm))) as (F1 & F2 & F3).
  destruct (classifyPinch_pinch now
    (VisionManager.updateKinematics Math_sqrt h lm)) as (P1 & P2).
  repeat split.
  - rewrite S1, F1, P1. apply Math_min_max_in01.
  - rewrite S1, F1, P1. apply Math_min_max_in01.
  - intro G. rewrite S2, F2. auto.
  - rewrite classifySwipe_detected, classifyFist_detected,
      classifyPinch_detected in H. simpl in H. congruence.
  - rewrite classifySwipe_detected, classifyFist_detected,
      classifyPinch_detected in H. simpl in H. congruence.
  - rewrite classifySwipe_detected, classifyFist_detected,
      classifyPinch_detected in H. simpl in H. congruence.
Qed.

Lemma resetHand_inv (h : HandData) :
  (isPinchStart (gesture h) = true -> isPinching h = true) ->
  hand_inv (VisionManager.resetHand h).
Proof.
  intro H. unfold hand_inv, cleared, in01. simpl.
  repeat split; auto; lra.
Qed.

Lemma update_hand_inv (side : bool) (vm : VisionManager.t) (inp : VisionInput) :
  hand_inv (handOf side vm) -> hand_inv (handOf side (update vm inp)).
Proof.
  intro I. destruct (update_cases Math_sqrt vm inp) as [P | E];
    [| rewrite E; exact I].
  rewrite (update_hand _ _ _ _ P). cbv zeta.
  destruct (detections_cases Math_sqrt side (detections inp)
              (VisionManager.beginFrame vm (currentTime inp)))
    as [E | (h & lm & now & E)]; rewrite E.
  - rewrite beginFrame_hand. simpl.
    apply resetHand_inv. simpl. apply I.
  - rewrite updateHandData_detected. simpl.
    apply updateHandData_inv. reflexivity.
Qed.

Lemma calculateHandsDistance_spec (vm : VisionManager.t) :
  VisionManager.handsDetectedBoth (calculateHandsDistance vm)
  = detected (VisionManager.leftHand vm) && detected (VisionManager.rightHand vm)
  /\ (detected (VisionManager.leftHand vm)
      && detected (VisionManager.rightHand vm) = false ->
      VisionManager.handsDistance (calculateHandsDistance vm)
      = VisionManager.handsDistance vm)
  /\ (in01 (VisionManager.handsDistance vm) ->
      in01 (VisionManager.handsDistance (calculateHandsDistance vm))).
Proof.
  unfold VisionManager.calculateHandsDistance.
  destruct (detected (VisionManager.leftHand vm)
            && detected (VisionManager.rightHand vm)); simpl.
  - split; [reflexivity |]. split; [discriminate |].
    intros _. apply Math_max_min_in01.
  - auto.
Qed.

(** The distance a processed frame starts from is the one of the manager. *)
Lemma update_distance_before (vm : VisionManager.t) (inp : VisionInput) :
  VisionManager.handsDistance
    (VisionManager.resetUndetected
       (fold_left applyDetection (detections inp)
                  (VisionManager.beginFrame vm (currentTime inp))))
  = VisionManager.handsDistance vm.
Proof.
  simpl.
  destruct (detections_frame Math_sqrt (detections inp)
              (VisionManager.beginFrame vm (currentTime inp))) as [H _].
  rewrite H. reflexivity.
Qed.

Lemma update_inv (vm : VisionManager.t) (inp : VisionInput) :
  vision_inv vm -> vision_inv (update vm inp).
Proof.
  intros (IL & IR & ID & IB).
  split; [exact (update_hand_inv false vm inp IL) |].
  split; [exact (update_hand_inv true vm inp IR) |].
  destruct (update_cases Math_sqrt vm inp) as [P | E];
    [| rewrite E; split; assumption].
  rewrite (update_processes _ _ _ P).
  set (vm3 := VisionManager.resetUndetected _).
  destruct (calculateHandsDistance_spec vm3) as (B & _ & D).
  split.
  - apply D. unfold vm3. rewrite update_distance_before. exact ID.
  - rewrite B.
    change (VisionManager.leftHand (calculateHandsDistance vm3))
      with (handOf false (calculateHandsDistance vm3)).
    change (VisionManager.rightHand (calculateHandsDistance vm3))
      with (handOf true (calculateHandsDistance vm3)).
    rewrite !calculateHandsDistance_hands. reflexivity.
Qed.

Lemma new_inv : vision_inv VisionManager.new.
Proof.
  unfold vision_inv, hand_inv, cleared, in01. simpl.
  repeat split; auto; try discriminate; lra.
Qed.

Lemma run_inv (inps : list VisionInput) (vm : VisionManager.t) :
  vision_inv vm -> vision_inv (run vm inps).
Proof.
  revert vm. induction inps as [|inp inps IH]; intros vm I; simpl.
  - exact I.
  - apply IH, update_inv, I.
Qed.

(** C3, as amended.  After every call of [update] that leaves a hand slot
    undetected, the velocity, rotation speed and pinch distance of that
    hand are 0, and its gesture, position, cursor, [lastPinchTime],
    [lastGestureTime], [isPinching] and [lastPosition] are those it had
    before the call. *)
Theorem C3_undetected_hand_is_cleared
        (inps : list VisionInput) (inp : VisionInput) (side : bool) :
  let vm := run VisionManager.new inps in
  let h := handOf side vm in
  let h' := handOf side (update vm inp) in
  detected h' = false ->
  velocity h' = mkVec2 0 0
  /\ rotationSpeed h' = mkVec2 0 0
  /\ pinchDistance h' = 0
  /\ gesture h' = gesture h
  /\ position h' = position h
  /\ cursor h' = cursor h
  /\ lastPinchTime h' = lastPinchTime h
  /\ lastGestureTime h' = lastGestureTime h
  /\ isPinching h' = isPinching h
  /\ lastPosition h' = lastPosition h.
Proof.
  intros vm h h' D. subst h h'.
  destruct (update_cases Math_sqrt vm inp) as [P | E].
  - rewrite (update_undetected _ _ _ _ P D). simpl. repeat split.
  - rewrite E in *.
    assert (I : hand_inv (handOf side vm)).
    { pose proof (run_inv inps _ new_inv) as (IL & IR & _).
      destruct side; assumption. }
    destruct I as (_ & _ & C). destruct (C D) as (C1 & C2 & C3).
    repeat split; assumption.
Qed.

(** C7.  After every call of [update] that leaves at least one of the two
    hands undetected, [handsDistance] is the value it had before the call
    and [handsDetectedBoth] is false. *)
Theorem C7_distance_frozen_on_partial_loss
        (inps : list VisionInput) (inp : VisionInput) :
  let vm := run VisionManager.new inps in
  let vm' := update vm inp in
  detected (VisionManager.leftHand vm')
  && detected (VisionManager.rightHand vm') = false ->
  VisionManager.handsDistance vm' = VisionManager.handsDistance vm
  /\ VisionManager.handsDetectedBoth vm' = false.
Proof.
  intros vm vm' D. subst vm'.
  destruct (update_cases Math_sqrt vm inp) as [P | E].
  - rewrite (update_processes _ _ _ P) in *.
    set (vm3 := VisionManager.resetUndetected _) in *.
    change (VisionManager.leftHand (calculateHandsDistance vm3))
      with (handOf false (calculateHandsDistance vm3)) in D.
    change (VisionManager.rightHand (calculateHandsDistance vm3))
      with (handOf true (calculateHandsDistance vm3)) in D.
    rewrite !calculateHandsDistance_hands in D. simpl in D.
    destruct (calculateHandsDistance_spec vm3) as (B & F & _).
    split.
    + rewrite (F D). apply update_distance_before.
    + rewrite B. exact D.
  - rewrite E in *. split; [reflexivity |].
    pose proof (run_inv inps _ new_inv) as (_ & _ & _ & B).
    fold vm in B. rewrite B. exact D.
Qed.

End VisionInvariant.

(** C3, as stated, fails on the gesture.  The right hand starts a pinch in
    one frame and is absent from the next: after the second frame it is
    undetected and its gesture is still PINCH_START. *)
Lemma C3_counterexample :
  let f1 := Sample.frame 0
              [mkDetection "Right" (Sample.pinchingHand (mkVec3 0.5 0.5 0)) 1000] in
  let f2 := Sample.frame 1 [] in
  let vm2 := Sample.update (Sample.update VisionManager.new f1) f2 in
  detected (VisionManager.rightHand vm2) = false
  /\ gesture (VisionManager.rightHand vm2) = PINCH_START
  /\ gesture (VisionManager.rightHand vm2) <> NONE.
Proof.
  vm_compute. repeat split; congruence.
Qed.

(** The theorem on the two frames of the example above. *)
Lemma C3_witness :
  let f1 := Sample.frame 0
              [mkDetection "Right" (Sample.pinchingHand (mkVec3 0.5 0.5 0)) 1000] in
  let f2 := Sample.frame 1 [] in
  let vm := VisionManager.run Sample.sqrt VisionManager.new [f1] in
  let h := handOf true vm in
  let h' := handOf true (Sample.update vm f2) in
  detected h' = false
  /\ velocity h' = mkVec2 0 0
  /\ rotationSpeed h' = mkVec2 0 0
  /\ pinchDistance h' = 0
  /\ gesture h' = gesture h
  /\ position h' = position h
  /\ cursor h' = cursor h
  /\ lastPinchTime h' = lastPinchTime h
  /\ lastGestureTime h' = lastGestureTime h
  /\ isPinching h' = isPinching h
  /\ lastPosition h' = lastPosition h.
Proof.
  intros f1 f2 vm h h'.
  assert (D : detected h' = false) by (vm_compute; reflexivity).
  split; [exact D |].
  exact (C3_undetected_hand_is_cleared Sample.sqrt [f1] f2 true D).
Defined.

(** The theorem on a frame that shows both hands followed by a frame that
    shows the left hand only. *)
Lemma C7_witness :
  let f1 := Sample.frame 0
              [mkDetection "Left" (Sample.closedHand (mkVec3 0 0.5 0)) 1000;
               mkDetection "Right" (Sample.closedHand (mkVec3 1 0.5 0)) 1000] in
  let f2 := Sample.frame 1
              [mkDetection "Left" (Sample.closedHand (mkVec3 0.5 0.5 0)) 1100] in
  let vm := VisionManager.run Sample.sqrt VisionManager.new [f1] in
  let vm' := Sample.update vm f2 in
  detected (VisionManager.leftHand vm')
  && detected (VisionManager.rightHand vm') = false
  /\ VisionManager.handsDistance vm' = VisionManager.handsDistance vm
  /\ VisionManager.handsDetectedBoth vm' = false.
Proof.
  intros f1 f2 vm vm'.
  assert (D : detected (VisionManager.leftHand vm')
              && detected (VisionManager.rightHand vm') = false)
    by (vm_compute; reflexivity).
  split; [exact D |].
  exact (C7_distance_frozen_on_partial_loss Sample.sqrt [f1] f2 D).
Defined.

(** ** The distance between the hands *)

Section HandsDistance.

Variable Math_sqrt : Q -> Q.
Hypothesis Math_sqrt_zero : forall q : Q, q == 0 -> Math_sqrt q == 0.

Local Abbreviation update := (VisionManager.update Math_sqrt).
Local Abbreviation calculateHandsDistance :=
  (VisionManager.calculateHandsDistance Math_sqrt).

Lemma calculateHandsDistance_equal_positions (vm : VisionManager.t) :
  detected (VisionManager.leftHand vm) = true ->
  detected (VisionManager.rightHand vm) = true ->
  Vec3_eq (position (VisionManager.leftHand vm))
          (position (VisionManager.rightHand vm)) ->
  VisionManager.handsDistance (calculateHandsDistance vm)
  == Math_max 0 (Math_min 1
       ((VisionManager.handsDistance vm * (1 - 0.3) - 0.15) / (0.8 - 0.15))).
Proof.
  intros DL DR (Ex & Ey & Ez). unfold VisionManager.calculateHandsDistance.
  rewrite DL, DR. cbn [andb]. cbv zeta. cbn [VisionManager.handsDistance].
  apply Math_max_min_compat.
  set (p := position (VisionManager.leftHand vm)) in *.
  set (q := position (VisionManager.rightHand vm)) in *.
  rewrite (Math_sqrt_zero
             ((v3x p - v3x q) * (v3x p - v3x q)
              + (v3y p - v3y q) * (v3y p - v3y q)
              + (v3z p - v3z q) * (v3z p - v3z q)))
    by (rewrite Ex, Ey, Ez; ring).
  field.
Qed.

(** C4, as amended.  On every processed frame after which both hands are
    detected at equal positions (the coordinates are equal as numbers),
    [handsDistance] becomes the clamped remap of 0.7 times its previous
    value, [clamp ((0.7 * previous - 0.15) / 0.65)]; it is 0 exactly when
    0.7 times the previous value is at most 0.15. *)
Theorem C4_equal_positions_shrink_distance
        (vm : VisionManager.t) (inp : VisionInput) :
  let vm' := update vm inp in
  processes vm inp ->
  detected (VisionManager.leftHand vm') = true ->
  detected (VisionManager.rightHand vm') = true ->
  Vec3_eq (position (VisionManager.leftHand vm'))
          (position (VisionManager.rightHand vm')) ->
  VisionManager.handsDistance vm'
  == Math_max 0 (Math_min 1
       ((VisionManager.handsDistance vm * (1 - 0.3) - 0.15) / (0.8 - 0.15)))
  /\ (VisionManager.handsDistance vm' == 0
      <-> VisionManager.handsDistance vm * 0.7 <= 0.15).
Proof.
  intros vm' P DL DR E. subst vm'.
  rewrite (update_processes _ _ _ P) in *.
  set (vm3 := VisionManager.resetUndetected _) in *.
  change (VisionManager.leftHand (calculateHandsDistance vm3))
    with (handOf false (calculateHandsDistance vm3)) in *.
  change (VisionManager.rightHand (calculateHandsDistance vm3))
    with (handOf true (calculateHandsDistance vm3)) in *.
  rewrite !calculateHandsDistance_hands in *. simpl in DL, DR, E.
  pose proof (calculateHandsDistance_equal_positions vm3 DL DR E) as H.
  unfold vm3 in H at 2. rewrite update_distance_before in H.
  split; [exact H |].
  rewrite H, Math_max_min_zero.
  assert (F : (VisionManager.handsDistance vm * (1 - 0.3) - 0.15) / (0.8 - 0.15)
              == (VisionManager.handsDistance vm * 0.7 - 0.15) * (100 # 65))
    by field.
  rewrite F. split; intro; lra.
Qed.

End HandsDistance.

(** C4, as stated, fails.  The hands are first seen one unit apart, which
    brings [handsDistance] to 3/13; in the next frame they are at the same
    position and [handsDistance] becomes 3/169, not 0. *)
Lemma C4_counterexample :
  let f1 := Sample.frame 0
              [mkDetection "Left" (Sample.closedHand (mkVec3 0 0.5 0)) 1000;
               mkDetection "Right" (Sample.closedHand (mkVec3 1 0.5 0)) 1000] in
  let f2 := Sample.frame 1
              [mkDetection "Left" (Sample.closedHand (mkVec3 0.5 0.5 0)) 1100;
               mkDetection "Right" (Sample.closedHand (mkVec3 0.5 0.5 0)) 1100] in
  let vm1 := Sample.update VisionManager.new f1 in
  let vm2 := Sample.update vm1 f2 in
  detected (VisionManager.leftHand vm2) = true
  /\ detected (VisionManager.rightHand vm2) = true
  /\ position (VisionManager.leftHand vm2) = position (VisionManager.rightHand vm2)
  /\ VisionManager.handsDistance vm1 == 3 # 13
  /\ VisionManager.handsDistance vm2 == 3 # 169
  /\ ~ VisionManager.handsDistance vm2 == 0.
Proof.
  vm_compute. repeat split; discriminate.
Qed.

(** The theorem on a first frame that shows both hands at one position,
    written with different fractions for the two hands. *)
Lemma C4_witness :
  let f := Sample.frame 0
             [mkDetection "Left" (Sample.closedHand (mkVec3 0.5 0.5 0)) 1000;
              mkDetection "Right"
                (Sample.closedHand (mkVec3 (1 # 2) (2 # 4) 0)) 1000] in
  let vm := VisionManager.new in
  let vm' := Sample.update vm f in
  (forall q : Q, q == 0 -> Sample.sqrt q == 0)
  /\ processes vm f
  /\ detected (VisionManager.leftHand vm') = true
  /\ detected (VisionManager.rightHand vm') = true
  /\ Vec3_eq (position (VisionManager.leftHand vm'))
             (position (VisionManager.rightHand vm'))
  /\ position (VisionManager.leftHand vm')
     <> position (VisionManager.rightHand vm')
  /\ VisionManager.handsDistance vm'
     == Math_max 0 (Math_min 1
          ((VisionManager.handsDistance vm * (1 - 0.3) - 0.15) / (0.8 - 0.15)))
  /\ (VisionManager.handsDistance vm' == 0
      <-> VisionManager.handsDistance vm * 0.7 <= 0.15).
Proof.
  intros f vm vm'.
  assert (P : processes vm f) by (split; vm_compute; reflexivity).
  assert (DL : detected (VisionManager.leftHand vm') = true)
    by (vm_compute; reflexivity).
  assert (DR : detected (VisionManager.rightHand vm') = true)
    by (vm_compute; reflexivity).
  assert (E : Vec3_eq (position (VisionManager.leftHand vm'))
                      (position (VisionManager.rightHand vm')))
    by (vm_compute; repeat split; reflexivity).
  assert (N : position (VisionManager.leftHand vm')
              <> position (VisionManager.rightHand vm'))
    by (vm_compute; discriminate).
  repeat (split; [assumption || exact Sample_sqrt_zero |]).
  exact (C4_equal_positions_shrink_distance
           Sample.sqrt Sample_sqrt_zero vm f P DL DR E).
Defined.

(** ** The layout machine *)

Lemma fold_left_invariant {A B : Type} (f : A -> B -> A) (P : A -> Prop) :
  (forall a b, P a -> P (f a b)) ->
  forall (l : list B) (a : A), P a -> P (fold_left f l a).
Proof.
  intros Hf l. induction l as [|b l IH]; intros a Ha; simpl.
  - exact Ha.
  - apply IH, Hf, Ha.
Qed.

Lemma set_nth_length {A : Type} (i : nat) (v : A) (l : list A) :
  List.length (set_nth i v l) = List.length l.
Proof.
  revert i. induction l as [|a l IH]; intros [|i]; simpl; auto.
Qed.

Lemma set_nth_Forall {A : Type} (P : A -> Prop) (i : nat) (v : A) (l : list A) :
  P v -> Forall P l -> Forall P (set_nth i v l).
Proof.
  intros Hv Hl. revert i.
  induction Hl as [|a l Ha Hl IH]; intros [|i]; simpl; auto.
Qed.

Lemma nth_Forall {A : Type} (P : A -> Prop) (i : nat) (l : list A) (d : A) :
  P d -> Forall P l -> P (nth i l d).
Proof.
  intros Hd Hl. revert i.
  induction Hl as [|a l Ha Hl IH]; intros [|i]; simpl; auto.
Qed.

Lemma arrays_only_refl (ps : PhotoSystem.t) : arrays_only ps ps.
Proof.
  exists (PhotoSystem.targetTransforms ps), (PhotoSystem.currentTransforms ps),
    (PhotoSystem.hoverIntensities ps).
  destruct ps; simpl; auto.
Qed.

Lemma arrays_only_trans (a b c : PhotoSystem.t) :
  arrays_only a b -> arrays_only b c -> arrays_only a c.
Proof.
  intros (t1 & c1 & h1 & E1 & Lt1 & Lc1 & Lh1 & F1)
         (t2 & c2 & h2 & E2 & Lt2 & Lc2 & Lh2 & F2).
  subst b. simpl in *.
  exists t2, c2, h2. subst c. unfold withArrays. simpl.
  repeat split; try congruence. auto.
Qed.

Lemma fold_left_preorder {A B : Type} (R : A -> A -> Prop) (f : A -> B -> A) :
  (forall a, R a a) ->
  (forall a b c, R a b -> R b c -> R a c) ->
  (forall a b, R a (f a b)) ->
  forall (l : list B) (a : A), R a (fold_left f l a).
Proof.
  intros Hrefl Htrans Hf l. induction l as [|b l IH]; intro a; simpl.
  - apply Hrefl.
  - eapply Htrans; [apply Hf | apply IH].
Qed.

Lemma targets_only_refl (ps : PhotoSystem.t) : targets_only ps ps.
Proof.
  exists (PhotoSystem.targetTransforms ps). destruct ps; simpl; auto.
Qed.

Lemma targets_only_trans (a b c : PhotoSystem.t) :
  targets_only a b -> targets_only b c -> targets_only a c.
Proof.
  intros (t1 & E1 & L1) (t2 & E2 & L2). subst b. simpl in *.
  exists t2. subst c. unfold PhotoSystem.setTargetTransforms. simpl.
  split; congruence.
Qed.

Lemma targets_only_arrays_only (a b : PhotoSystem.t) :
  targets_only a b -> arrays_only a b.
Proof.
  intros (t & E & L). subst b.
  exists t, (PhotoSystem.currentTransforms a), (PhotoSystem.hoverIntensities a).
  unfold withArrays, PhotoSystem.setTargetTransforms. auto.
Qed.

Lemma parkOthers_targets_only (index : nat) (ps : PhotoSystem.t) (i : nat) :
  targets_only ps (PhotoSystem.parkOthers index ps i).
Proof.
  unfold PhotoSystem.parkOthers. destruct (i =? index)%nat.
  - apply targets_only_refl.
  - eexists. split; [reflexivity | apply set_nth_length].
Qed.

(** [setDetailLayout] returns its argument, or enters DETAIL with the given
    index and new targets. *)
Lemma setDetailLayout_cases (ps : PhotoSystem.t) (index : Z) :
  PhotoSystem.setDetailLayout ps index = ps
  \/ targets_only (enterDetail index ps) (PhotoSystem.setDetailLayout ps index).
Proof.
  unfold PhotoSystem.setDetailLayout.
  destruct ((index <? 0) || (index >=? Z.of_nat (PhotoSystem.count ps)))%Z;
    [left; reflexivity | right].
  match goal with
  | |- targets_only _ (fold_left _ _ ?ps1) =>
      apply targets_only_trans with (b := ps1)
  end.
  - eexists. split; [reflexivity |]. simpl. apply set_nth_length.
  - apply (fold_left_preorder targets_only).
    + apply targets_only_refl.
    + apply targets_only_trans.
    + intros. apply parkOthers_targets_only.
Qed.

(** C8.  [setDetailLayout] with a negative index or an index that is at
    least the number of photos returns the photo system unchanged: the
    layout state, the selected index and every target transform are those
    of the argument. *)
Theorem C8_detail_out_of_range_is_noop (ps : PhotoSystem.t) (index : Z) :
  (index < 0 \/ index >= Z.of_nat (PhotoSystem.count ps))%Z ->
  PhotoSystem.setDetailLayout ps index = ps
  /\ PhotoSystem.state (PhotoSystem.setDetailLayout ps index)
     = PhotoSystem.state ps
  /\ PhotoSystem.selectedIndex (PhotoSystem.setDetailLayout ps index)
     = PhotoSystem.selectedIndex ps
  /\ PhotoSystem.targetTransforms (PhotoSystem.setDetailLayout ps index)
     = PhotoSystem.targetTransforms ps.
Proof.
  intro H.
  assert (E : PhotoSystem.setDetailLayout ps index = ps).
  { unfold PhotoSystem.setDetailLayout.
    replace ((index <? 0) || (index >=? Z.of_nat (PhotoSystem.count ps)))%Z
      with true; [reflexivity |].
    symmetry. apply orb_true_iff.
    destruct H as [H | H]; [left; apply Z.ltb_lt | right; apply Z.geb_le]; lia. }
  rewrite E. auto.
Qed.

(** The theorem on the initial photo system and the index 130. *)
Lemma C8_witness :
  let ps := PhotoSystem.new Sample.sqrt Sample.sin Sample.cos Sample.PI 130 in
  (130 < 0 \/ 130 >= Z.of_nat (PhotoSystem.count ps))%Z
  /\ PhotoSystem.setDetailLayout ps 130 = ps
  /\ PhotoSystem.state (PhotoSystem.setDetailLayout ps 130)
     = PhotoSystem.state ps
  /\ PhotoSystem.selectedIndex (PhotoSystem.setDetailLayout ps 130)
     = PhotoSystem.selectedIndex ps
  /\ PhotoSystem.targetTransforms (PhotoSystem.setDetailLayout ps 130)
     = PhotoSystem.targetTransforms ps.
Proof.
  intro ps.
  assert (H : (130 < 0 \/ 130 >= Z.of_nat (PhotoSystem.count ps))%Z)
    by (right; simpl; lia).
  split; [exact H |].
  exact (C8_detail_out_of_range_is_noop ps 130 H).
Defined.

Lemma arrays_only_fields (a b : PhotoSystem.t) :
  arrays_only a b ->
  PhotoSystem.count b = PhotoSystem.count a
  /\ PhotoSystem.state b = PhotoSystem.state a
  /\ PhotoSystem.explosionSystem b = PhotoSystem.explosionSystem a
  /\ PhotoSystem.selectedIndex b = PhotoSystem.selectedIndex a
  /\ PhotoSystem.hoveredIndex b = PhotoSystem.hoveredIndex a
  /\ PhotoSystem.sphereRotation b = PhotoSystem.sphereRotation a
  /\ PhotoSystem.sphereScale b = PhotoSystem.sphereScale a.
Proof.
  intros (t & c & h & E & _). subst b. simpl. auto 10.
Qed.

Lemma keeps_sphere_refl (ps : PhotoSystem.t) : keeps_sphere ps ps.
Proof. unfold keeps_sphere. auto 10. Qed.

Lemma setDetailLayout_keeps (ps : PhotoSystem.t) (index : Z) :
  keeps_sphere ps (PhotoSystem.setDetailLayout ps index).
Proof.
  destruct (setDetailLayout_cases ps index) as [E | (t & E & _)].
  - rewrite E. apply keeps_sphere_refl.
  - rewrite E. unfold keeps_sphere. simpl. auto 10.
Qed.

Lemma nextPhoto_keeps (ps : PhotoSystem.t) :
  keeps_sphere ps (PhotoSystem.nextPhoto ps).
Proof.
  unfold PhotoSystem.nextPhoto.
  destruct (negb (LayoutState_eqb (PhotoSystem.state ps) DETAIL)).
  - apply keeps_sphere_refl.
  - apply setDetailLayout_keeps.
Qed.

Lemma prevPhoto_keeps (ps : PhotoSystem.t) :
  keeps_sphere ps (PhotoSystem.prevPhoto ps).
Proof.
  unfold PhotoSystem.prevPhoto.
  destruct (negb (LayoutState_eqb (PhotoSystem.state ps) DETAIL)).
  - apply keeps_sphere_refl.
  - apply setDetailLayout_keeps.
Qed.

Lemma keeps_effects_refl (ps : PhotoSystem.t) : keeps_effects ps ps.
Proof. unfold keeps_effects. auto. Qed.

Lemma keeps_effects_sphere (ps a b : PhotoSystem.t) :
  keeps_sphere a b -> keeps_effects ps a -> keeps_effects ps b.
Proof.
  unfold keeps_sphere, keeps_effects.
  intros (C & E & H & _ & _ & S) (C' & E' & H' & S').
  repeat split; try congruence.
  destruct S as [S | S]; [rewrite S; exact S' | right; exact S].
Qed.

Lemma setDetailLayout_effects (ps a : PhotoSystem.t) (index : Z) :
  keeps_effects ps a -> keeps_effects ps (PhotoSystem.setDetailLayout a index).
Proof. apply keeps_effects_sphere, setDetailLayout_keeps. Qed.

Lemma nextPhoto_effects (ps a : PhotoSystem.t) :
  keeps_effects ps a -> keeps_effects ps (PhotoSystem.nextPhoto a).
Proof. apply keeps_effects_sphere, nextPhoto_keeps. Qed.

Lemma prevPhoto_effects (ps a : PhotoSystem.t) :
  keeps_effects ps a -> keeps_effects ps (PhotoSystem.prevPhoto a).
Proof. apply keeps_effects_sphere, prevPhoto_keeps. Qed.

Lemma setExpansion_effects (ps a : PhotoSystem.t) (factor : Q) :
  keeps_effects ps a -> keeps_effects ps (PhotoSystem.setExpansion a factor).
Proof.
  unfold PhotoSystem.setExpansion.
  destruct (LayoutState_eqb (PhotoSystem.state a) SPHERE); auto.
Qed.

Lemma rotateSphere_effects (ps a : PhotoSystem.t) (dx dy : Q) :
  keeps_effects ps a -> keeps_effects ps (PhotoSystem.rotateSphere a dx dy).
Proof. auto. Qed.

Create HintDb layout.
#[local] Hint Resolve keeps_effects_refl setDetailLayout_effects
  nextPhoto_effects prevPhoto_effects setExpansion_effects
  rotateSphere_effects : layout.

(** Case analysis on every conditional of the goal. *)
Ltac split_ifs :=
  repeat match goal with
         | |- context [if ?c then _ else _] => destruct c
         end.

Section InteractFacts.

Variable vm : VisionManager.t.
Variable hoveredIndex : Z.

Lemma interact_sphere_effects (ps : PhotoSystem.t) :
  PhotoSystem.state ps = SPHERE ->
  keeps_effects ps (interact vm hoveredIndex ps).
Proof.
  intro S. unfold interact. rewrite S. split_ifs; auto 6 with layout.
Qed.

Lemma interact_detail (ps : PhotoSystem.t) :
  PhotoSystem.state ps = DETAIL ->
  PhotoSystem.count (interact vm hoveredIndex ps) = PhotoSystem.count ps
  /\ PhotoSystem.explosionSystem (interact vm hoveredIndex ps)
     = PhotoSystem.explosionSystem ps
  /\ PhotoSystem.hoverIntensities (interact vm hoveredIndex ps)
     = PhotoSystem.hoverIntensities ps
  /\ PhotoSystem.state (interact vm hoveredIndex ps) <> CRYSTAL_BALL.
Proof.
  intro S. unfold interact. rewrite S.
  destruct (detected (VisionManager.rightHand vm));
    [| rewrite S; repeat split; congruence].
  set (ps1 := if Gesture_eqb _ SWIPE_LEFT then _ else _).
  assert (K : keeps_effects ps ps1) by (unfold ps1; split_ifs; auto with layout).
  destruct K as (C & E & H & St).
  assert (S1 : PhotoSystem.state ps1 = DETAIL) by (destruct St; congruence).
  destruct (Gesture_eqb (gesture (VisionManager.rightHand vm)) FIST).
  - unfold PhotoSystem.setSphereLayout. simpl. rewrite S1. simpl.
    repeat split; auto; congruence.
  - repeat split; auto; congruence.
Qed.

Lemma interact_crystal_ball (ps : PhotoSystem.t) :
  PhotoSystem.state ps = CRYSTAL_BALL ->
  interact vm hoveredIndex ps
  = if Gesture_eqb (gesture (VisionManager.leftHand vm)) PINCH_START
       || Gesture_eqb (gesture (VisionManager.rightHand vm)) PINCH_START
    then PhotoSystem.setSphereLayout ps else ps.
Proof.
  intro S. unfold interact. rewrite S. reflexivity.
Qed.

(** The interaction logic calls [explode] exactly when it takes the layout
    from CRYSTAL_BALL to SPHERE, and it never takes the layout back to
    CRYSTAL_BALL. *)
Lemma interact_bursts (ps : PhotoSystem.t) :
  bursts_of (interact vm hoveredIndex ps)
  = (bursts_of ps
     + if entersSphere ps (interact vm hoveredIndex ps) then 1 else 0)%nat
  /\ (PhotoSystem.state ps <> CRYSTAL_BALL ->
      PhotoSystem.state (interact vm hoveredIndex ps) <> CRYSTAL_BALL).
Proof.
  unfold bursts_of, entersSphere.
  destruct (PhotoSystem.state ps) eqn:S.
  - rewrite (interact_crystal_ball ps S).
    destruct (Gesture_eqb (gesture (VisionManager.leftHand vm)) PINCH_START
              || Gesture_eqb (gesture (VisionManager.rightHand vm)) PINCH_START).
    + unfold PhotoSystem.setSphereLayout. simpl. rewrite S. simpl.
      split; [lia | congruence].
    + rewrite S. simpl. split; [lia | congruence].
  - destruct (interact_sphere_effects ps S) as (_ & E & _ & St).
    rewrite E. simpl. split; [lia |].
    intros _. destruct St; congruence.
  - destruct (interact_detail ps S) as (_ & E & _ & St).
    rewrite E. simpl. split; [lia | auto].
Qed.

Lemma interact_hover (ps : PhotoSystem.t) :
  PhotoSystem.hoverIntensities (interact vm hoveredIndex ps)
  = PhotoSystem.hoverIntensities ps
  /\ PhotoSystem.count (interact vm hoveredIndex ps) = PhotoSystem.count ps.
Proof.
  destruct (PhotoSystem.state ps) eqn:S.
  - rewrite (interact_crystal_ball ps S). split_ifs; auto.
  - destruct (interact_sphere_effects ps S) as (C & _ & H & _). auto.
  - destruct (interact_detail ps S) as (C & _ & H & _). auto.
Qed.

End InteractFacts.

(** ** One frame of the application *)

Lemma onTextureLoad_fields (ps : PhotoSystem.t) (ev : TextureLoad) :
  layoutFields (PhotoSystem.onTextureLoad ps ev) = layoutFields ps.
Proof.
  unfold PhotoSystem.onTextureLoad.
  destruct (texImage ev) as [[width height] |]; [| reflexivity].
  destruct (Qgtb height 0); reflexivity.
Qed.

Lemma texturesLoaded_fields (evs : list TextureLoad) (ps : PhotoSystem.t) :
  layoutFields (fold_left PhotoSystem.onTextureLoad evs ps) = layoutFields ps.
Proof.
  apply (fold_left_invariant PhotoSystem.onTextureLoad
           (fun a => layoutFields a = layoutFields ps)); [| reflexivity].
  intros a ev H. rewrite onTextureLoad_fields. exact H.
Qed.

Lemma setHovered_fields (ps : PhotoSystem.t) (index : Z) :
  PhotoSystem.count (PhotoSystem.setHovered ps index) = PhotoSystem.count ps
  /\ PhotoSystem.state (PhotoSystem.setHovered ps index) = PhotoSystem.state ps
  /\ PhotoSystem.explosionSystem (PhotoSystem.setHovered ps index)
     = PhotoSystem.explosionSystem ps
  /\ PhotoSystem.hoverIntensities (PhotoSystem.setHovered ps index)
     = PhotoSystem.hoverIntensities ps
  /\ PhotoSystem.sphereRotation (PhotoSystem.setHovered ps index)
     = PhotoSystem.sphereRotation ps
  /\ PhotoSystem.sphereScale (PhotoSystem.setHovered ps index)
     = PhotoSystem.sphereScale ps.
Proof.
  unfold PhotoSystem.setHovered.
  destruct (negb (LayoutState_eqb (PhotoSystem.state ps) SPHERE)); simpl; auto 10.
Qed.

Section UpdateFacts.

Variable Math_sin : Q -> Q.
Variable applyEuler : Vec3 -> Euler -> Vec3.
Variable lookAt : Vec3 -> Vec3 -> Quaternion.
Variable slerp : Quaternion -> Quaternion -> Q -> Quaternion.

Local Abbreviation update := (PhotoSystem.update Math_sin applyEuler lookAt slerp).
Local Abbreviation updateItem :=
  (PhotoSystem.updateItem Math_sin applyEuler lookAt slerp).

Lemma hover_step_in01 (old : Q) (hovered : bool) :
  in01 old -> in01 (old + ((if hovered then 1.0 else 0.0) - old) * 0.15).
Proof.
  unfold in01. destruct hovered; intros [H0 H1]; split; lra.
Qed.

Lemma layoutOnSphere_arrays_only (ps : PhotoSystem.t) (i : nat) :
  arrays_only ps (PhotoSystem.layoutOnSphere applyEuler lookAt ps i).
Proof.
  unfold PhotoSystem.layoutOnSphere.
  eexists _, _, _. split; [reflexivity |].
  rewrite !set_nth_length. repeat split.
  intro F. apply set_nth_Forall; [| exact F].
  apply hover_step_in01, nth_Forall; [| exact F].
  unfold in01. lra.
Qed.

Lemma interpolate_arrays_only (ps : PhotoSystem.t) (i : nat) :
  arrays_only ps (PhotoSystem.interpolate slerp ps i).
Proof.
  unfold PhotoSystem.interpolate.
  eexists _, _, _. split; [reflexivity |].
  rewrite !set_nth_length. auto.
Qed.

Lemma floatSelected_arrays_only (time : Q) (ps : PhotoSystem.t) (i : nat) :
  arrays_only ps (PhotoSystem.floatSelected Math_sin time ps i).
Proof.
  apply targets_only_arrays_only. eexists. split; [reflexivity |].
  apply set_nth_length.
Qed.

Lemma updateItem_arrays_only (time : Q) (ps : PhotoSystem.t) (i : nat) :
  arrays_only ps (updateItem time ps i).
Proof.
  unfold PhotoSystem.updateItem.
  eapply arrays_only_trans; [| apply interpolate_arrays_only].
  match goal with
  | |- arrays_only _ (if _ then _ else ?ps1) =>
      apply arrays_only_trans with (b := ps1)
  end.
  - split_ifs;
      first [apply layoutOnSphere_arrays_only | apply arrays_only_refl].
  - split_ifs;
      first [apply floatSelected_arrays_only | apply arrays_only_refl].
Qed.

(** [update] is the automatic rotation followed by changes of the per-photo
    arrays. *)
Lemma update_arrays_only (ps : PhotoSystem.t) (dateNow : Q) :
  arrays_only (PhotoSystem.autoRotate Math_sin (dateNow * 0.001) ps)
              (update ps dateNow).
Proof.
  unfold PhotoSystem.update.
  replace {| PhotoSystem.count := PhotoSystem.count ps;
             PhotoSystem.state := PhotoSystem.state ps;
             PhotoSystem.explosionSystem :=
               ExplosionSystem.update (PhotoSystem.explosionSystem ps);
             PhotoSystem.targetTransforms := PhotoSystem.targetTransforms ps;
             PhotoSystem.currentTransforms := PhotoSystem.currentTransforms ps;
             PhotoSystem.spherePositions := PhotoSystem.spherePositions ps;
             PhotoSystem.selectedIndex := PhotoSystem.selectedIndex ps;
             PhotoSystem.hoveredIndex := PhotoSystem.hoveredIndex ps;
             PhotoSystem.hoverIntensities := PhotoSystem.hoverIntensities ps;
             PhotoSystem.aspectRatios := PhotoSystem.aspectRatios ps;
             PhotoSystem.sphereRotation := PhotoSystem.sphereRotation ps;
             PhotoSystem.sphereScale := PhotoSystem.sphereScale ps |}
    with ps by (destruct ps; reflexivity).
  apply (fold_left_preorder arrays_only).
  - apply arrays_only_refl.
  - apply arrays_only_trans.
  - intros. apply updateItem_arrays_only.
Qed.

Lemma autoRotate_fields (time : Q) (ps : PhotoSystem.t) :
  PhotoSystem.count (PhotoSystem.autoRotate Math_sin time ps)
  = PhotoSystem.count ps
  /\ PhotoSystem.state (PhotoSystem.autoRotate Math_sin time ps)
     = PhotoSystem.state ps
  /\ PhotoSystem.explosionSystem (PhotoSystem.autoRotate Math_sin time ps)
     = PhotoSystem.explosionSystem ps
  /\ PhotoSystem.hoverIntensities (PhotoSystem.autoRotate Math_sin time ps)
     = PhotoSystem.hoverIntensities ps
  /\ PhotoSystem.sphereScale (PhotoSystem.autoRotate Math_sin time ps)
     = PhotoSystem.sphereScale ps.
Proof.
  unfold PhotoSystem.autoRotate.
  destruct (PhotoSystem.state ps) eqn:S; simpl; auto 10.
Qed.

(** [update] keeps the layout state, the explosion system and the scale;
    the rotation is the one [autoRotate] leaves; the hover intensities stay
    in the unit interval. *)
Lemma update_fields (ps : PhotoSystem.t) (dateNow : Q) :
  PhotoSystem.count (update ps dateNow) = PhotoSystem.count ps
  /\ PhotoSystem.state (update ps dateNow) = PhotoSystem.state ps
  /\ PhotoSystem.explosionSystem (update ps dateNow)
     = PhotoSystem.explosionSystem ps
  /\ PhotoSystem.sphereScale (update ps dateNow) = PhotoSystem.sphereScale ps
  /\ PhotoSystem.sphereRotation (update ps dateNow)
     = PhotoSystem.sphereRotation
         (PhotoSystem.autoRotate Math_sin (dateNow * 0.001) ps)
  /\ List.length (PhotoSystem.hoverIntensities (update ps dateNow))
     = List.length (PhotoSystem.hoverIntensities ps)
  /\ (Forall in01 (PhotoSystem.hoverIntensities ps) ->
      Forall in01 (PhotoSystem.hoverIntensities (update ps dateNow))).
Proof.
  pose proof (update_arrays_only ps dateNow) as A.
  destruct (arrays_only_fields _ _ A) as (C & S & E & _ & _ & R & Sc).
  destruct (autoRotate_fields (dateNow * 0.001) ps) as (C' & S' & E' & H' & Sc').
  destruct A as (t & c & h & Eq & _ & _ & Lh & F).
  repeat split; try congruence.
  - rewrite Eq. simpl. congruence.
  - rewrite Eq. simpl. rewrite H' in F. exact F.
Qed.

End UpdateFacts.

Section TickFacts.

Variable Math_sqrt : Q -> Q.
Variable Math_sin : Q -> Q.
Variable Math_cos : Q -> Q.
Variable Math_PI : Q.
Variable applyEuler : Vec3 -> Euler -> Vec3.
Variable lookAt : Vec3 -> Vec3 -> Quaternion.
Variable slerp : Quaternion -> Quaternion -> Q -> Quaternion.

Local Abbreviation tick := (tick Math_sqrt Math_sin applyEuler lookAt slerp).
Local Abbreviation run := (run Math_sqrt Math_sin applyEuler lookAt slerp).
Local Abbreviation initialWorld :=
  (initialWorld Math_sqrt Math_sin Math_cos Math_PI).

Lemma tick_visionManager (w : World) (inp : TickInput) :
  visionManager (tick w inp)
  = VisionManager.update Math_sqrt (visionManager w) (visionInput inp).
Proof. reflexivity. Qed.

Lemma tick_photoSystem (w : World) (inp : TickInput) :
  photoSystem (tick w inp)
  = PhotoSystem.update Math_sin applyEuler lookAt slerp
      (interact (visionManager (tick w inp)) (hoveredIndexOf Math_sqrt w inp)
                (hoveredSystem Math_sqrt w inp))
      (dateNow inp).
Proof. reflexivity. Qed.

Lemma hoveredSystem_fields (w : World) (inp : TickInput) :
  PhotoSystem.count (hoveredSystem Math_sqrt w inp) = PhotoSystem.count (photoSystem w)
  /\ PhotoSystem.state (hoveredSystem Math_sqrt w inp) = PhotoSystem.state (photoSystem w)
  /\ PhotoSystem.explosionSystem (hoveredSystem Math_sqrt w inp)
     = PhotoSystem.explosionSystem (photoSystem w)
  /\ PhotoSystem.hoverIntensities (hoveredSystem Math_sqrt w inp)
     = PhotoSystem.hoverIntensities (photoSystem w)
  /\ PhotoSystem.sphereRotation (hoveredSystem Math_sqrt w inp)
     = PhotoSystem.sphereRotation (photoSystem w)
  /\ PhotoSystem.sphereScale (hoveredSystem Math_sqrt w inp)
     = PhotoSystem.sphereScale (photoSystem w).
Proof.
  unfold hoveredSystem.
  destruct (setHovered_fields
              (fold_left PhotoSystem.onTextureLoad (texturesLoaded inp)
                         (photoSystem w))
              (hoveredIndexOf Math_sqrt w inp)) as (C & S & E & H & R & Sc).
  pose proof (texturesLoaded_fields (texturesLoaded inp) (photoSystem w)) as F.
  unfold layoutFields in F. injection F as F1 F2 F3 F4 F5 F6 F7 F8.
  repeat split; congruence.
Qed.

Lemma tick_bursts (w : World) (inp : TickInput) :
  bursts_of (photoSystem (tick w inp))
  = (bursts_of (photoSystem w)
     + if entersSphere (photoSystem w) (photoSystem (tick w inp))
       then 1 else 0)%nat
  /\ (PhotoSystem.state (photoSystem w) <> CRYSTAL_BALL ->
      PhotoSystem.state (photoSystem (tick w inp)) <> CRYSTAL_BALL).
Proof.
  rewrite tick_photoSystem.
  set (ps2 := interact _ _ _).
  destruct (update_fields Math_sin applyEuler lookAt slerp ps2 (dateNow inp))
    as (_ & S & E & _).
  destruct (hoveredSystem_fields w inp) as (_ & S1 & E1 & _).
  destruct (interact_bursts (visionManager (tick w inp)) (hoveredIndexOf Math_sqrt w inp)
              (hoveredSystem Math_sqrt w inp)) as (B & N).
  fold ps2 in B, N.
  unfold bursts_of, entersSphere in *.
  rewrite S, E, <- S1, <- E1. auto.
Qed.

Lemma run_bursts (inps : list TickInput) (w : World) :
  bursts_of (photoSystem (run w inps))
  = (bursts_of (photoSystem w) + transitions tick w inps)%nat.
Proof.
  revert w. induction inps as [|inp inps IH]; intro w.
  - simpl. lia.
  - change (run w (inp :: inps)) with (run (tick w inp) inps).
    rewrite IH. destruct (tick_bursts w inp) as [B _]. rewrite B.
    simpl. lia.
Qed.

Lemma run_leaves_crystal_ball (inps : list TickInput) (w : World) :
  PhotoSystem.state (photoSystem w) <> CRYSTAL_BALL ->
  PhotoSystem.state (photoSystem (run w inps)) <> CRYSTAL_BALL
  /\ transitions tick w inps = 0%nat.
Proof.
  revert w. induction inps as [|inp inps IH]; intros w H.
  - simpl. auto.
  - change (run w (inp :: inps)) with (run (tick w inp) inps).
    destruct (tick_bursts w inp) as [_ N].
    destruct (IH (tick w inp) (N H)) as [IH1 IH2].
    split; [exact IH1 |]. simpl. rewrite IH2.
    unfold entersSphere.
    destruct (PhotoSystem.state (photoSystem w)); simpl; congruence.
Qed.

(** C6.  [explode] is called once per transition from CRYSTAL_BALL to
    SPHERE: a frame calls it exactly when it makes this transition, over
    every sequence of frames the number of calls is the number of such
    transitions, and from a world that is in SPHERE no later frame calls
    it. *)
Theorem C6_explode_once_per_transition (w : World) (inps : list TickInput) :
  (forall inp : TickInput,
      bursts_of (photoSystem (tick w inp))
      = (bursts_of (photoSystem w)
         + if entersSphere (photoSystem w) (photoSystem (tick w inp))
           then 1 else 0)%nat)
  /\ bursts_of (photoSystem (run w inps))
     = (bursts_of (photoSystem w) + transitions tick w inps)%nat
  /\ (PhotoSystem.state (photoSystem w) = SPHERE ->
      bursts_of (photoSystem (run w inps)) = bursts_of (photoSystem w)).
Proof.
  split; [intro inp; apply tick_bursts |].
  split; [apply run_bursts |].
  intro S. rewrite run_bursts.
  destruct (run_leaves_crystal_ball inps w) as [_ T]; [congruence |].
  rewrite T. lia.
Qed.

End TickFacts.

(** The theorem on a world that a first pinch took to SPHERE, followed by
    a release and a second pinch. *)
Lemma C6_witness :
  let c := mkVec3 0.5 0.5 0 in
  let w := Sample.run (Sample.initialWorld 130)
             [Sample.tickOf 0 [mkDetection "Right" (Sample.pinchingHand c) 1000]] in
  let inps := [Sample.tickOf 1 [mkDetection "Right" (Sample.openHand c) 1100];
               Sample.tickOf 2 [mkDetection "Right" (Sample.pinchingHand c) 1200]] in
  PhotoSystem.state (photoSystem w) = SPHERE
  /\ bursts_of (photoSystem w) = 1%nat
  /\ bursts_of (photoSystem (Sample.run w inps)) = bursts_of (photoSystem w).
Proof.
  intros c w inps.
  assert (S : PhotoSystem.state (photoSystem w) = SPHERE)
    by (vm_compute; reflexivity).
  split; [exact S |].
  split; [vm_compute; reflexivity |].
  exact (proj2 (proj2 (C6_explode_once_per_transition
                         Sample.sqrt Sample.sin Sample.applyEuler
                         Sample.lookAt Sample.slerp w inps)) S).
Defined.

(** ** Leaving the crystal ball *)

Section CrystalBall.

Variable Math_sqrt : Q -> Q.
Variable Math_sin : Q -> Q.
Variable applyEuler : Vec3 -> Euler -> Vec3.
Variable lookAt : Vec3 -> Vec3 -> Quaternion.
Variable slerp : Quaternion -> Quaternion -> Q -> Quaternion.

Local Abbreviation tick := (tick Math_sqrt Math_sin applyEuler lookAt slerp).

(** In CRYSTAL_BALL the frame looks at PINCH_START only: with it on either
    hand the layout becomes SPHERE at scale 1.0; without it the layout and
    the scale stay, whatever else the gestures are. *)
Lemma crystal_ball_frame (w : World) (inp : TickInput) :
  let vm := visionManager (tick w inp) in
  let started :=
    Gesture_eqb (gesture (VisionManager.leftHand vm)) PINCH_START
    || Gesture_eqb (gesture (VisionManager.rightHand vm)) PINCH_START in
  PhotoSystem.state (photoSystem w) = CRYSTAL_BALL ->
  PhotoSystem.state (photoSystem (tick w inp))
  = (if started then SPHERE else CRYSTAL_BALL)
  /\ PhotoSystem.sphereScale (photoSystem (tick w inp))
     = (if started then 1.0 else PhotoSystem.sphereScale (photoSystem w)).
Proof.
  intros vm started S. rewrite tick_photoSystem.
  set (ps2 := interact _ _ _).
  destruct (update_fields Math_sin applyEuler lookAt slerp ps2 (dateNow inp))
    as (_ & S2 & _ & Sc2 & _).
  rewrite S2, Sc2. unfold ps2.
  destruct (hoveredSystem_fields Math_sqrt w inp) as (_ & S1 & _ & _ & _ & Sc1).
  rewrite interact_crystal_ball by congruence.
  fold vm. fold started. destruct started; simpl; split; congruence.
Qed.

End CrystalBall.

(** C2, the failing input.  The left hand closes into a fist with thumb on
    index (FIST replaces the PINCH_START of this first pinch), opens 100 ms
    later, and pinches with open fingers another 100 ms later: the gesture
    of this third frame is DOUBLE_PINCH, and the layout is still
    CRYSTAL_BALL at scale 0.2, with no call of [explode]. *)
Lemma C2_double_pinch_stays_in_crystal_ball :
  let c := mkVec3 0.5 0.5 0 in
  let w2 := Sample.run (Sample.initialWorld 130)
              [Sample.tickOf 0 [mkDetection "Left" (Sample.closedHand c) 1000];
               Sample.tickOf 1 [mkDetection "Left" (Sample.openHand c) 1100]] in
  let w3 := Sample.tick w2
              (Sample.tickOf 2 [mkDetection "Left" (Sample.pinchingHand c) 1200]) in
  PhotoSystem.state (photoSystem w2) = CRYSTAL_BALL
  /\ gesture (VisionManager.leftHand (visionManager w3)) = DOUBLE_PINCH
  /\ PhotoSystem.state (photoSystem w3) = CRYSTAL_BALL
  /\ PhotoSystem.sphereScale (photoSystem w3) == 0.2
  /\ ~ PhotoSystem.sphereScale (photoSystem w3) == 1.0
  /\ bursts_of (photoSystem w3) = 0%nat.
Proof.
  vm_compute. repeat split; discriminate.
Qed.

(** ** Rotation of the sphere *)

Lemma setExpansion_rotation (ps : PhotoSystem.t) (factor : Q) :
  PhotoSystem.sphereRotation (PhotoSystem.setExpansion ps factor)
  = PhotoSystem.sphereRotation ps
  /\ PhotoSystem.state (PhotoSystem.setExpansion ps factor)
     = PhotoSystem.state ps.
Proof.
  unfold PhotoSystem.setExpansion.
  destruct (LayoutState_eqb (PhotoSystem.state ps) SPHERE); auto.
Qed.

Lemma rotateSphere_fields (ps : PhotoSystem.t) (dx dy : Q) :
  PhotoSystem.state (PhotoSystem.rotateSphere ps dx dy) = PhotoSystem.state ps
  /\ PhotoSystem.sphereRotation (PhotoSystem.rotateSphere ps dx dy)
     = mkEuler (ex (PhotoSystem.sphereRotation ps) + dy)
               (ey (PhotoSystem.sphereRotation ps) + dx)
               (ez (PhotoSystem.sphereRotation ps)).
Proof. split; reflexivity. Qed.

Lemma isPinchStart_false (g : Gesture) :
  isPinchStart g = false ->
  Gesture_eqb g DOUBLE_PINCH = false /\ Gesture_eqb g PINCH_START = false.
Proof. destruct g; simpl; auto; discriminate. Qed.

Section SphereRotation.

Variable vm : VisionManager.t.
Variable hoveredIndex : Z.

Local Abbreviation leftHand := (VisionManager.leftHand vm).
Local Abbreviation rightHand := (VisionManager.rightHand vm).

Lemma expanded_rotation (ps : PhotoSystem.t) :
  PhotoSystem.sphereRotation (expanded vm ps) = PhotoSystem.sphereRotation ps
  /\ PhotoSystem.state (expanded vm ps) = PhotoSystem.state ps.
Proof.
  unfold expanded. destruct (VisionManager.handsDetectedBoth vm); auto.
  apply setExpansion_rotation.
Qed.

(** In SPHERE, the right hand steering: detected, not pinching, and so (by
    the invariant of the classifier) not starting a pinch. *)
Lemma interact_sphere_steering (ps : PhotoSystem.t) :
  PhotoSystem.state ps = SPHERE ->
  detected rightHand = true ->
  isPinching rightHand = false ->
  isPinchStart (gesture rightHand) = false ->
  interact vm hoveredIndex ps
  = PhotoSystem.rotateSphere (expanded vm ps)
      (v2x (rotationSpeed rightHand) * 0.05)
      (v2y (rotationSpeed rightHand) * 0.05).
Proof.
  intros S D P G. unfold interact. rewrite S, D, P.
  destruct (isPinchStart_false _ G) as [G1 G2]. rewrite G1, G2.
  reflexivity.
Qed.

(** In SPHERE without the right hand. *)
Lemma interact_sphere_idle (ps : PhotoSystem.t) :
  PhotoSystem.state ps = SPHERE ->
  detected rightHand = false ->
  interact vm hoveredIndex ps
  = if negb (detected leftHand) || Qltb (pinchDistance leftHand) 0.2
    then PhotoSystem.rotateSphere (expanded vm ps) 0.002 0 else expanded vm ps.
Proof.
  intros S D. unfold interact. rewrite S, D. reflexivity.
Qed.

End SphereRotation.

Section RotationFacts.

Variable Math_sqrt : Q -> Q.
Variable Math_sin : Q -> Q.
Variable Math_cos : Q -> Q.
Variable Math_PI : Q.
Variable applyEuler : Vec3 -> Euler -> Vec3.
Variable lookAt : Vec3 -> Vec3 -> Quaternion.
Variable slerp : Quaternion -> Quaternion -> Q -> Quaternion.

Local Abbreviation tick := (tick Math_sqrt Math_sin applyEuler lookAt slerp).
Local Abbreviation run := (run Math_sqrt Math_sin applyEuler lookAt slerp).
Local Abbreviation initialWorld :=
  (initialWorld Math_sqrt Math_sin Math_cos Math_PI).

Lemma run_vision_inv (inps : list TickInput) (w : World) :
  vision_inv (visionManager w) -> vision_inv (visionManager (run w inps)).
Proof.
  revert w. induction inps as [|inp inps IH]; intros w I.
  - exact I.
  - change (run w (inp :: inps)) with (run (tick w inp) inps).
    apply IH. rewrite tick_visionManager. apply update_inv, I.
Qed.

Lemma reachable_vision_inv (count : nat) (inps : list TickInput) :
  vision_inv (visionManager (run (initialWorld count) inps)).
Proof. apply run_vision_inv. simpl. apply new_inv. Qed.

(** The rotation after [update] of a photo system that is in SPHERE. *)
Lemma update_sphere_rotation (ps : PhotoSystem.t) (dateNow : Q) :
  PhotoSystem.state ps = SPHERE ->
  PhotoSystem.sphereRotation
    (PhotoSystem.update Math_sin applyEuler lookAt slerp ps dateNow)
  = mkEuler (ex (PhotoSystem.sphereRotation ps))
            (ey (PhotoSystem.sphereRotation ps) + 0.002)
            (ez (PhotoSystem.sphereRotation ps)).
Proof.
  intro S.
  destruct (update_fields Math_sin applyEuler lookAt slerp ps dateNow)
    as (_ & _ & _ & _ & R & _).
  rewrite R. unfold PhotoSystem.autoRotate. rewrite S. reflexivity.
Qed.

(** C5, as amended.  In SPHERE, on every frame after which the right hand
    is detected and not pinching, the pitch changes by its
    [rotationSpeed.y] times 0.05 and the yaw by its [rotationSpeed.x] times
    0.05 plus 0.002, the automatic yaw that [update] adds on every frame in
    SPHERE.  On every frame after which the right hand is not detected the
    pitch does not change and the yaw changes by 0.004, except when the left
    hand is detected with a pinch distance of at least 0.2, where it
    changes by 0.002.  The roll does not change. *)
Theorem C5_sphere_rotation
        (count : nat) (inps : list TickInput) (inp : TickInput) :
  let w := run (initialWorld count) inps in
  let w' := tick w inp in
  let left := VisionManager.leftHand (visionManager w') in
  let right := VisionManager.rightHand (visionManager w') in
  let rot := PhotoSystem.sphereRotation (photoSystem w) in
  let rot' := PhotoSystem.sphereRotation (photoSystem w') in
  PhotoSystem.state (photoSystem w) = SPHERE ->
  (detected right = true -> isPinching right = false ->
   ey rot' == ey rot + v2x (rotationSpeed right) * 0.05 + 0.002
   /\ ex rot' == ex rot + v2y (rotationSpeed right) * 0.05
   /\ ez rot' == ez rot)
  /\ (detected right = false ->
      ey rot' == ey rot + (if negb (detected left)
                              || Qltb (pinchDistance left) 0.2
                           then 0.004 else 0.002)
      /\ ex rot' == ex rot
      /\ ez rot' == ez rot).
Proof.
  intros w w' left right rot rot' S.
  assert (I : vision_inv (visionManager w')).
  { unfold w'. rewrite tick_visionManager.
    apply update_inv, reachable_vision_inv. }
  assert (EP : photoSystem w'
               = PhotoSystem.update Math_sin applyEuler lookAt slerp
                   (interact (visionManager w') (hoveredIndexOf Math_sqrt w inp)
                             (hoveredSystem Math_sqrt w inp))
                   (dateNow inp)) by reflexivity.
  clearbody w'. clearbody w. subst left right rot rot'.
  destruct (hoveredSystem_fields Math_sqrt w inp) as (_ & S1 & _ & _ & R1 & _).
  rewrite S in S1.
  destruct (expanded_rotation (visionManager w') (hoveredSystem Math_sqrt w inp))
    as [RE SE].
  rewrite S1 in SE. rewrite R1 in RE. rewrite EP.
  split.
  - intros D P.
    assert (G : isPinchStart
                  (gesture (VisionManager.rightHand (visionManager w'))) = false).
    { destruct I as (_ & (_ & G & _) & _).
      destruct (isPinchStart
                  (gesture (VisionManager.rightHand (visionManager w')))) eqn:E;
        [| reflexivity].
      rewrite (G eq_refl) in P. discriminate. }
    rewrite (interact_sphere_steering _ _ _ S1 D P G).
    rewrite update_sphere_rotation
      by (rewrite (proj1 (rotateSphere_fields _ _ _)); exact SE).
    rewrite (proj2 (rotateSphere_fields _ _ _)), RE.
    cbn [ex ey ez]. repeat split; reflexivity.
  - intro D.
    rewrite (interact_sphere_idle _ _ _ S1 D).
    destruct (negb (detected (VisionManager.leftHand (visionManager w')))
              || Qltb (pinchDistance (VisionManager.leftHand (visionManager w')))
                      0.2).
    + rewrite update_sphere_rotation
        by (rewrite (proj1 (rotateSphere_fields _ _ _)); exact SE).
      rewrite (proj2 (rotateSphere_fields _ _ _)), RE.
      cbn [ex ey ez]. repeat split; try reflexivity; ring.
    + rewrite update_sphere_rotation by exact SE.
      rewrite RE. cbn [ex ey ez]. repeat split; reflexivity.
Qed.

End RotationFacts.

(** C5, as stated, fails.  From a world in SPHERE: with the right hand
    detected, not pinching and at rotation speed 0 on the x axis, the yaw
    still moves by 0.002; with the right hand absent and the left hand
    pinching, the yaw moves by 0.004. *)
Lemma C5_counterexample :
  let c := mkVec3 0.5 0.5 0 in
  let yaw := fun x : World => ey (PhotoSystem.sphereRotation (photoSystem x)) in
  let w := Sample.run (Sample.initialWorld 130)
             [Sample.tickOf 0 [mkDetection "Right" (Sample.pinchingHand c) 1000]] in
  let w1 := Sample.tick w
              (Sample.tickOf 1 [mkDetection "Right" (Sample.openHand c) 1100]) in
  let w2 := Sample.tick w
              (Sample.tickOf 1 [mkDetection "Left" (Sample.pinchingHand c) 1100]) in
  PhotoSystem.state (photoSystem w) = SPHERE
  /\ (detected (VisionManager.rightHand (visionManager w1)) = true
      /\ isPinching (VisionManager.rightHand (visionManager w1)) = false
      /\ v2x (rotationSpeed (VisionManager.rightHand (visionManager w1))) * 0.05
         == 0
      /\ yaw w1 - yaw w == 0.002
      /\ ~ yaw w1 - yaw w
           == v2x (rotationSpeed (VisionManager.rightHand (visionManager w1)))
              * 0.05)
  /\ (detected (VisionManager.rightHand (visionManager w2)) = false
      /\ detected (VisionManager.leftHand (visionManager w2)) = true
      /\ isPinching (VisionManager.leftHand (visionManager w2)) = true
      /\ yaw w2 - yaw w == 0.004
      /\ ~ yaw w2 - yaw w == 0).
Proof.
  vm_compute. repeat split; discriminate.
Qed.

(** The theorem on the first frame of the example above. *)
Lemma C5_witness :
  let c := mkVec3 0.5 0.5 0 in
  let inps := [Sample.tickOf 0 [mkDetection "Right" (Sample.pinchingHand c) 1000]] in
  let inp := Sample.tickOf 1 [mkDetection "Right" (Sample.openHand c) 1100] in
  let w := Sample.run (Sample.initialWorld 130) inps in
  let w' := Sample.tick w inp in
  let right := VisionManager.rightHand (visionManager w') in
  let rot := PhotoSystem.sphereRotation (photoSystem w) in
  let rot' := PhotoSystem.sphereRotation (photoSystem w') in
  PhotoSystem.state (photoSystem w) = SPHERE
  /\ detected right = true
  /\ isPinching right = false
  /\ ey rot' == ey rot + v2x (rotationSpeed right) * 0.05 + 0.002
  /\ ex rot' == ex rot + v2y (rotationSpeed right) * 0.05
  /\ ez rot' == ez rot.
Proof.
  intros c inps inp w w' right rot rot'.
  assert (S : PhotoSystem.state (photoSystem w) = SPHERE)
    by (vm_compute; reflexivity).
  assert (D : detected right = true) by (vm_compute; reflexivity).
  assert (P : isPinching right = false) by (vm_compute; reflexivity).
  repeat (split; [assumption |]).
  exact (proj1 (C5_sphere_rotation
                  Sample.sqrt Sample.sin Sample.cos Sample.PI
                  Sample.applyEuler Sample.lookAt Sample.slerp
                  130%nat inps inp S) D P).
Defined.

(** ** The unit interval *)

Section UnitInterval.

Variable Math_sqrt : Q -> Q.
Variable Math_sin : Q -> Q.
Variable Math_cos : Q -> Q.
Variable Math_PI : Q.
Variable applyEuler : Vec3 -> Euler -> Vec3.
Variable lookAt : Vec3 -> Vec3 -> Quaternion.
Variable slerp : Quaternion -> Quaternion -> Q -> Quaternion.

Local Abbreviation tick := (tick Math_sqrt Math_sin applyEuler lookAt slerp).
Local Abbreviation run := (run Math_sqrt Math_sin applyEuler lookAt slerp).
Local Abbreviation initialWorld :=
  (initialWorld Math_sqrt Math_sin Math_cos Math_PI).

Lemma tick_hover_inv (w : World) (inp : TickInput) :
  hover_inv (photoSystem w) -> hover_inv (photoSystem (tick w inp)).
Proof.
  intros [F L]. rewrite tick_photoSystem.
  set (ps2 := interact _ _ _).
  destruct (update_fields Math_sin applyEuler lookAt slerp ps2 (dateNow inp))
    as (C & _ & _ & _ & _ & L2 & F2).
  destruct (interact_hover (visionManager (tick w inp))
              (hoveredIndexOf Math_sqrt w inp) (hoveredSystem Math_sqrt w inp))
    as [H1 C1].
  fold ps2 in H1, C1.
  destruct (hoveredSystem_fields Math_sqrt w inp) as (C0 & _ & _ & H0 & _).
  split.
  - apply F2. rewrite H1, H0. exact F.
  - rewrite L2, C, H1, C1, H0, C0. exact L.
Qed.

Lemma run_hover_inv (inps : list TickInput) (w : World) :
  hover_inv (photoSystem w) -> hover_inv (photoSystem (run w inps)).
Proof.
  revert w. induction inps as [|inp inps IH]; intros w I.
  - exact I.
  - change (run w (inp :: inps)) with (run (tick w inp) inps).
    apply IH, tick_hover_inv, I.
Qed.

Lemma initial_hover_inv (count : nat) :
  hover_inv (photoSystem (initialWorld count)).
Proof.
  unfold hover_inv. cbn.
  split; [| apply repeat_length].
  apply Forall_forall. intros q H. apply repeat_spec in H. subst q.
  unfold in01. lra.
Qed.

(** C9.  After every sequence of frames from the initial world, whatever
    the landmarks, clocks, textures and ray hits of the frames, the pinch
    distance of each hand, [handsDistance] and the hover intensity of every
    photo are between 0 and 1. *)
Theorem C9_unit_interval (count : nat) (inps : list TickInput) :
  let w := run (initialWorld count) inps in
  in01 (pinchDistance (VisionManager.leftHand (visionManager w)))
  /\ in01 (pinchDistance (VisionManager.rightHand (visionManager w)))
  /\ in01 (VisionManager.handsDistance (visionManager w))
  /\ Forall in01 (PhotoSystem.hoverIntensities (photoSystem w))
  /\ List.length (PhotoSystem.hoverIntensities (photoSystem w))
     = PhotoSystem.count (photoSystem w).
Proof.
  intro w.
  destruct (reachable_vision_inv Math_sqrt Math_sin Math_cos Math_PI
              applyEuler lookAt slerp count inps)
    as ((PL & _) & (PR & _) & D & _).
  destruct (run_hover_inv inps _ (initial_hover_inv count)) as [F L].
  fold w in PL, PR, D, F, L. auto.
Qed.

End UnitInterval.

(** ** The arrays keep one entry per photo *)

Lemma same_shape_refl (ps : PhotoSystem.t) : same_shape ps ps.
Proof. unfold same_shape. auto 10. Qed.

Lemma same_shape_trans (a b c : PhotoSystem.t) :
  same_shape a b -> same_shape b c -> same_shape a c.
Proof.
  unfold same_shape. intros (A1 & A2 & A3 & A4 & A5 & A6) (B1 & B2 & B3 & B4 & B5 & B6).
  repeat split; congruence.
Qed.

Lemma same_shape_wf (ps ps' : PhotoSystem.t) :
  same_shape ps ps' -> PhotoSystem.wf ps -> PhotoSystem.wf ps'.
Proof.
  unfold same_shape, PhotoSystem.wf.
  intros (A1 & A2 & A3 & A4 & A5 & A6) (B1 & B2 & B3 & B4 & B5).
  repeat split; congruence.
Qed.

Lemma arrays_only_same_shape (ps ps' : PhotoSystem.t) :
  arrays_only ps ps' -> same_shape ps ps'.
Proof.
  intros (t & c & h & E & Lt & Lc & Lh & _). subst ps'.
  unfold same_shape. simpl. auto 10.
Qed.

Lemma onTextureLoad_same_shape (ps : PhotoSystem.t) (ev : TextureLoad) :
  same_shape ps (PhotoSystem.onTextureLoad ps ev).
Proof.
  unfold PhotoSystem.onTextureLoad.
  destruct (texImage ev) as [[width height] |]; [| apply same_shape_refl].
  destruct (Qgtb height 0); [| apply same_shape_refl].
  unfold same_shape. simpl. rewrite set_nth_length. auto 10.
Qed.

Lemma setHovered_same_shape (ps : PhotoSystem.t) (index : Z) :
  same_shape ps (PhotoSystem.setHovered ps index).
Proof.
  unfold PhotoSystem.setHovered, same_shape. split_ifs; simpl; auto 10.
Qed.

Lemma setDetailLayout_same_shape (ps a : PhotoSystem.t) (index : Z) :
  same_shape ps a -> same_shape ps (PhotoSystem.setDetailLayout a index).
Proof.
  intro H. destruct (setDetailLayout_cases a index) as [E | T].
  - rewrite E. exact H.
  - apply (same_shape_trans _ _ _ H).
    apply (same_shape_trans _ (enterDetail index a));
      [unfold same_shape; simpl; auto 10 |].
    apply arrays_only_same_shape, targets_only_arrays_only, T.
Qed.

Lemma nextPhoto_same_shape (ps a : PhotoSystem.t) :
  same_shape ps a -> same_shape ps (PhotoSystem.nextPhoto a).
Proof.
  intro H. unfold PhotoSystem.nextPhoto.
  destruct (negb (LayoutState_eqb (PhotoSystem.state a) DETAIL));
    [exact H | apply setDetailLayout_same_shape, H].
Qed.

Lemma prevPhoto_same_shape (ps a : PhotoSystem.t) :
  same_shape ps a -> same_shape ps (PhotoSystem.prevPhoto a).
Proof.
  intro H. unfold PhotoSystem.prevPhoto.
  destruct (negb (LayoutState_eqb (PhotoSystem.state a) DETAIL));
    [exact H | apply setDetailLayout_same_shape, H].
Qed.

Lemma setExpansion_same_shape (ps a : PhotoSystem.t) (factor : Q) :
  same_shape ps a -> same_shape ps (PhotoSystem.setExpansion a factor).
Proof.
  unfold PhotoSystem.setExpansion.
  destruct (LayoutState_eqb (PhotoSystem.state a) SPHERE); auto.
Qed.

Lemma rotateSphere_same_shape (ps a : PhotoSystem.t) (dx dy : Q) :
  same_shape ps a -> same_shape ps (PhotoSystem.rotateSphere a dx dy).
Proof. intro H. exact H. Qed.

Lemma setSphereLayout_same_shape (ps a : PhotoSystem.t) :
  same_shape ps a -> same_shape ps (PhotoSystem.setSphereLayout a).
Proof. intro H. exact H. Qed.

#[local] Hint Resolve same_shape_refl setDetailLayout_same_shape
  nextPhoto_same_shape prevPhoto_same_shape setExpansion_same_shape
  rotateSphere_same_shape setSphereLayout_same_shape : layout.

Lemma interact_same_shape (vm : VisionManager.t) (hoveredIndex : Z)
      (ps : PhotoSystem.t) :
  same_shape ps (interact vm hoveredIndex ps).
Proof.
  unfold interact. destruct (PhotoSystem.state ps); split_ifs;
    auto 8 with layout.
Qed.

Section Shape.

Variable Math_sqrt : Q -> Q.
Variable Math_sin : Q -> Q.
Variable Math_cos : Q -> Q.
Variable Math_PI : Q.
Variable applyEuler : Vec3 -> Euler -> Vec3.
Variable lookAt : Vec3 -> Vec3 -> Quaternion.
Variable slerp : Quaternion -> Quaternion -> Q -> Quaternion.

Local Abbreviation tick := (tick Math_sqrt Math_sin applyEuler lookAt slerp).
Local Abbreviation run := (run Math_sqrt Math_sin applyEuler lookAt slerp).
Local Abbreviation initialWorld :=
  (initialWorld Math_sqrt Math_sin Math_cos Math_PI).

Lemma update_same_shape (ps : PhotoSystem.t) (dateNow : Q) :
  same_shape ps (PhotoSystem.update Math_sin applyEuler lookAt slerp ps dateNow).
Proof.
  apply (same_shape_trans _ (PhotoSystem.autoRotate Math_sin (dateNow * 0.001) ps)).
  - unfold PhotoSystem.autoRotate.
    destruct (PhotoSystem.state ps); unfold same_shape; simpl; auto 10.
  - apply arrays_only_same_shape, update_arrays_only.
Qed.

Lemma tick_same_shape (w : World) (inp : TickInput) :
  same_shape (photoSystem w) (photoSystem (tick w inp)).
Proof.
  rewrite tick_photoSystem.
  eapply same_shape_trans; [| apply update_same_shape].
  eapply same_shape_trans; [| apply interact_same_shape].
  unfold hoveredSystem.
  eapply same_shape_trans; [| apply setHovered_same_shape].
  apply (fold_left_preorder same_shape).
  - apply same_shape_refl.
  - apply same_shape_trans.
  - apply onTextureLoad_same_shape.
Qed.

(** In every world of a run the per-photo arrays have [count] entries, so
    the model never reads or writes them out of range. *)
Lemma reachable_wf (count : nat) (inps : list TickInput) :
  PhotoSystem.wf (photoSystem (run (initialWorld count) inps))
  /\ PhotoSystem.count (photoSystem (run (initialWorld count) inps)) = count.
Proof.
  assert (H : forall w,
             same_shape (photoSystem w) (photoSystem (run w inps))).
  { induction inps as [|inp inps IH]; intro w.
    - apply same_shape_refl.
    - change (run w (inp :: inps)) with (run (tick w inp) inps).
      eapply same_shape_trans; [apply tick_same_shape | apply IH]. }
  specialize (H (initialWorld count)).
  assert (W : PhotoSystem.wf (photoSystem (initialWorld count))).
  { unfold PhotoSystem.wf. cbn.
    unfold PhotoSystem.generateSphereLayout.
    rewrite !repeat_length, length_map, length_seq. auto. }
  split; [exact (same_shape_wf _ _ H W) |].
  destruct H as [C _]. rewrite C. reflexivity.
Qed.

End Shape.

(** ** The classifier, stage by stage *)

Lemma classifyFist_pose (closed : nat) (h : HandData) :
  poseOf (VisionManager.classifyFist closed h) = poseOf h
  /\ lastGestureTime (VisionManager.classifyFist closed h) = lastGestureTime h.
Proof.
  unfold VisionManager.classifyFist. destruct (3 <=? closed)%nat; auto.
Qed.

Lemma classifySwipe_pose (closed : nat) (now : Q) (h : HandData) :
  poseOf (VisionManager.classifySwipe closed now h) = poseOf h.
Proof.
  unfold VisionManager.classifySwipe. split_ifs; reflexivity.
Qed.

Lemma poseOf_fields (a b : HandData) :
  poseOf a = poseOf b ->
  detected a = detected b /\ position a = position b
  /\ pinchDistance a = pinchDistance b /\ isPinching a = isPinching b
  /\ velocity a = velocity b /\ lastPosition a = lastPosition b
  /\ rotationSpeed a = rotationSpeed b /\ cursor a = cursor b
  /\ lastPinchTime a = lastPinchTime b.
Proof.
  unfold poseOf. intro E. injection E as E1 E2 E3 E4 E5 E6 E7 E8 E9.
  repeat split; assumption.
Qed.

(** The swipe stage returns its argument, or fires: then the hand had no
    gesture, was not pinching, had fewer than three closed fingers and its
    last swipe was more than 400 ms ago. *)
Lemma classifySwipe_cases (closed : nat) (now : Q) (h : HandData) :
  VisionManager.classifySwipe closed now h = h
  \/ (isSwipe (gesture (VisionManager.classifySwipe closed now h)) = true
      /\ lastGestureTime (VisionManager.classifySwipe closed now h) = now
      /\ gesture h = NONE
      /\ isPinching h = false
      /\ (closed < 3)%nat
      /\ 400 < now - lastGestureTime h).
Proof.
  unfold VisionManager.classifySwipe.
  destruct (Gesture_eqb (gesture h) NONE) eqn:G; [| left; reflexivity].
  destruct (isPinching h) eqn:P; [left; reflexivity |].
  destruct (closed <? 3)%nat eqn:C; [| left; reflexivity].
  destruct (Qgtb (now - lastGestureTime h) 400) eqn:T; [| left; reflexivity].
  cbn [andb negb]. cbv zeta.
  match goal with
  | |- (if ?c then _ else _) = _ \/ _ => destruct c; [right | left; reflexivity]
  end.
  cbn [gesture lastGestureTime]. repeat split.
  - split_ifs; reflexivity.
  - apply Gesture_eqb_eq, G.
  - apply Nat.ltb_lt, C.
  - apply Qltb_true, T.
Qed.

Lemma classifyPinch_tracks (now : Q) (k : HandData) :
  isPinching (VisionManager.classifyPinch now k)
  = Qltb (pinchDistance (VisionManager.classifyPinch now k)) 0.1.
Proof.
  unfold VisionManager.classifyPinch.
  destruct (Qltb (pinchDistance k) 0.1) eqn:C;
    destruct (isPinching k) eqn:P; cbn; rewrite ?C, ?P; reflexivity.
Qed.

(** The pinch stage on a rising edge, on a falling edge, and otherwise. *)
Lemma classifyPinch_cases (now : Q) (k : HandData) :
  (Qltb (pinchDistance k) 0.1 = true /\ isPinching k = false
   /\ isPinching (VisionManager.classifyPinch now k) = true
   /\ lastPinchTime (VisionManager.classifyPinch now k) = now
   /\ gesture (VisionManager.classifyPinch now k)
      = if Qltb (now - lastPinchTime k) 400 then DOUBLE_PINCH else PINCH_START)
  \/ (Qltb (pinchDistance k) 0.1 = false /\ isPinching k = true
      /\ isPinching (VisionManager.classifyPinch now k) = false
      /\ lastPinchTime (VisionManager.classifyPinch now k) = lastPinchTime k
      /\ gesture (VisionManager.classifyPinch now k) = PINCH_END)
  \/ (Qltb (pinchDistance k) 0.1 = isPinching k
      /\ isPinching (VisionManager.classifyPinch now k) = isPinching k
      /\ lastPinchTime (VisionManager.classifyPinch now k) = lastPinchTime k
      /\ gesture (VisionManager.classifyPinch now k) = NONE).
Proof.
  unfold VisionManager.classifyPinch.
  destruct (Qltb (pinchDistance k) 0.1) eqn:C;
    destruct (isPinching k) eqn:P; cbn; rewrite ?C, ?P; cbn; auto 10.
Qed.

Lemma classifyPinch_lastGestureTime (now : Q) (k : HandData) :
  lastGestureTime (VisionManager.classifyPinch now k) = lastGestureTime k.
Proof. unfold VisionManager.classifyPinch. split_ifs; reflexivity. Qed.

(** Before the swipe stage the gesture is NONE, a pinch event or FIST. *)
Lemma classifyFist_gesture (closed : nat) (now : Q) (k : HandData) :
  let p := VisionManager.classifyPinch now k in
  let f := VisionManager.classifyFist closed p in
  ((3 <= closed)%nat /\ gesture f = FIST)
  \/ ((closed < 3)%nat /\ f = p).
Proof.
  cbv zeta. destruct (Nat.le_gt_cases 3 closed) as [H | H].
  - left. split; [exact H |]. rewrite (classifyFist_closed _ _ H). reflexivity.
  - right. split; [exact H |]. apply classifyFist_open, H.
Qed.

Lemma isSwipe_not_pinch (g : Gesture) :
  isSwipe g = true -> isPinchEvent g = false /\ g <> FIST /\ g <> NONE.
Proof. destruct g; simpl; intro H; repeat split; congruence. Qed.

Section ClassifierFacts.

Variable Math_sqrt : Q -> Q.

Local Abbreviation updateKinematics := (VisionManager.updateKinematics Math_sqrt).
Local Abbreviation updateHandData := (VisionManager.updateHandData Math_sqrt).
Local Abbreviation closedFingers := (VisionManager.closedFingers Math_sqrt).

(** The fields of the result of [updateHandData] that come from the
    kinematics and from the pinch stage. *)
Lemma updateHandData_pose (h : HandData) (lm : Landmarks) (now : Q) :
  poseOf (updateHandData h lm now)
  = poseOf (VisionManager.classifyPinch now (updateKinematics h lm)).
Proof.
  unfold VisionManager.updateHandData.
  rewrite classifySwipe_pose. apply classifyFist_pose.
Qed.

Lemma updateKinematics_pinchDistance (h : HandData) (lm : Landmarks) :
  pinchDistance (updateKinematics h lm)
  = Math_min (Math_max ((rawPinch Math_sqrt lm - 0.03) / (0.25 - 0.03)) 0) 1.
Proof. reflexivity. Qed.

Lemma updateHandData_pinchDistance (h : HandData) (lm : Landmarks) (now : Q) :
  pinchDistance (updateHandData h lm now)
  = Math_min (Math_max ((rawPinch Math_sqrt lm - 0.03) / (0.25 - 0.03)) 0) 1.
Proof.
  pose proof (updateHandData_pose h lm now) as E.
  destruct (poseOf_fields _ _ E) as (_ & _ & Ef & _ & _ & _ & _ & _ & _); clear E; rename Ef into E.
  rewrite E. destruct (classifyPinch_pinch now (updateKinematics h lm)) as [P _].
  rewrite P. reflexivity.
Qed.

Lemma updateHandData_tracks (h : HandData) (lm : Landmarks) (now : Q) :
  isPinching (updateHandData h lm now)
  = Qltb (pinchDistance (updateHandData h lm now)) 0.1.
Proof.
  pose proof (updateHandData_pose h lm now) as E.
  destruct (poseOf_fields _ _ E) as (_ & _ & E1 & E2 & _ & _ & _ & _ & _).
  rewrite E1, E2. apply classifyPinch_tracks.
Qed.

(** X2.  After every call of [updateHandData] the flag [isPinching] is the
    outcome of the test [pinchDistance < 0.1] on the new pinch distance,
    whatever the flag was before. *)
Theorem X2_isPinching_tracks_threshold
        (h : HandData) (lm : Landmarks) (now : Q) :
  isPinching (updateHandData h lm now)
  = Qltb (pinchDistance (updateHandData h lm now)) 0.1.
Proof. apply updateHandData_tracks. Qed.

Lemma updateKinematics_keeps (h : HandData) (lm : Landmarks) :
  isPinching (updateKinematics h lm) = isPinching h
  /\ lastPinchTime (updateKinematics h lm) = lastPinchTime h
  /\ lastGestureTime (updateKinematics h lm) = lastGestureTime h
  /\ detected (updateKinematics h lm) = detected h.
Proof. repeat split; reflexivity. Qed.

(** The three ways a call of [updateHandData] ends: with FIST, with the
    result of the pinch stage, or with a swipe fired on that result. *)
Lemma updateHandData_cases (h : HandData) (lm : Landmarks) (now : Q) :
  let p := VisionManager.classifyPinch now (updateKinematics h lm) in
  let h' := updateHandData h lm now in
  ((3 <= closedFingers lm)%nat /\ gesture h' = FIST
   /\ lastGestureTime h' = lastGestureTime h)
  \/ ((closedFingers lm < 3)%nat /\ h' = p
      /\ lastGestureTime h' = lastGestureTime h)
  \/ ((closedFingers lm < 3)%nat /\ isSwipe (gesture h') = true
      /\ lastGestureTime h' = now
      /\ gesture p = NONE /\ isPinching h' = false
      /\ 400 < now - lastGestureTime h
      /\ h' = VisionManager.classifySwipe (closedFingers lm) now p).
Proof.
  cbv zeta. unfold VisionManager.updateHandData.
  set (k := updateKinematics h lm).
  assert (LG : lastGestureTime (VisionManager.classifyPinch now k)
               = lastGestureTime h)
    by (rewrite classifyPinch_lastGestureTime; reflexivity).
  destruct (classifyFist_gesture (closedFingers lm) now k) as [[C F] | [C F]].
  - left. split; [exact C |].
    rewrite classifySwipe_keeps by congruence.
    split; [exact F |].
    rewrite (proj2 (classifyFist_pose _ _)). exact LG.
  - rewrite F.
    destruct (classifySwipe_cases (closedFingers lm) now
                (VisionManager.classifyPinch now k))
      as [E | (S & T & G & P & _ & D)].
    + right. left. rewrite E. auto.
    + right. right. rewrite LG in D.
      repeat split; auto.
      pose proof (classifySwipe_pose (closedFingers lm) now
                    (VisionManager.classifyPinch now k)) as Q.
      destruct (poseOf_fields _ _ Q) as (_ & _ & _ & Qf & _ & _ & _ & _ & _); clear Q; rename Qf into Q. congruence.
Qed.

(** X3.  A call of [updateHandData] on a hand that was not pinching, with
    the new pinch distance below 0.1, sets [isPinching] and stamps
    [lastPinchTime] with the clock, whatever the fingers do.  It ends with
    FIST if three fingertips or more are closed; otherwise with
    DOUBLE_PINCH if the clock is less than 400 after the previous stamp,
    and with PINCH_START if not.  A call on a hand that was pinching, or
    with the new pinch distance at 0.1 or above, leaves [lastPinchTime] as
    it was. *)
Theorem X3_pinch_rising_edge (h : HandData) (lm : Landmarks) (now : Q) :
  let h' := updateHandData h lm now in
  (isPinching h = false ->
   Qltb (pinchDistance h') 0.1 = true ->
   lastPinchTime h' = now
   /\ isPinching h' = true
   /\ gesture h' = (if (3 <=? closedFingers lm)%nat then FIST
                    else if Qltb (now - lastPinchTime h) 400
                         then DOUBLE_PINCH else PINCH_START))
  /\ (isPinching h = true \/ Qltb (pinchDistance h') 0.1 = false ->
      lastPinchTime h' = lastPinchTime h).
Proof.
  cbv zeta.
  pose proof (updateHandData_pose h lm now) as E.
  destruct (poseOf_fields _ _ E) as (_ & _ & E1 & E2 & _ & _ & _ & _ & E3).
  rewrite E1, E2, E3.
  destruct (classifyPinch_pinch now (updateKinematics h lm)) as [PD _].
  rewrite PD.
  destruct (classifyPinch_cases now (updateKinematics h lm))
    as [(C & P & P' & T & G) | [(C & P & P' & T & G) | (C & P' & T & G)]];
    change (isPinching (updateKinematics h lm)) with (isPinching h) in *;
    change (lastPinchTime (updateKinematics h lm)) with (lastPinchTime h) in *.
  - split.
    + intros _ _. split; [exact T |]. split; [exact P' |].
      destruct (Nat.leb_spec 3 (closedFingers lm)) as [Hc | Hc].
      * apply updateHandData_fist, Hc.
      * rewrite (updateHandData_pinch Math_sqrt h lm now Hc)
          by (rewrite G; destruct (Qltb (now - lastPinchTime h) 400);
              reflexivity).
        exact G.
    + intros [H | H]; congruence.
  - split; [intros; congruence | auto].
  - split; [intros; congruence | auto].
Qed.

(** X4.  Pinch events come from edges only.  A call that ends with
    PINCH_START or DOUBLE_PINCH found the hand not pinching and leaves it
    pinching; a call that ends with PINCH_END found it pinching and leaves
    it not pinching; a call on a pinching hand that stays below the
    threshold, with fewer than three closed fingertips, ends with NONE. *)
Theorem X4_pinch_events_on_edges_only (h : HandData) (lm : Landmarks) (now : Q) :
  let h' := updateHandData h lm now in
  (isPinchStart (gesture h') = true ->
   isPinching h = false /\ isPinching h' = true /\ lastPinchTime h' = now)
  /\ (gesture h' = PINCH_END -> isPinching h = true /\ isPinching h' = false)
  /\ (isPinching h = true -> isPinching h' = true ->
      (closedFingers lm < 3)%nat -> gesture h' = NONE).
Proof.
  cbv zeta.
  pose proof (updateHandData_pose h lm now) as E.
  destruct (poseOf_fields _ _ E) as (_ & _ & _ & E2 & _ & _ & _ & _ & E3).
  rewrite E2, E3.
  destruct (updateHandData_cases h lm now)
    as [(C & F & _) | [(C & F & _) | (C & S & _ & G & P & _)]].
  - rewrite F. repeat split; try discriminate. intros; lia.
  - rewrite F.
    destruct (classifyPinch_cases now (updateKinematics h lm))
      as [(_ & P & P' & T & G) | [(_ & P & P' & T & G) | (_ & P' & T & G)]];
      change (isPinching (updateKinematics h lm)) with (isPinching h) in *;
      rewrite G, ?P'.
    + destruct (Qltb (now - lastPinchTime (updateKinematics h lm)) 400);
        repeat split; intros; auto; try congruence; discriminate.
    + repeat split; intros; auto; try congruence; discriminate.
    + repeat split; intros; auto; try congruence; discriminate.
  - destruct (isSwipe_not_pinch _ S) as (N1 & _ & _).
    rewrite <- E2, P.
    repeat split; intros; try congruence;
      destruct (gesture (updateHandData h lm now)); discriminate.
Qed.

(** X5.  A call of [updateHandData] ends with a swipe only if its clock is
    more than 400 after [lastGestureTime], the hand is not pinching and
    fewer than three fingertips are closed, and it then stamps
    [lastGestureTime] with the clock; a call that ends with anything else
    leaves [lastGestureTime] as it was. *)
Theorem X5_swipe_debounce (h : HandData) (lm : Landmarks) (now : Q) :
  let h' := updateHandData h lm now in
  (isSwipe (gesture h') = true ->
   400 < now - lastGestureTime h
   /\ lastGestureTime h' = now
   /\ isPinching h' = false
   /\ (closedFingers lm < 3)%nat)
  /\ (isSwipe (gesture h') = false -> lastGestureTime h' = lastGestureTime h).
Proof.
  cbv zeta.
  destruct (updateHandData_cases h lm now)
    as [(C & F & T) | [(C & F & T) | (C & S & T & G & P & D & _)]].
  - rewrite F. split; [discriminate | auto].
  - split; [| auto]. rewrite F.
    destruct (classifyPinch_gesture now (updateKinematics h lm)) as [G | G];
      cbv zeta in G.
    + rewrite G. discriminate.
    + destruct (gesture (VisionManager.classifyPinch now (updateKinematics h lm)));
        discriminate.
  - split; [auto | congruence].
Qed.

(** X6.  Of two consecutive calls of [updateHandData] on a hand whose
    clocks are at most 400 apart, at most one ends with a swipe. *)
Theorem X6_one_swipe_per_window
        (h : HandData) (lm1 lm2 : Landmarks) (t1 t2 : Q) :
  let h1 := updateHandData h lm1 t1 in
  let h2 := updateHandData h1 lm2 t2 in
  t2 - t1 <= 400 ->
  isSwipe (gesture h1) = true ->
  isSwipe (gesture h2) = false.
Proof.
  cbv zeta. intros W S1.
  destruct (updateHandData_cases h lm1 t1)
    as [(_ & F & _) | [(_ & F & _) | (_ & _ & T & _)]].
  - rewrite F in S1. discriminate.
  - rewrite F in S1.
    destruct (classifyPinch_gesture t1 (updateKinematics h lm1)) as [G | G];
      cbv zeta in G.
    + rewrite G in S1. discriminate.
    + destruct (gesture (VisionManager.classifyPinch t1 (updateKinematics h lm1)));
        discriminate.
  - destruct (updateHandData_cases (updateHandData h lm1 t1) lm2 t2)
      as [(_ & F & _) | [(_ & F & _) | (_ & _ & _ & _ & _ & D & _)]].
    + rewrite F. reflexivity.
    + rewrite F.
      destruct (classifyPinch_gesture t2
                  (updateKinematics (updateHandData h lm1 t1) lm2)) as [G | G];
        cbv zeta in G.
      * rewrite G. reflexivity.
      * destruct (gesture (VisionManager.classifyPinch t2
                    (updateKinematics (updateHandData h lm1 t1) lm2)));
          try discriminate; reflexivity.
    + rewrite T in D. lra.
Qed.

End ClassifierFacts.

Lemma Qabs_cases (x : Q) :
  (0 <= x /\ Qabs x == x) \/ (x <= 0 /\ Qabs x == - x).
Proof.
  destruct (Qlt_le_dec x 0) as [H | H].
  - right. split; [lra | apply Qabs_neg; lra].
  - left. split; [exact H | apply Qabs_pos, H].
Qed.

Lemma Qgtb_true (a b : Q) : Qgtb a b = true <-> b < a.
Proof. apply Qltb_true. Qed.

Lemma Qgtb_false (a b : Q) : Qgtb a b = false <-> a <= b.
Proof. apply Qltb_false. Qed.

(** The swipe stage on a hand without gesture: what a fired swipe says
    about the velocity. *)
Lemma classifySwipe_direction (closed : nat) (now : Q) (k : HandData) :
  let k' := VisionManager.classifySwipe closed now k in
  let sx := v2x (velocity k) * 100 in
  let sy := v2y (velocity k) * 100 in
  gesture k = NONE ->
  isSwipe (gesture k') = true ->
  (1.5 < Qabs sx \/ 1.5 < Qabs sy)
  /\ (gesture k' = SWIPE_RIGHT -> Qabs sy < Qabs sx /\ 0 < sx)
  /\ (gesture k' = SWIPE_LEFT -> Qabs sy < Qabs sx /\ sx < 0)
  /\ (gesture k' = SWIPE_DOWN -> Qabs sx <= Qabs sy /\ 0 < sy)
  /\ (gesture k' = SWIPE_UP -> Qabs sx <= Qabs sy /\ sy < 0).
Proof.
  cbv zeta. intros G. unfold VisionManager.classifySwipe.
  destruct (Gesture_eqb (gesture k) NONE && negb (isPinching k)
            && (closed <? 3)%nat && Qgtb (now - lastGestureTime k) 400);
    [| rewrite G; discriminate].
  cbv zeta. unfold Math_abs.
  destruct (Qgtb (Qabs (v2x (velocity k) * 100)) 1.5) eqn:TX;
    destruct (Qgtb (Qabs (v2y (velocity k) * 100)) 1.5) eqn:TY;
    cbn [orb]; try (rewrite G; discriminate);
    cbn [gesture];
    destruct (Qgtb (Qabs (v2x (velocity k) * 100))
                   (Qabs (v2y (velocity k) * 100))) eqn:D;
    destruct (Qgtb (v2x (velocity k) * 100) 0) eqn:PX;
    destruct (Qgtb (v2y (velocity k) * 100) 0) eqn:PY;
    intros _;
    rewrite ?Qgtb_true, ?Qgtb_false in *;
    destruct (Qabs_cases (v2x (velocity k) * 100)) as [[AX EX] | [AX EX]];
    destruct (Qabs_cases (v2y (velocity k) * 100)) as [[AY EY] | [AY EY]];
    rewrite EX, EY in *;
    repeat split; intros; try discriminate; try lra.
Qed.

Section KinematicsFacts.

Variable Math_sqrt : Q -> Q.

Local Abbreviation updateKinematics := (VisionManager.updateKinematics Math_sqrt).
Local Abbreviation updateHandData := (VisionManager.updateHandData Math_sqrt).
Local Abbreviation closedFingers := (VisionManager.closedFingers Math_sqrt).

(** X7.  A swipe needs speed and follows the dominant axis.  When a call of
    [updateHandData] ends with a swipe, the smoothed velocity times 100
    exceeds 1.5 in absolute value on some axis; SWIPE_RIGHT and SWIPE_LEFT
    mean that the x component dominates strictly and is positive or
    negative; SWIPE_DOWN and SWIPE_UP mean that the y component is at least
    as large and is positive or negative. *)
Theorem X7_swipe_direction (h : HandData) (lm : Landmarks) (now : Q) :
  let h' := updateHandData h lm now in
  let sx := v2x (velocity h') * 100 in
  let sy := v2y (velocity h') * 100 in
  isSwipe (gesture h') = true ->
  (1.5 < Qabs sx \/ 1.5 < Qabs sy)
  /\ (gesture h' = SWIPE_RIGHT -> Qabs sy < Qabs sx /\ 0 < sx)
  /\ (gesture h' = SWIPE_LEFT -> Qabs sy < Qabs sx /\ sx < 0)
  /\ (gesture h' = SWIPE_DOWN -> Qabs sx <= Qabs sy /\ 0 < sy)
  /\ (gesture h' = SWIPE_UP -> Qabs sx <= Qabs sy /\ sy < 0).
Proof.
  cbv zeta. intro S.
  destruct (updateHandData_cases Math_sqrt h lm now)
    as [(_ & F & _) | [(_ & F & _) | (_ & _ & _ & G & _ & _ & E)]].
  - rewrite F in S. discriminate.
  - rewrite F in S.
    destruct (classifyPinch_gesture now (updateKinematics h lm)) as [G | G];
      cbv zeta in G.
    + rewrite G in S. discriminate.
    + destruct (gesture (VisionManager.classifyPinch now (updateKinematics h lm)));
        discriminate.
  - rewrite E in *.
    pose proof (classifySwipe_pose (closedFingers lm) now
                  (VisionManager.classifyPinch now (updateKinematics h lm))) as Q.
    destruct (poseOf_fields _ _ Q) as (_ & _ & _ & _ & Qf & _ & _ & _ & _); clear Q; rename Qf into Q. rewrite Q.
    apply classifySwipe_direction; assumption.
Qed.

(** X8.  The pinch distance is the thumb-to-index distance remapped from
    [0.03, 0.25] to [0, 1] and saturated: 0 up to 0.03, 1 from 0.25 on,
    linear in between.  The hand is pinching after the call exactly when
    that distance is below 0.052. *)
Theorem X8_pinch_remap (h : HandData) (lm : Landmarks) (now : Q) :
  let h' := updateHandData h lm now in
  let raw := rawPinch Math_sqrt lm in
  (raw <= 0.03 -> pinchDistance h' == 0)
  /\ (0.25 <= raw -> pinchDistance h' == 1)
  /\ (0.03 <= raw <= 0.25 -> pinchDistance h' == (raw - 0.03) / 0.22)
  /\ (isPinching h' = true <-> raw < 0.052).
Proof.
  cbv zeta. rewrite (updateHandData_tracks Math_sqrt).
  rewrite (updateHandData_pinchDistance Math_sqrt).
  set (raw := rawPinch Math_sqrt lm).
  assert (F : (raw - 0.03) / (0.25 - 0.03) == (raw - 0.03) * (100 # 22))
    by field.
  assert (F' : (raw - 0.03) / 0.22 == (raw - 0.03) * (100 # 22)) by field.
  rewrite Qltb_true, F'.
  unfold Math_min, Math_max. split_comparisons; rewrite ?F in *;
    repeat split; intros; lra.
Qed.

End KinematicsFacts.

(** The deadzone function gives equal numbers on equal numbers. *)
Lemma deadzone_compat (a b : Q) :
  a == b -> VisionManager.deadzone a == VisionManager.deadzone b.
Proof.
  intro H. unfold VisionManager.deadzone, Math_abs.
  destruct (Qgtb (Qabs a) 0.1) eqn:A; destruct (Qgtb (Qabs b) 0.1) eqn:B;
    destruct (Qgtb a 0) eqn:P; destruct (Qgtb b 0) eqn:P';
    rewrite ?Qgtb_true, ?Qgtb_false in *;
    rewrite ?H in *; lra.
Qed.

(** The deadzone function: its absolute value is twice the excess of the
    absolute offset over 0.1, opposite offsets give opposite values, and
    the value has the sign of the offset. *)
Lemma deadzone_shape (d e : Q) :
  Qabs (VisionManager.deadzone d) == 2 * Math_max 0 (Qabs d - 0.1)
  /\ (e == - d -> VisionManager.deadzone e == - VisionManager.deadzone d)
  /\ 0 <= d * VisionManager.deadzone d.
Proof.
  assert (K : Qabs (VisionManager.deadzone d) == 2 * Math_max 0 (Qabs d - 0.1)
              /\ VisionManager.deadzone (- d) == - VisionManager.deadzone d
              /\ 0 <= d * VisionManager.deadzone d).
  { unfold VisionManager.deadzone, Math_abs, Math_max.
    destruct (Qgtb (Qabs d) 0.1) eqn:A; destruct (Qgtb (Qabs (- d)) 0.1) eqn:A';
      destruct (Qgtb d 0) eqn:P; destruct (Qgtb (- d) 0) eqn:P';
      destruct (Qle_bool 0 (Qabs d - 0.1)) eqn:L;
      rewrite ?Qgtb_true, ?Qgtb_false, ?Qle_bool_iff, ?Qle_bool_false in *;
      rewrite ?Qabs_opp in *;
      destruct (Qabs_cases d) as [[D E] | [D E]];
      match goal with
      | |- Qabs ?x == _ /\ _ =>
          destruct (Qabs_cases x) as [[D1 E1] | [D1 E1]]; rewrite E1
      end;
      rewrite ?E in *; repeat split; try lra; nra. }
  destruct K as (K1 & K2 & K3).
  split; [exact K1 |]. split; [| exact K3].
  intro H. rewrite (deadzone_compat e (- d) H). exact K2.
Qed.

Section RotationFacts.

Variable Math_sqrt : Q -> Q.

Local Abbreviation updateHandData := (VisionManager.updateHandData Math_sqrt).

(** The position and the rotation speed [updateHandData] stores. *)
Lemma updateHandData_rotationSpeed (h : HandData) (lm : Landmarks) (now : Q) :
  position (updateHandData h lm now)
  = mkVec3 ((v3x (lm 0%nat) + v3x (lm 5%nat) + v3x (lm 17%nat)) / 3)
           ((v3y (lm 0%nat) + v3y (lm 5%nat) + v3y (lm 17%nat)) / 3)
           ((v3z (lm 0%nat) + v3z (lm 5%nat) + v3z (lm 17%nat)) / 3)
  /\ rotationSpeed (updateHandData h lm now)
     = mkVec2
         (VisionManager.deadzone
            (v3x (position (updateHandData h lm now)) - 0.5))
         (VisionManager.deadzone
            (v3y (position (updateHandData h lm now)) - 0.5)).
Proof.
  pose proof (updateHandData_pose Math_sqrt h lm now) as E.
  destruct (poseOf_fields _ _ E) as (_ & Ep & _ & _ & _ & _ & Er & _ & _).
  rewrite Er, Ep. unfold VisionManager.classifyPinch.
  split_ifs; split; reflexivity.
Qed.

(** X9.  After every call of [updateHandData] the position of the hand is
    the mean of the wrist and the two knuckles, and the rotation speed is
    the deadzone function of the offset of that position from the centre
    0.5, on each axis: its absolute value is twice the excess of the
    absolute offset over 0.1 (0 inside the deadzone), it has the sign of
    the offset, and two calls with opposite offsets store opposite
    speeds.  The state of the hand before the call plays no part. *)
Theorem X9_rotation_speed_deadzone
        (h : HandData) (lm : Landmarks) (now : Q) :
  let h' := updateHandData h lm now in
  let dx := v3x (position h') - 0.5 in
  let dy := v3y (position h') - 0.5 in
  position h'
  = mkVec3 ((v3x (lm 0%nat) + v3x (lm 5%nat) + v3x (lm 17%nat)) / 3)
           ((v3y (lm 0%nat) + v3y (lm 5%nat) + v3y (lm 17%nat)) / 3)
           ((v3z (lm 0%nat) + v3z (lm 5%nat) + v3z (lm 17%nat)) / 3)
  /\ Qabs (v2x (rotationSpeed h')) == 2 * Math_max 0 (Qabs dx - 0.1)
  /\ Qabs (v2y (rotationSpeed h')) == 2 * Math_max 0 (Qabs dy - 0.1)
  /\ 0 <= dx * v2x (rotationSpeed h')
  /\ 0 <= dy * v2y (rotationSpeed h')
  /\ (forall (h2 : HandData) (lm2 : Landmarks) (now2 : Q),
        let h2' := updateHandData h2 lm2 now2 in
        (v3x (position h2') - 0.5 == - dx ->
         v2x (rotationSpeed h2') == - v2x (rotationSpeed h'))
        /\ (v3y (position h2') - 0.5 == - dy ->
            v2y (rotationSpeed h2') == - v2y (rotationSpeed h'))).
Proof.
  cbv zeta.
  destruct (updateHandData_rotationSpeed h lm now) as (Ep & Er).
  split; [exact Ep |].
  rewrite Er. cbn [v2x v2y].
  set (dx := v3x (position (updateHandData h lm now)) - 0.5).
  set (dy := v3y (position (updateHandData h lm now)) - 0.5).
  destruct (deadzone_shape dx dx) as (Ax & _ & Sx).
  destruct (deadzone_shape dy dy) as (Ay & _ & Sy).
  do 4 (split; [assumption |]).
  intros h2 lm2 now2.
  destruct (updateHandData_rotationSpeed h2 lm2 now2) as (_ & Er2).
  rewrite Er2. cbn [v2x v2y]. split; intro H.
  - exact (proj1 (proj2 (deadzone_shape dx _)) H).
  - exact (proj1 (proj2 (deadzone_shape dy _)) H).
Qed.

End RotationFacts.

Section CursorFacts.

Variable Math_sqrt : Q -> Q.

Local Abbreviation updateKinematics := (VisionManager.updateKinematics Math_sqrt).
Local Abbreviation updateHandData := (VisionManager.updateHandData Math_sqrt).

Lemma updateHandData_cursor (h : HandData) (lm : Landmarks) (now : Q) :
  cursor (updateHandData h lm now)
  = mkVec2 (v2x (cursor h) + (1 - v3x (lm 8%nat) - v2x (cursor h)) * 0.2)
           (v2y (cursor h) + (v3y (lm 8%nat) - v2y (cursor h)) * 0.2).
Proof.
  pose proof (updateHandData_pose Math_sqrt h lm now) as E.
  destruct (poseOf_fields _ _ E) as (_ & _ & _ & _ & _ & _ & _ & Ef & _); clear E; rename Ef into E.
  rewrite E. unfold VisionManager.classifyPinch. split_ifs; reflexivity.
Qed.

(** X10.  Each call of [updateHandData] moves the cursor a fifth of the way
    to its target, the mirrored index fingertip [(1 - x, y)]: the remaining
    offset is 0.8 times the previous one.  With the fingertip in the unit
    square, a cursor in the unit square stays there. *)
Theorem X10_cursor_smoothing (h : HandData) (lm : Landmarks) (now : Q) :
  let h' := updateHandData h lm now in
  let tx := 1 - v3x (lm 8%nat) in
  let ty := v3y (lm 8%nat) in
  tx - v2x (cursor h') == 0.8 * (tx - v2x (cursor h))
  /\ ty - v2y (cursor h') == 0.8 * (ty - v2y (cursor h))
  /\ (in01 (v3x (lm 8%nat)) -> in01 (v3y (lm 8%nat)) ->
      in01 (v2x (cursor h)) -> in01 (v2y (cursor h)) ->
      in01 (v2x (cursor h')) /\ in01 (v2y (cursor h'))).
Proof.
  cbv zeta. rewrite updateHandData_cursor. cbn [v2x v2y]. unfold in01.
  repeat split; intros; try lra.
Qed.

End CursorFacts.

(** The theorem on the first sighting of a fist whose thumb touches the
    index fingertip: the call ends with FIST and stamps [lastPinchTime]. *)
Lemma X3_witness :
  let h := VisionManager.setDetected true VisionManager.createEmptyHandData in
  let lm := Sample.closedHand (mkVec3 0.5 0.5 0) in
  let h' := Sample.updateHandData h lm 1000 in
  isPinching h = false
  /\ Qltb (pinchDistance h') 0.1 = true
  /\ lastPinchTime h' = 1000
  /\ isPinching h' = true
  /\ gesture h' = FIST.
Proof.
  intros h lm h'.
  assert (P : isPinching h = false) by reflexivity.
  assert (C : Qltb (pinchDistance h') 0.1 = true) by (vm_compute; reflexivity).
  do 2 (split; [assumption |]).
  exact (proj1 (X3_pinch_rising_edge Sample.sqrt h lm 1000) P C).
Defined.

(** The theorem on the same call. *)
Lemma X4_witness :
  let h := VisionManager.setDetected true VisionManager.createEmptyHandData in
  let lm := Sample.pinchingHand (mkVec3 0.5 0.5 0) in
  let h' := Sample.updateHandData h lm 1000 in
  isPinchStart (gesture h') = true
  /\ isPinching h = false /\ isPinching h' = true /\ lastPinchTime h' = 1000.
Proof.
  intros h lm h'.
  assert (S : isPinchStart (gesture h') = true) by (vm_compute; reflexivity).
  split; [exact S |].
  exact (proj1 (X4_pinch_events_on_edges_only Sample.sqrt h lm 1000) S).
Defined.

(** The theorem on the second sighting of the hand: SWIPE_RIGHT. *)
Lemma X5_witness :
  let lm := Sample.openHand (mkVec3 0.5 0.5 0) in
  let h' := Sample.updateHandData swipingHand lm 1100 in
  isSwipe (gesture h') = true
  /\ 400 < 1100 - lastGestureTime swipingHand
  /\ lastGestureTime h' = 1100
  /\ isPinching h' = false
  /\ (VisionManager.closedFingers Sample.sqrt lm < 3)%nat.
Proof.
  intros lm h'.
  assert (S : isSwipe (gesture h') = true) by (vm_compute; reflexivity).
  split; [exact S |].
  exact (proj1 (X5_swipe_debounce Sample.sqrt swipingHand lm 1100) S).
Defined.

(** The theorem on the second and a third sighting, 100 ms apart. *)
Lemma X6_witness :
  let lm1 := Sample.openHand (mkVec3 0.5 0.5 0) in
  let lm2 := Sample.openHand (mkVec3 0.7 0.5 0) in
  let h1 := Sample.updateHandData swipingHand lm1 1100 in
  let h2 := Sample.updateHandData h1 lm2 1200 in
  1200 - 1100 <= 400
  /\ isSwipe (gesture h1) = true
  /\ isSwipe (gesture h2) = false.
Proof.
  intros lm1 lm2 h1 h2.
  assert (W : 1200 - 1100 <= 400) by lra.
  assert (S : isSwipe (gesture h1) = true) by (vm_compute; reflexivity).
  repeat (split; [assumption |]).
  exact (X6_one_swipe_per_window Sample.sqrt swipingHand lm1 lm2 1100 1200 W S).
Defined.

(** The theorem on the second sighting. *)
Lemma X7_witness :
  let lm := Sample.openHand (mkVec3 0.5 0.5 0) in
  let h' := Sample.updateHandData swipingHand lm 1100 in
  let sx := v2x (velocity h') * 100 in
  let sy := v2y (velocity h') * 100 in
  isSwipe (gesture h') = true
  /\ (1.5 < Qabs sx \/ 1.5 < Qabs sy)
  /\ (gesture h' = SWIPE_RIGHT -> Qabs sy < Qabs sx /\ 0 < sx)
  /\ (gesture h' = SWIPE_LEFT -> Qabs sy < Qabs sx /\ sx < 0)
  /\ (gesture h' = SWIPE_DOWN -> Qabs sx <= Qabs sy /\ 0 < sy)
  /\ (gesture h' = SWIPE_UP -> Qabs sx <= Qabs sy /\ sy < 0).
Proof.
  intros lm h' sx sy.
  assert (S : isSwipe (gesture h') = true) by (vm_compute; reflexivity).
  split; [exact S |].
  exact (X7_swipe_direction Sample.sqrt swipingHand lm 1100 S).
Defined.

(** The theorem on a hand with thumb on index. *)
Lemma X8_witness :
  let h := VisionManager.setDetected true VisionManager.createEmptyHandData in
  let lm := Sample.pinchingHand (mkVec3 0.5 0.5 0) in
  rawPinch Sample.sqrt lm <= 0.03
  /\ pinchDistance (Sample.updateHandData h lm 1000) == 0.
Proof.
  intros h lm.
  assert (R : rawPinch Sample.sqrt lm <= 0.03) by (vm_compute; discriminate).
  split; [exact R |].
  exact (proj1 (X8_pinch_remap Sample.sqrt h lm 1000) R).
Defined.

(** The theorem on the first sighting of a hand. *)
Lemma X10_witness :
  let h := VisionManager.setDetected true VisionManager.createEmptyHandData in
  let lm := Sample.openHand (mkVec3 0.3 0.5 0) in
  let h' := Sample.updateHandData h lm 1000 in
  in01 (v3x (lm 8%nat)) /\ in01 (v3y (lm 8%nat))
  /\ in01 (v2x (cursor h)) /\ in01 (v2y (cursor h))
  /\ in01 (v2x (cursor h')) /\ in01 (v2y (cursor h')).
Proof.
  intros h lm h'.
  assert (A : in01 (v3x (lm 8%nat))) by (unfold in01; cbn; lra).
  assert (B : in01 (v3y (lm 8%nat))) by (unfold in01; cbn; lra).
  assert (C : in01 (v2x (cursor h))) by (unfold in01; cbn; lra).
  assert (D : in01 (v2y (cursor h))) by (unfold in01; cbn; lra).
  do 4 (split; [assumption |]).
  exact (proj2 (proj2 (X10_cursor_smoothing Sample.sqrt h lm 1000)) A B C D).
Defined.

(** ** Frames and the zoom factor *)

Section ZoomFacts.

Variable Math_sqrt : Q -> Q.

Local Abbreviation update := (VisionManager.update Math_sqrt).
Local Abbreviation applyDetection := (VisionManager.applyDetection Math_sqrt).
Local Abbreviation calculateHandsDistance :=
  (VisionManager.calculateHandsDistance Math_sqrt).

Lemma detections_lastVideoTime (ds : list Detection) (vm : VisionManager.t) :
  VisionManager.lastVideoTime (fold_left applyDetection ds vm)
  = VisionManager.lastVideoTime vm.
Proof.
  apply (fold_left_invariant applyDetection
           (fun a => VisionManager.lastVideoTime a
                     = VisionManager.lastVideoTime vm)); [| reflexivity].
  intros a d H. destruct (applyDetection_frame Math_sqrt a d) as (_ & _ & T).
  congruence.
Qed.

Lemma calculateHandsDistance_lastVideoTime (vm : VisionManager.t) :
  VisionManager.lastVideoTime (calculateHandsDistance vm)
  = VisionManager.lastVideoTime vm.
Proof.
  unfold VisionManager.calculateHandsDistance. split_ifs; reflexivity.
Qed.

(** X1.  [update] processes a video frame once: a second call with the
    same input changes nothing, and a call while the tracker is not ready
    changes nothing. *)
Theorem X1_frame_processed_once (vm : VisionManager.t) (inp : VisionInput) :
  update (update vm inp) inp = update vm inp
  /\ (trackerReady inp = false -> update vm inp = vm).
Proof.
  split.
  - destruct (update_cases Math_sqrt vm inp) as [P | E].
    + assert (T : VisionManager.lastVideoTime (update vm inp) = currentTime inp).
      { rewrite (update_processes _ _ _ P).
        rewrite calculateHandsDistance_lastVideoTime.
        change (VisionManager.lastVideoTime
                  (fold_left applyDetection (detections inp)
                     (VisionManager.beginFrame vm (currentTime inp)))
                = currentTime inp).
        rewrite detections_lastVideoTime. reflexivity. }
      destruct P as [R _].
      unfold VisionManager.update at 1. rewrite R, T.
      replace (Qeq_bool (currentTime inp) (currentTime inp)) with true
        by (symmetry; apply Qeq_bool_iff; reflexivity).
      reflexivity.
    + rewrite E. exact E.
  - intro R. unfold VisionManager.update. rewrite R. reflexivity.
Qed.

Lemma calculateHandsDistance_value (vm : VisionManager.t) :
  bothDetected vm = true ->
  VisionManager.handsDistance (calculateHandsDistance vm)
  = Math_max 0 (Math_min 1
      ((VisionManager.handsDistance vm * (1 - 0.3)
        + rawHandsDistance Math_sqrt vm * 0.3 - 0.15) / (0.8 - 0.15))).
Proof.
  unfold bothDetected. intro D.
  unfold VisionManager.calculateHandsDistance. rewrite D. reflexivity.
Qed.

Lemma calculateHandsDistance_keeps (vm : VisionManager.t) :
  bothDetected (calculateHandsDistance vm) = bothDetected vm
  /\ rawHandsDistance Math_sqrt (calculateHandsDistance vm)
     = rawHandsDistance Math_sqrt vm.
Proof.
  unfold bothDetected, rawHandsDistance.
  change (VisionManager.leftHand (calculateHandsDistance vm))
    with (handOf false (calculateHandsDistance vm)).
  change (VisionManager.rightHand (calculateHandsDistance vm))
    with (handOf true (calculateHandsDistance vm)).
  rewrite !calculateHandsDistance_hands. auto.
Qed.

Lemma remap_scaled (x d : Q) :
  (x * (1 - 0.3) + d * 0.3 - 0.15) / (0.8 - 0.15)
  == (0.7 * x + 0.3 * d - 0.15) * (100 # 65).
Proof. field. Qed.

(** X11.  The zoom factor drifts away from [3 - 6 * raw].  With both hands
    detected, one call of [calculateHandsDistance] can leave a value
    strictly between 0 and 1 unchanged only if that value is
    [3 - 6 * raw], where [raw] is the distance between the hands; with
    [raw] at most 1/3 a value in the unit interval never grows, and with
    [raw] at least 1/2 it never shrinks. *)
Theorem X11_zoom_drift (vm : VisionManager.t) :
  let x := VisionManager.handsDistance vm in
  let x' := VisionManager.handsDistance (calculateHandsDistance vm) in
  let raw := rawHandsDistance Math_sqrt vm in
  bothDetected vm = true ->
  (0 < x -> x < 1 -> x' == x -> x == 3 - 6 * raw)
  /\ (raw <= 1 # 3 -> in01 x -> x' <= x)
  /\ (1 # 2 <= raw -> in01 x -> x <= x').
Proof.
  cbv zeta. intro D. rewrite (calculateHandsDistance_value vm D).
  set (x := VisionManager.handsDistance vm).
  set (d := rawHandsDistance Math_sqrt vm).
  pose proof (remap_scaled x d) as F.
  unfold in01, Math_max, Math_min.
  split_comparisons; rewrite ?F in *; repeat split; intros; lra.
Qed.

(** One step with the hands at most [minDistance] apart, and one with the
    hands at least [maxDistance] apart. *)
Lemma calculateHandsDistance_upper (vm : VisionManager.t) (b b' : Q) :
  bothDetected vm = true ->
  rawHandsDistance Math_sqrt vm <= 0.15 ->
  VisionManager.handsDistance vm <= b ->
  0 <= b' -> 0.7 * b - 0.105 <= 0.65 * b' ->
  VisionManager.handsDistance (calculateHandsDistance vm) <= b'.
Proof.
  intros D R X B Hs. rewrite (calculateHandsDistance_value vm D).
  pose proof (remap_scaled (VisionManager.handsDistance vm)
                           (rawHandsDistance Math_sqrt vm)) as F.
  unfold Math_max, Math_min. split_comparisons; rewrite ?F in *; lra.
Qed.

Lemma calculateHandsDistance_lower (vm : VisionManager.t) (b b' : Q) :
  bothDetected vm = true ->
  0.8 <= rawHandsDistance Math_sqrt vm ->
  b <= VisionManager.handsDistance vm ->
  b' <= 1 -> 0.65 * b' <= 0.7 * b + 0.09 ->
  b' <= VisionManager.handsDistance (calculateHandsDistance vm).
Proof.
  intros D R X B Hs. rewrite (calculateHandsDistance_value vm D).
  pose proof (remap_scaled (VisionManager.handsDistance vm)
                           (rawHandsDistance Math_sqrt vm)) as F.
  unfold Math_max, Math_min. split_comparisons; rewrite ?F in *; lra.
Qed.

Lemma iter_keeps (n : nat) (vm : VisionManager.t) :
  bothDetected (Nat.iter n calculateHandsDistance vm) = bothDetected vm
  /\ rawHandsDistance Math_sqrt (Nat.iter n calculateHandsDistance vm)
     = rawHandsDistance Math_sqrt vm.
Proof.
  induction n as [|n [IH1 IH2]]; [auto |].
  change (Nat.iter (S n) calculateHandsDistance vm)
    with (calculateHandsDistance (Nat.iter n calculateHandsDistance vm)).
  destruct (calculateHandsDistance_keeps (Nat.iter n calculateHandsDistance vm))
    as [K1 K2].
  rewrite K1, K2. auto.
Qed.

(** X12.  The zoom factor saturates.  With both hands detected and held at
    most 0.15 apart, nine calls of [calculateHandsDistance] bring any
    [handsDistance] of at most 1 to 0; held at least 0.8 apart, six calls
    bring any non-negative [handsDistance] to 1. *)
Theorem X12_zoom_saturates (vm : VisionManager.t) :
  bothDetected vm = true ->
  (rawHandsDistance Math_sqrt vm <= 0.15 ->
   VisionManager.handsDistance vm <= 1 ->
   VisionManager.handsDistance (Nat.iter 9 calculateHandsDistance vm) == 0)
  /\ (0.8 <= rawHandsDistance Math_sqrt vm ->
      0 <= VisionManager.handsDistance vm ->
      VisionManager.handsDistance (Nat.iter 6 calculateHandsDistance vm) == 1).
Proof.
  intro D.
  assert (step_up : forall n b b',
             rawHandsDistance Math_sqrt vm <= 0.15 ->
             VisionManager.handsDistance (Nat.iter n calculateHandsDistance vm) <= b ->
             0 <= b' -> 0.7 * b - 0.105 <= 0.65 * b' ->
             VisionManager.handsDistance
               (Nat.iter (S n) calculateHandsDistance vm) <= b').
  { intros n b b' R X B Hs. destruct (iter_keeps n vm) as [K1 K2].
    change (Nat.iter (S n) calculateHandsDistance vm)
      with (calculateHandsDistance (Nat.iter n calculateHandsDistance vm)).
    apply (calculateHandsDistance_upper _ b b'); try assumption; congruence. }
  assert (step_down : forall n b b',
             0.8 <= rawHandsDistance Math_sqrt vm ->
             b <= VisionManager.handsDistance (Nat.iter n calculateHandsDistance vm) ->
             b' <= 1 -> 0.65 * b' <= 0.7 * b + 0.09 ->
             b' <= VisionManager.handsDistance
                     (Nat.iter (S n) calculateHandsDistance vm)).
  { intros n b b' R X B Hs. destruct (iter_keeps n vm) as [K1 K2].
    change (Nat.iter (S n) calculateHandsDistance vm)
      with (calculateHandsDistance (Nat.iter n calculateHandsDistance vm)).
    apply (calculateHandsDistance_lower _ b b'); try assumption; congruence. }
  assert (bounds : forall n,
             in01 (VisionManager.handsDistance
                     (Nat.iter (S n) calculateHandsDistance vm))).
  { intro n. destruct (iter_keeps n vm) as [K1 _].
    change (Nat.iter (S n) calculateHandsDistance vm)
      with (calculateHandsDistance (Nat.iter n calculateHandsDistance vm)).
    rewrite calculateHandsDistance_value by congruence.
    apply Math_max_min_in01. }
  split.
  - intros R X.
    pose proof (step_up 0%nat 1 0.916 R X ltac:(lra) ltac:(lra)) as H1.
    pose proof (step_up 1%nat _ 0.825 R H1 ltac:(lra) ltac:(lra)) as H2.
    pose proof (step_up 2%nat _ 0.727 R H2 ltac:(lra) ltac:(lra)) as H3.
    pose proof (step_up 3%nat _ 0.622 R H3 ltac:(lra) ltac:(lra)) as H4.
    pose proof (step_up 4%nat _ 0.509 R H4 ltac:(lra) ltac:(lra)) as H5.
    pose proof (step_up 5%nat _ 0.387 R H5 ltac:(lra) ltac:(lra)) as H6.
    pose proof (step_up 6%nat _ 0.256 R H6 ltac:(lra) ltac:(lra)) as H7.
    pose proof (step_up 7%nat _ 0.115 R H7 ltac:(lra) ltac:(lra)) as H8.
    pose proof (step_up 8%nat _ 0 R H8 ltac:(lra) ltac:(lra)) as H9.
    destruct (bounds 8%nat) as [L _]. lra.
  - intros R X.
    pose proof (step_down 0%nat 0 0.138 R X ltac:(lra) ltac:(lra)) as H1.
    pose proof (step_down 1%nat _ 0.287 R H1 ltac:(lra) ltac:(lra)) as H2.
    pose proof (step_down 2%nat _ 0.447 R H2 ltac:(lra) ltac:(lra)) as H3.
    pose proof (step_down 3%nat _ 0.619 R H3 ltac:(lra) ltac:(lra)) as H4.
    pose proof (step_down 4%nat _ 0.805 R H4 ltac:(lra) ltac:(lra)) as H5.
    pose proof (step_down 5%nat _ 1 R H5 ltac:(lra) ltac:(lra)) as H6.
    destruct (bounds 5%nat) as [_ U]. lra.
Qed.

End ZoomFacts.

(** The theorem on a frame that arrives before the tracker is ready. *)
Lemma X1_witness :
  let inp := mkVisionInput false 0
               [mkDetection "Right" (Sample.closedHand (mkVec3 0.5 0.5 0)) 1000] in
  trackerReady inp = false
  /\ Sample.update VisionManager.new inp = VisionManager.new.
Proof.
  intro inp.
  assert (R : trackerReady inp = false) by reflexivity.
  split; [exact R |].
  exact (proj2 (X1_frame_processed_once Sample.sqrt VisionManager.new inp) R).
Defined.

(** The theorem on one more call with the hands one unit apart. *)
Lemma X11_witness :
  let x := VisionManager.handsDistance handsApart in
  let x' := VisionManager.handsDistance
              (VisionManager.calculateHandsDistance Sample.sqrt handsApart) in
  bothDetected handsApart = true
  /\ 1 # 2 <= rawHandsDistance Sample.sqrt handsApart
  /\ in01 x
  /\ x <= x'.
Proof.
  intros x x'.
  assert (D : bothDetected handsApart = true) by (vm_compute; reflexivity).
  assert (R : 1 # 2 <= rawHandsDistance Sample.sqrt handsApart)
    by (vm_compute; discriminate).
  assert (I : in01 x) by (split; vm_compute; discriminate).
  do 3 (split; [assumption |]).
  exact (proj2 (proj2 (X11_zoom_drift Sample.sqrt handsApart D)) R I).
Defined.

(** The theorem on six more calls with the hands one unit apart. *)
Lemma X12_witness :
  bothDetected handsApart = true
  /\ 0.8 <= rawHandsDistance Sample.sqrt handsApart
  /\ 0 <= VisionManager.handsDistance handsApart
  /\ VisionManager.handsDistance
       (Nat.iter 6 (VisionManager.calculateHandsDistance Sample.sqrt) handsApart)
     == 1.
Proof.
  assert (D : bothDetected handsApart = true) by (vm_compute; reflexivity).
  assert (R : 0.8 <= rawHandsDistance Sample.sqrt handsApart)
    by (vm_compute; discriminate).
  assert (X : 0 <= VisionManager.handsDistance handsApart)
    by (vm_compute; discriminate).
  do 3 (split; [assumption |]).
  exact (proj2 (X12_zoom_saturates Sample.sqrt handsApart D) R X).
Defined.

(** ** The layout state machine *)

Lemma setDetailLayout_in_range (ps : PhotoSystem.t) (index : Z) :
  (0 <= index < Z.of_nat (PhotoSystem.count ps))%Z ->
  targets_only (enterDetail index ps) (PhotoSystem.setDetailLayout ps index).
Proof.
  intro H. unfold PhotoSystem.setDetailLayout.
  replace ((index <? 0) || (index >=? Z.of_nat (PhotoSystem.count ps)))%Z
    with false
    by (symmetry; apply orb_false_iff; split;
        [apply Z.ltb_ge | rewrite Z.geb_leb; apply Z.leb_gt]; lia).
  match goal with
  | |- targets_only _ (fold_left _ _ ?ps1) =>
      apply targets_only_trans with (b := ps1)
  end.
  - eexists. split; [reflexivity |]. simpl. apply set_nth_length.
  - apply (fold_left_preorder targets_only).
    + apply targets_only_refl.
    + apply targets_only_trans.
    + intros. apply parkOthers_targets_only.
Qed.

Lemma setDetailLayout_out_of_range (ps : PhotoSystem.t) (index : Z) :
  ~ (0 <= index < Z.of_nat (PhotoSystem.count ps))%Z ->
  PhotoSystem.setDetailLayout ps index = ps.
Proof.
  intro H. unfold PhotoSystem.setDetailLayout.
  replace ((index <? 0) || (index >=? Z.of_nat (PhotoSystem.count ps)))%Z
    with true; [reflexivity |].
  symmetry. apply orb_true_iff.
  destruct (Z.ltb_spec index 0); [left; reflexivity | right].
  rewrite Z.geb_leb. apply Z.leb_le. lia.
Qed.

(** The layout, selection, scale and number of photos after
    [setDetailLayout]. *)
Lemma setDetailLayout_control (ps : PhotoSystem.t) (index : Z) :
  let ps' := PhotoSystem.setDetailLayout ps index in
  let ok := ((0 <=? index) && (index <? Z.of_nat (PhotoSystem.count ps)))%Z in
  PhotoSystem.state ps' = (if ok then DETAIL else PhotoSystem.state ps)
  /\ PhotoSystem.selectedIndex ps'
     = (if ok then index else PhotoSystem.selectedIndex ps)
  /\ PhotoSystem.count ps' = PhotoSystem.count ps
  /\ PhotoSystem.sphereScale ps' = PhotoSystem.sphereScale ps
  /\ PhotoSystem.hoveredIndex ps' = PhotoSystem.hoveredIndex ps
  /\ PhotoSystem.explosionSystem ps' = PhotoSystem.explosionSystem ps.
Proof.
  cbv zeta.
  destruct ((0 <=? index) && (index <? Z.of_nat (PhotoSystem.count ps)))%Z eqn:R.
  - apply andb_true_iff in R. destruct R as [R1 R2].
    apply Z.leb_le in R1. apply Z.ltb_lt in R2.
    destruct (setDetailLayout_in_range ps index (conj R1 R2)) as (t & E & _).
    rewrite E. cbn. auto 10.
  - rewrite setDetailLayout_out_of_range; [auto 10 |].
    intros [R1 R2]. apply Z.leb_le in R1. apply Z.ltb_lt in R2.
    rewrite R1, R2 in R. discriminate.
Qed.

Lemma nextPhoto_control (ps : PhotoSystem.t) :
  PhotoSystem.state ps = DETAIL ->
  (0 <= PhotoSystem.selectedIndex ps < Z.of_nat (PhotoSystem.count ps))%Z ->
  let ps' := PhotoSystem.nextPhoto ps in
  PhotoSystem.state ps' = DETAIL
  /\ PhotoSystem.selectedIndex ps'
     = ((PhotoSystem.selectedIndex ps + 1) mod Z.of_nat (PhotoSystem.count ps))%Z
  /\ PhotoSystem.count ps' = PhotoSystem.count ps
  /\ PhotoSystem.sphereScale ps' = PhotoSystem.sphereScale ps
  /\ PhotoSystem.explosionSystem ps' = PhotoSystem.explosionSystem ps.
Proof.
  intros S R. cbv zeta. unfold PhotoSystem.nextPhoto. rewrite S. cbn [LayoutState_eqb negb].
  set (n := Z.of_nat (PhotoSystem.count ps)) in *.
  set (s := PhotoSystem.selectedIndex ps) in *.
  set (next := if (s + 1 >=? n)%Z then 0%Z else (s + 1)%Z).
  assert (N : next = ((s + 1) mod n)%Z /\ (0 <= next < n)%Z).
  { unfold next. rewrite Z.geb_leb.
    destruct (Z.leb_spec n (s + 1)) as [H | H].
    - replace (s + 1)%Z with n by lia. rewrite Z.mod_same by lia. lia.
    - rewrite Z.mod_small by lia. lia. }
  destruct N as [N1 N2].
  destruct (setDetailLayout_control ps next) as (A & B & C & D & _ & F).
  fold n in A, B.
  replace ((0 <=? next) && (next <? n))%Z with true in A, B
    by (symmetry; apply andb_true_iff; split;
        [apply Z.leb_le | apply Z.ltb_lt]; lia).
  rewrite A, B, C, D, F, <- N1. auto 10.
Qed.

Lemma prevPhoto_control (ps : PhotoSystem.t) :
  PhotoSystem.state ps = DETAIL ->
  (0 <= PhotoSystem.selectedIndex ps < Z.of_nat (PhotoSystem.count ps))%Z ->
  let ps' := PhotoSystem.prevPhoto ps in
  PhotoSystem.state ps' = DETAIL
  /\ PhotoSystem.selectedIndex ps'
     = ((PhotoSystem.selectedIndex ps - 1) mod Z.of_nat (PhotoSystem.count ps))%Z
  /\ PhotoSystem.count ps' = PhotoSystem.count ps
  /\ PhotoSystem.sphereScale ps' = PhotoSystem.sphereScale ps
  /\ PhotoSystem.explosionSystem ps' = PhotoSystem.explosionSystem ps.
Proof.
  intros S R. cbv zeta. unfold PhotoSystem.prevPhoto. rewrite S. cbn [LayoutState_eqb negb].
  set (n := Z.of_nat (PhotoSystem.count ps)) in *.
  set (s := PhotoSystem.selectedIndex ps) in *.
  set (prev := if (s - 1 <? 0)%Z then (n - 1)%Z else (s - 1)%Z).
  assert (N : prev = ((s - 1) mod n)%Z /\ (0 <= prev < n)%Z).
  { unfold prev.
    destruct (Z.ltb_spec (s - 1) 0) as [H | H].
    - replace (s - 1)%Z with (n - 1 + (-1) * n)%Z by lia.
      rewrite Z.mod_add by lia. rewrite Z.mod_small by lia. lia.
    - rewrite Z.mod_small by lia. lia. }
  destruct N as [N1 N2].
  destruct (setDetailLayout_control ps prev) as (A & B & C & D & _ & F).
  fold n in A, B.
  replace ((0 <=? prev) && (prev <? n))%Z with true in A, B
    by (symmetry; apply andb_true_iff; split;
        [apply Z.leb_le | apply Z.ltb_lt]; lia).
  rewrite A, B, C, D, F, <- N1. auto 10.
Qed.

(** X17.  In DETAIL with a valid selection, [nextPhoto] selects the next
    index modulo the number of photos and [prevPhoto] the previous one, both
    stay in DETAIL, and each undoes the other.  Outside DETAIL both do
    nothing. *)
Theorem X17_next_prev_wrap (ps : PhotoSystem.t) :
  let n := Z.of_nat (PhotoSystem.count ps) in
  let s := PhotoSystem.selectedIndex ps in
  (PhotoSystem.state ps = DETAIL -> (0 <= s < n)%Z ->
   PhotoSystem.selectedIndex (PhotoSystem.nextPhoto ps) = ((s + 1) mod n)%Z
   /\ PhotoSystem.selectedIndex (PhotoSystem.prevPhoto ps) = ((s - 1) mod n)%Z
   /\ PhotoSystem.state (PhotoSystem.nextPhoto ps) = DETAIL
   /\ PhotoSystem.state (PhotoSystem.prevPhoto ps) = DETAIL
   /\ PhotoSystem.selectedIndex (PhotoSystem.prevPhoto (PhotoSystem.nextPhoto ps))
      = s
   /\ PhotoSystem.selectedIndex (PhotoSystem.nextPhoto (PhotoSystem.prevPhoto ps))
      = s)
  /\ (PhotoSystem.state ps <> DETAIL ->
      PhotoSystem.nextPhoto ps = ps /\ PhotoSystem.prevPhoto ps = ps).
Proof.
  cbv zeta. split.
  - intros S R.
    destruct (nextPhoto_control ps S R) as (NS & NI & NC & _).
    destruct (prevPhoto_control ps S R) as (PS & PI & PC & _).
    assert (NR : (0 <= PhotoSystem.selectedIndex (PhotoSystem.nextPhoto ps)
                  < Z.of_nat (PhotoSystem.count (PhotoSystem.nextPhoto ps)))%Z).
    { rewrite NI, NC. apply Z.mod_pos_bound. lia. }
    assert (PR : (0 <= PhotoSystem.selectedIndex (PhotoSystem.prevPhoto ps)
                  < Z.of_nat (PhotoSystem.count (PhotoSystem.prevPhoto ps)))%Z).
    { rewrite PI, PC. apply Z.mod_pos_bound. lia. }
    destruct (prevPhoto_control _ NS NR) as (_ & PNI & _).
    destruct (nextPhoto_control _ PS PR) as (_ & NPI & _).
    repeat split; try assumption.
    + rewrite PNI, NI, NC.
      rewrite Zminus_mod_idemp_l.
      replace (PhotoSystem.selectedIndex ps + 1 - 1)%Z
        with (PhotoSystem.selectedIndex ps) by lia.
      apply Z.mod_small, R.
    + rewrite NPI, PI, PC.
      rewrite Zplus_mod_idemp_l.
      replace (PhotoSystem.selectedIndex ps - 1 + 1)%Z
        with (PhotoSystem.selectedIndex ps) by lia.
      apply Z.mod_small, R.
  - intro S. unfold PhotoSystem.nextPhoto, PhotoSystem.prevPhoto.
    destruct (PhotoSystem.state ps); try congruence; auto.
Qed.

Section InteractControl.

Variable vm : VisionManager.t.
Variable hoveredIndex : Z.

Local Abbreviation leftHand := (VisionManager.leftHand vm).
Local Abbreviation rightHand := (VisionManager.rightHand vm).

Lemma expanded_control (ps : PhotoSystem.t) :
  PhotoSystem.state ps = SPHERE ->
  PhotoSystem.state (expanded vm ps) = SPHERE
  /\ PhotoSystem.selectedIndex (expanded vm ps) = PhotoSystem.selectedIndex ps
  /\ PhotoSystem.count (expanded vm ps) = PhotoSystem.count ps
  /\ PhotoSystem.explosionSystem (expanded vm ps) = PhotoSystem.explosionSystem ps
  /\ PhotoSystem.sphereScale (expanded vm ps)
     = (if VisionManager.handsDetectedBoth vm
        then 0.5 + VisionManager.handsDistance vm * 2.05
        else PhotoSystem.sphereScale ps).
Proof.
  intro S. unfold expanded, PhotoSystem.setExpansion, VisionManager.zoomFactor.
  rewrite S. cbn [LayoutState_eqb].
  destruct (VisionManager.handsDetectedBoth vm); cbn; auto 10.
Qed.

(** The interaction logic in SPHERE. *)
Lemma interact_sphere_control (ps : PhotoSystem.t) :
  PhotoSystem.state ps = SPHERE ->
  let ps' := interact vm hoveredIndex ps in
  let selects :=
    detected rightHand && isPinchStart (gesture rightHand)
    && ((0 <=? hoveredIndex) && (hoveredIndex <? Z.of_nat (PhotoSystem.count ps)))%Z in
  PhotoSystem.state ps' = (if selects then DETAIL else SPHERE)
  /\ PhotoSystem.selectedIndex ps'
     = (if selects then hoveredIndex else PhotoSystem.selectedIndex ps)
  /\ PhotoSystem.count ps' = PhotoSystem.count ps
  /\ PhotoSystem.explosionSystem ps' = PhotoSystem.explosionSystem ps
  /\ PhotoSystem.sphereScale ps'
     = (if VisionManager.handsDetectedBoth vm
        then 0.5 + VisionManager.handsDistance vm * 2.05
        else PhotoSystem.sphereScale ps).
Proof.
  intro S. cbv zeta. unfold interact. rewrite S.
  fold (expanded vm ps).
  destruct (expanded_control ps S) as (S1 & I1 & C1 & E1 & Sc1).
  set (ps1 := expanded vm ps) in *. clearbody ps1.
  destruct (detected rightHand); cbn [andb].
  - set (ps2 := if negb (isPinching rightHand) then _ else ps1).
    assert (K : PhotoSystem.state ps2 = SPHERE
                /\ PhotoSystem.selectedIndex ps2 = PhotoSystem.selectedIndex ps
                /\ PhotoSystem.count ps2 = PhotoSystem.count ps
                /\ PhotoSystem.explosionSystem ps2 = PhotoSystem.explosionSystem ps
                /\ PhotoSystem.sphereScale ps2 = PhotoSystem.sphereScale ps1)
      by (unfold ps2; split_ifs; cbn; auto 10).
    clearbody ps2. destruct K as (S2 & I2 & C2 & E2 & Sc2).
    destruct (setDetailLayout_control ps2 hoveredIndex) as (A & B & C & D & _ & F).
    rewrite C2, S2, I2 in *.
    assert (M : (hoveredIndex =? -1)%Z = true ->
                ((0 <=? hoveredIndex)
                 && (hoveredIndex <? Z.of_nat (PhotoSystem.count ps)))%Z = false).
    { intro H. apply Z.eqb_eq in H. subst hoveredIndex. reflexivity. }
    destruct (gesture rightHand); cbn [Gesture_eqb isPinchStart andb negb];
      try (rewrite S2, I2, C2, E2, Sc2, Sc1; auto 10);
      (destruct (hoveredIndex =? -1)%Z;
       [rewrite (M eq_refl); cbn [negb];
        rewrite S2, I2, C2, E2, Sc2, Sc1; auto 10
       | cbn [negb]; rewrite A, B, C, D, F, E2, Sc2, Sc1;
         destruct ((0 <=? hoveredIndex)
                   && (hoveredIndex <? Z.of_nat (PhotoSystem.count ps)))%Z;
         auto 10]).
  - split_ifs; cbn; rewrite ?S1, ?I1, ?C1, ?E1, ?Sc1; auto 10.
Qed.

(** The interaction logic in DETAIL: layout, scale and explosion system. *)
Lemma interact_detail_control (ps : PhotoSystem.t) :
  PhotoSystem.state ps = DETAIL ->
  let ps' := interact vm hoveredIndex ps in
  let closes := detected rightHand && Gesture_eqb (gesture rightHand) FIST in
  PhotoSystem.state ps' = (if closes then SPHERE else DETAIL)
  /\ PhotoSystem.sphereScale ps'
     = (if closes then 1.0 else PhotoSystem.sphereScale ps)
  /\ PhotoSystem.count ps' = PhotoSystem.count ps
  /\ PhotoSystem.explosionSystem ps' = PhotoSystem.explosionSystem ps
  /\ (closes = true -> PhotoSystem.selectedIndex ps' = (-1)%Z).
Proof.
  intro S. cbv zeta. unfold interact. rewrite S.
  destruct (detected rightHand); cbn [andb];
    [| rewrite S; repeat split; auto; discriminate].
  set (ps1 := if Gesture_eqb _ SWIPE_LEFT then _ else _).
  assert (K : keeps_sphere ps ps1).
  { unfold ps1. split_ifs;
      [apply nextPhoto_keeps | apply prevPhoto_keeps | apply keeps_sphere_refl]. }
  clearbody ps1. destruct K as (C & E & _ & _ & Sc & St).
  assert (S1 : PhotoSystem.state ps1 = DETAIL) by (destruct St; congruence).
  destruct (Gesture_eqb (gesture rightHand) FIST).
  - unfold PhotoSystem.setSphereLayout. cbn. rewrite S1. cbn.
    repeat split; auto.
  - repeat split; auto; discriminate.
Qed.

End InteractControl.

(** The interaction logic in DETAIL: the selection. *)
Lemma interact_detail_selection (vm : VisionManager.t) (hoveredIndex : Z)
      (ps : PhotoSystem.t) :
  PhotoSystem.state ps = DETAIL ->
  (0 <= PhotoSystem.selectedIndex ps < Z.of_nat (PhotoSystem.count ps))%Z ->
  let right := VisionManager.rightHand vm in
  let n := Z.of_nat (PhotoSystem.count ps) in
  let s := PhotoSystem.selectedIndex ps in
  PhotoSystem.selectedIndex (interact vm hoveredIndex ps)
  = if detected right then
      match gesture right with
      | FIST => (-1)%Z
      | SWIPE_LEFT => ((s + 1) mod n)%Z
      | SWIPE_RIGHT => ((s - 1) mod n)%Z
      | _ => s
      end
    else s.
Proof.
  intros S R. cbv zeta. unfold interact. rewrite S.
  destruct (detected (VisionManager.rightHand vm)); [| reflexivity].
  destruct (nextPhoto_control ps S R) as (_ & N & _).
  destruct (prevPhoto_control ps S R) as (_ & P & _).
  destruct (gesture (VisionManager.rightHand vm)); cbn [Gesture_eqb];
    try reflexivity; assumption.
Qed.

Lemma interact_hoveredIndex (vm : VisionManager.t) (hoveredIndex : Z)
      (ps : PhotoSystem.t) :
  PhotoSystem.hoveredIndex (interact vm hoveredIndex ps)
  = PhotoSystem.hoveredIndex ps.
Proof.
  assert (D : forall a i, PhotoSystem.hoveredIndex (PhotoSystem.setDetailLayout a i)
                          = PhotoSystem.hoveredIndex a)
    by (intros a i; apply (setDetailLayout_control a i)).
  assert (N : forall a, PhotoSystem.hoveredIndex (PhotoSystem.nextPhoto a)
                        = PhotoSystem.hoveredIndex a)
    by (intro a; unfold PhotoSystem.nextPhoto; split_ifs; auto).
  assert (P : forall a, PhotoSystem.hoveredIndex (PhotoSystem.prevPhoto a)
                        = PhotoSystem.hoveredIndex a)
    by (intro a; unfold PhotoSystem.prevPhoto; split_ifs; auto).
  assert (X : forall a f, PhotoSystem.hoveredIndex (PhotoSystem.setExpansion a f)
                          = PhotoSystem.hoveredIndex a)
    by (intros a f; unfold PhotoSystem.setExpansion; split_ifs; auto).
  unfold interact. destruct (PhotoSystem.state ps); split_ifs;
    cbn [PhotoSystem.hoveredIndex PhotoSystem.setSphereLayout
         PhotoSystem.rotateSphere PhotoSystem.setSphereRotation];
    rewrite ?D, ?N, ?P, ?X; cbn [PhotoSystem.hoveredIndex
         PhotoSystem.rotateSphere PhotoSystem.setSphereRotation];
    rewrite ?D, ?N, ?P, ?X; reflexivity.
Qed.

Section FrameTable.

Variable Math_sqrt : Q -> Q.
Variable Math_sin : Q -> Q.
Variable Math_cos : Q -> Q.
Variable Math_PI : Q.
Variable applyEuler : Vec3 -> Euler -> Vec3.
Variable lookAt : Vec3 -> Vec3 -> Quaternion.
Variable slerp : Quaternion -> Quaternion -> Q -> Quaternion.

Local Abbreviation tick := (tick Math_sqrt Math_sin applyEuler lookAt slerp).
Local Abbreviation run := (run Math_sqrt Math_sin applyEuler lookAt slerp).
Local Abbreviation initialWorld :=
  (initialWorld Math_sqrt Math_sin Math_cos Math_PI).

Lemma hoveredSystem_selection (w : World) (inp : TickInput) :
  PhotoSystem.selectedIndex (hoveredSystem Math_sqrt w inp)
  = PhotoSystem.selectedIndex (photoSystem w)
  /\ PhotoSystem.hoveredIndex (hoveredSystem Math_sqrt w inp)
     = (if LayoutState_eqb (PhotoSystem.state (photoSystem w)) SPHERE
        then hoveredIndexOf Math_sqrt w inp
        else PhotoSystem.hoveredIndex (photoSystem w)).
Proof.
  unfold hoveredSystem, PhotoSystem.setHovered.
  pose proof (texturesLoaded_fields (texturesLoaded inp) (photoSystem w)) as F.
  unfold layoutFields in F. injection F as _ F2 _ F4 F5 _ _ _.
  rewrite F2.
  destruct (LayoutState_eqb (PhotoSystem.state (photoSystem w)) SPHERE);
    cbn; auto.
Qed.

(** In SPHERE with the right hand detected, the hovered index of the frame
    is in range exactly when the ray hits a photo. *)
Lemma hoveredIndexOf_hits (w : World) (inp : TickInput) :
  PhotoSystem.state (photoSystem w) = SPHERE ->
  let right := VisionManager.rightHand (visionManager (tick w inp)) in
  hoveredIndexOf Math_sqrt w inp
  = (if detected right
     then match raycastHit inp with Some id => id | None => (-1)%Z end
     else (-1)%Z)
  /\ detected right
     && ((0 <=? hoveredIndexOf Math_sqrt w inp)
         && (hoveredIndexOf Math_sqrt w inp
             <? Z.of_nat (PhotoSystem.count (photoSystem w))))%Z
     = detected right && hitsPhoto inp (photoSystem w).
Proof.
  intro S. cbv zeta. rewrite tick_visionManager.
  unfold hoveredIndexOf, hitsPhoto.
  pose proof (texturesLoaded_fields (texturesLoaded inp) (photoSystem w)) as F.
  unfold layoutFields in F. injection F as _ F2 _ _ _ _ _ _.
  rewrite F2, S. cbn [LayoutState_eqb].
  destruct (detected (VisionManager.rightHand
              (VisionManager.update Math_sqrt (visionManager w) (visionInput inp))));
    cbn [andb]; [| auto].
  destruct (raycastHit inp); auto.
Qed.

(** The layout, scale, number of photos and explosion system after a
    frame. *)
Lemma tick_control (w : World) (inp : TickInput) :
  let vm := visionManager (tick w inp) in
  PhotoSystem.state (photoSystem (tick w inp)) = nextLayout vm inp (photoSystem w)
  /\ PhotoSystem.sphereScale (photoSystem (tick w inp))
     = nextScale vm (photoSystem w)
  /\ PhotoSystem.count (photoSystem (tick w inp))
     = PhotoSystem.count (photoSystem w).
Proof.
  cbv zeta. rewrite tick_photoSystem.
  set (vm := visionManager (tick w inp)).
  set (ps2 := interact _ _ _).
  destruct (update_fields Math_sin applyEuler lookAt slerp ps2 (dateNow inp))
    as (C2 & S2 & _ & Sc2 & _).
  rewrite S2, Sc2, C2. unfold ps2. clear C2 S2 Sc2 ps2.
  destruct (hoveredSystem_fields Math_sqrt w inp) as (C1 & S1 & _ & _ & _ & Sc1).
  unfold nextLayout, nextScale.
  destruct (PhotoSystem.state (photoSystem w)) eqn:S.
  - rewrite interact_crystal_ball by exact S1.
    destruct (_ || _); cbn; auto.
  - destruct (interact_sphere_control vm (hoveredIndexOf Math_sqrt w inp)
                (hoveredSystem Math_sqrt w inp) S1) as (A & _ & C & _ & D).
    rewrite A, C, D, C1, Sc1.
    destruct (hoveredIndexOf_hits w inp S) as [_ H]. fold vm in H.
    destruct (detected (VisionManager.rightHand vm)); cbn [andb] in *;
      [| auto].
    destruct (isPinchStart (gesture (VisionManager.rightHand vm)));
      cbn [andb]; [| auto].
    rewrite H. auto.
  - destruct (interact_detail_control vm (hoveredIndexOf Math_sqrt w inp)
                (hoveredSystem Math_sqrt w inp) S1) as (A & B & C & _).
    rewrite A, B, C, C1, Sc1. auto.
Qed.

(** X14.  The layout and the scale after a frame are those of the
    transition table [nextLayout] and [nextScale]: CRYSTAL_BALL leaves for
    SPHERE at scale 1.0 on PINCH_START of either hand; SPHERE leaves for
    DETAIL when the detected right hand starts a pinch (PINCH_START or
    DOUBLE_PINCH) while the ray hits a photo, and takes the scale
    [0.5 + 2.05 * handsDistance] while both hands are detected; DETAIL
    leaves for SPHERE at scale 1.0 on FIST of the detected right hand; in
    every other case layout and scale stay. *)
Theorem X14_transition_table (w : World) (inp : TickInput) :
  let vm := visionManager (tick w inp) in
  PhotoSystem.state (photoSystem (tick w inp)) = nextLayout vm inp (photoSystem w)
  /\ PhotoSystem.sphereScale (photoSystem (tick w inp))
     = nextScale vm (photoSystem w).
Proof.
  cbv zeta. destruct (tick_control w inp) as (A & B & _). auto.
Qed.

Lemma tick_selection (w : World) (inp : TickInput) :
  selection_inv (photoSystem w) ->
  PhotoSystem.selectedIndex (photoSystem (tick w inp))
  = nextSelection (visionManager (tick w inp)) inp (photoSystem w)
  /\ selection_inv (photoSystem (tick w inp)).
Proof.
  intro I.
  assert (E : PhotoSystem.selectedIndex (photoSystem (tick w inp))
              = nextSelection (visionManager (tick w inp)) inp (photoSystem w)).
  { rewrite tick_photoSystem.
    set (vm := visionManager (tick w inp)).
    set (ps2 := interact _ _ _).
    destruct (arrays_only_fields _ _
                (update_arrays_only Math_sin applyEuler lookAt slerp ps2
                                    (dateNow inp)))
      as (_ & _ & _ & Sel & _).
    rewrite Sel.
    replace (PhotoSystem.selectedIndex
               (PhotoSystem.autoRotate Math_sin (dateNow inp * 0.001) ps2))
      with (PhotoSystem.selectedIndex ps2)
      by (unfold PhotoSystem.autoRotate; destruct (PhotoSystem.state ps2);
          reflexivity).
    unfold ps2. clear Sel ps2.
    destruct (hoveredSystem_fields Math_sqrt w inp) as (C1 & S1 & _).
    destruct (hoveredSystem_selection w inp) as [Sel1 _].
    unfold nextSelection, selection_inv in *.
    destruct (PhotoSystem.state (photoSystem w)) eqn:S.
    - rewrite interact_crystal_ball by exact S1.
      destruct (_ || _); cbn; congruence.
    - destruct (interact_sphere_control vm (hoveredIndexOf Math_sqrt w inp)
                  (hoveredSystem Math_sqrt w inp) S1) as (_ & B & _).
      rewrite B, C1, Sel1, I.
      destruct (hoveredIndexOf_hits w inp S) as [H1 H2]. fold vm in H1, H2.
      destruct (detected (VisionManager.rightHand vm)); cbn [andb] in *;
        [| reflexivity].
      destruct (isPinchStart (gesture (VisionManager.rightHand vm)));
        cbn [andb]; [| reflexivity].
      rewrite H2, H1. reflexivity.
    - rewrite interact_detail_selection by congruence.
      rewrite C1, Sel1. reflexivity. }
  split; [exact E |].
  destruct (tick_control w inp) as (St & _ & C).
  unfold selection_inv in *. rewrite E, St, C.
  unfold nextLayout, nextSelection, hitsPhoto.
  destruct (PhotoSystem.state (photoSystem w)) eqn:S.
  - split_ifs; reflexivity.
  - destruct (detected _); cbn [andb]; [| reflexivity].
    destruct (isPinchStart _); cbn [andb]; [| reflexivity].
    destruct (raycastHit inp) as [id |]; [| reflexivity].
    destruct ((0 <=? id) && (id <? Z.of_nat (PhotoSystem.count (photoSystem w))))%Z
      eqn:R; [| reflexivity].
    apply andb_true_iff in R. destruct R as [R1 R2].
    apply Z.leb_le in R1. apply Z.ltb_lt in R2. lia.
  - destruct (detected _); cbn [andb]; [| exact I].
    destruct (gesture _); cbn [Gesture_eqb]; try exact I; try reflexivity;
      apply Z.mod_pos_bound; lia.
Qed.

Lemma run_selection_inv (inps : list TickInput) (w : World) :
  selection_inv (photoSystem w) -> selection_inv (photoSystem (run w inps)).
Proof.
  revert w. induction inps as [|inp inps IH]; intros w I.
  - exact I.
  - change (run w (inp :: inps)) with (run (tick w inp) inps).
    apply IH, tick_selection, I.
Qed.

Lemma reachable_selection_inv (count : nat) (inps : list TickInput) :
  selection_inv (photoSystem (run (initialWorld count) inps)).
Proof. apply run_selection_inv. reflexivity. Qed.

(** X13.  In every world of a run from the initial world the selection
    agrees with the layout: in DETAIL [selectedIndex] is the index of a
    photo, in CRYSTAL_BALL and SPHERE it is -1. *)
Theorem X13_selection_matches_layout (count : nat) (inps : list TickInput) :
  selection_inv (photoSystem (run (initialWorld count) inps)).
Proof. apply reachable_selection_inv. Qed.

(** X15.  The selection after a frame, in every world of a run: entering
    DETAIL selects the photo the ray hits; in DETAIL the detected right hand
    moves it to the next index on SWIPE_LEFT and to the previous one on
    SWIPE_RIGHT, both modulo the number of photos, and FIST clears it; no
    other gesture and no undetected hand changes it. *)
Theorem X15_selection_table
        (count : nat) (inps : list TickInput) (inp : TickInput) :
  let w := run (initialWorld count) inps in
  PhotoSystem.selectedIndex (photoSystem (tick w inp))
  = nextSelection (visionManager (tick w inp)) inp (photoSystem w).
Proof.
  cbv zeta. apply tick_selection, reachable_selection_inv.
Qed.

Lemma tick_scale_inv (w : World) (inp : TickInput) :
  in01 (VisionManager.handsDistance (visionManager (tick w inp))) ->
  scale_inv (photoSystem w) -> scale_inv (photoSystem (tick w inp)).
Proof.
  intros [D0 D1] I.
  destruct (tick_control w inp) as (St & Sc & _).
  unfold scale_inv in *. rewrite St, Sc. unfold nextLayout, nextScale.
  destruct (PhotoSystem.state (photoSystem w)).
  - destruct (_ || _); [lra | exact I].
  - assert (K : 0.5 <= (if VisionManager.handsDetectedBoth
                              (visionManager (tick w inp))
                        then 0.5 + VisionManager.handsDistance
                                     (visionManager (tick w inp)) * 2.05
                        else PhotoSystem.sphereScale (photoSystem w)) <= 2.55)
      by (destruct (VisionManager.handsDetectedBoth _); lra).
    destruct (_ && _); exact K.
  - destruct (_ && _); [lra | exact I].
Qed.

(** X16.  In every world of a run from the initial world the scale of the
    sphere is 0.2 in CRYSTAL_BALL and between 0.5 and 2.55 in SPHERE and
    DETAIL. *)
Theorem X16_scale_range (count : nat) (inps : list TickInput) :
  scale_inv (photoSystem (run (initialWorld count) inps)).
Proof.
  assert (H : forall w,
             vision_inv (visionManager w) -> scale_inv (photoSystem w) ->
             scale_inv (photoSystem (run w inps))).
  { induction inps as [|inp inps IH]; intros w V I.
    - exact I.
    - change (run w (inp :: inps)) with (run (tick w inp) inps).
      assert (V' : vision_inv (visionManager (tick w inp)))
        by (rewrite tick_visionManager; apply update_inv, V).
      apply IH; [exact V' |].
      apply tick_scale_inv; [apply V' | exact I]. }
  apply H; [apply new_inv | reflexivity].
Qed.

(** X18.  The hovered index is written in SPHERE only.  A frame that
    starts in SPHERE stores the id of the photo the ray hits when the right
    hand is detected and there is a hit, and -1 otherwise; a frame that
    starts in CRYSTAL_BALL or DETAIL leaves the stored index as it was. *)
Theorem X18_hovered_index (w : World) (inp : TickInput) :
  let right := VisionManager.rightHand (visionManager (tick w inp)) in
  PhotoSystem.hoveredIndex (photoSystem (tick w inp))
  = match PhotoSystem.state (photoSystem w) with
    | SPHERE =>
        if detected right
        then match raycastHit inp with Some id => id | None => (-1)%Z end
        else (-1)%Z
    | _ => PhotoSystem.hoveredIndex (photoSystem w)
    end.
Proof.
  cbv zeta. rewrite tick_photoSystem.
  set (ps2 := interact _ _ _).
  destruct (arrays_only_fields _ _
              (update_arrays_only Math_sin applyEuler lookAt slerp ps2
                                  (dateNow inp)))
    as (_ & _ & _ & _ & H & _).
  rewrite H.
  replace (PhotoSystem.hoveredIndex
             (PhotoSystem.autoRotate Math_sin (dateNow inp * 0.001) ps2))
    with (PhotoSystem.hoveredIndex ps2)
    by (unfold PhotoSystem.autoRotate; destruct (PhotoSystem.state ps2);
        reflexivity).
  unfold ps2. rewrite interact_hoveredIndex.
  destruct (hoveredSystem_selection w inp) as [_ Hv]. rewrite Hv.
  destruct (PhotoSystem.state (photoSystem w)) eqn:S; cbn [LayoutState_eqb];
    try reflexivity.
  apply (hoveredIndexOf_hits w inp S).
Qed.

End FrameTable.

(** The theorem on a system of three photos showing the last one. *)
Lemma X17_witness :
  let ps := PhotoSystem.setDetailLayout
              (PhotoSystem.new Sample.sqrt Sample.sin Sample.cos Sample.PI 3) 2 in
  PhotoSystem.state ps = DETAIL
  /\ (0 <= PhotoSystem.selectedIndex ps < Z.of_nat (PhotoSystem.count ps))%Z
  /\ PhotoSystem.selectedIndex (PhotoSystem.nextPhoto ps)
     = ((PhotoSystem.selectedIndex ps + 1) mod Z.of_nat (PhotoSystem.count ps))%Z
  /\ PhotoSystem.selectedIndex (PhotoSystem.nextPhoto ps) = 0%Z
  /\ PhotoSystem.selectedIndex (PhotoSystem.prevPhoto (PhotoSystem.nextPhoto ps))
     = PhotoSystem.selectedIndex ps.
Proof.
  intro ps.
  assert (S : PhotoSystem.state ps = DETAIL) by (vm_compute; reflexivity).
  assert (R : (0 <= PhotoSystem.selectedIndex ps
               < Z.of_nat (PhotoSystem.count ps))%Z)
    by (vm_compute; split; [discriminate | reflexivity]).
  do 2 (split; [assumption |]).
  pose proof (proj1 (X17_next_prev_wrap ps) S R) as (A & _ & _ & _ & B & _).
  split; [exact A |]. split; [vm_compute; reflexivity | exact B].
Defined.

(** ** The per-photo arrays *)

Lemma nth_set_nth_same {A : Type} (i : nat) (v d : A) (l : list A) :
  (i < List.length l)%nat -> nth i (set_nth i v l) d = v.
Proof.
  revert i. induction l as [|a l IH]; intros [|i] H; simpl in *;
    try lia; auto. apply IH. lia.
Qed.

Lemma nth_set_nth_other {A : Type} (i j : nat) (v d : A) (l : list A) :
  i <> j -> nth i (set_nth j v l) d = nth i l d.
Proof.
  revert i j. induction l as [|a l IH]; intros [|i] [|j] H; simpl;
    try reflexivity; try congruence. apply IH. congruence.
Qed.

(** The state of the loop of [setDetailLayout] after the photos below [n]. *)
Lemma parkOthers_loop (index : nat) (ps1 : PhotoSystem.t) (n : nat) :
  exists T,
    fold_left (PhotoSystem.parkOthers index) (seq 0 n) ps1
    = PhotoSystem.setTargetTransforms T ps1
    /\ List.length T = List.length (PhotoSystem.targetTransforms ps1)
    /\ forall i, (i < List.length (PhotoSystem.targetTransforms ps1))%nat ->
         nth i T PhotoSystem.defaultTransform
         = if (i <? n)%nat && negb (i =? index)%nat
           then parkedTransform ps1 i
           else PhotoSystem.targetAt ps1 i.
Proof.
  induction n as [|n (T & E & L & H)].
  - exists (PhotoSystem.targetTransforms ps1). simpl.
    split; [destruct ps1; reflexivity |]. split; [reflexivity |].
    intros i _. reflexivity.
  - rewrite seq_S, fold_left_app, E. cbn [fold_left Nat.add].
    unfold PhotoSystem.parkOthers.
    destruct (n =? index)%nat eqn:N.
    + exists T. split; [reflexivity |]. split; [exact L |].
      intros i Hi. rewrite (H i Hi).
      apply Nat.eqb_eq in N. subst index.
      destruct (Nat.eq_dec i n) as [-> | Ne].
      * rewrite Nat.eqb_refl, !andb_false_r. reflexivity.
      * replace (i <? S n)%nat with (i <? n)%nat; [reflexivity |].
        destruct (Nat.ltb_spec i n), (Nat.ltb_spec i (S n)); try reflexivity; lia.
    + eexists. split; [reflexivity |].
      cbn [PhotoSystem.targetTransforms PhotoSystem.setTargetTransforms].
      rewrite set_nth_length. split; [exact L |].
      intros i Hi.
      destruct (Nat.eq_dec i n) as [-> | Ne].
      * rewrite nth_set_nth_same by lia.
        rewrite N. replace (n <? S n)%nat with true
          by (symmetry; apply Nat.ltb_lt; lia).
        cbn [andb negb]. unfold parkedTransform.
        unfold PhotoSystem.targetAt at 1, PhotoSystem.spherePositionAt at 1.
        cbn [PhotoSystem.targetTransforms PhotoSystem.spherePositions
             PhotoSystem.setTargetTransforms].
        rewrite (H n Hi).
        replace (n <? n)%nat with false by (symmetry; apply Nat.ltb_ge; lia).
        reflexivity.
      * rewrite nth_set_nth_other by exact Ne. rewrite (H i Hi).
        replace (i <? S n)%nat with (i <? n)%nat; [reflexivity |].
        destruct (Nat.ltb_spec i n), (Nat.ltb_spec i (S n)); try reflexivity; lia.
Qed.

(** X19.  [setDetailLayout] with the index of a photo pins the target of
    that photo in front of the camera, at position (0, 0, 32), without
    rotation, 36 high and 36 times its aspect ratio wide, and parks every
    other photo at scale 0 on the sphere of twice the base radius, keeping
    its target rotation. *)
Theorem X19_detail_targets (ps : PhotoSystem.t) (index : Z) (i : nat) :
  PhotoSystem.wf ps ->
  (0 <= index < Z.of_nat (PhotoSystem.count ps))%Z ->
  (i < PhotoSystem.count ps)%nat ->
  PhotoSystem.targetAt (PhotoSystem.setDetailLayout ps index) i
  = if (i =? Z.to_nat index)%nat
    then pinnedTransform ps i else parkedTransform ps i.
Proof.
  intros (WT & _) R Hi. unfold PhotoSystem.setDetailLayout.
  replace ((index <? 0) || (index >=? Z.of_nat (PhotoSystem.count ps)))%Z
    with false
    by (symmetry; apply orb_false_iff; split;
        [apply Z.ltb_ge | rewrite Z.geb_leb; apply Z.leb_gt]; lia).
  cbv zeta.
  match goal with
  | |- context [fold_left _ _ ?ps1] =>
      destruct (parkOthers_loop (Z.to_nat index) ps1 (PhotoSystem.count ps))
        as (T & E & L & H)
  end.
  rewrite E. unfold PhotoSystem.targetAt at 1.
  cbn [PhotoSystem.targetTransforms PhotoSystem.setTargetTransforms] in *.
  rewrite set_nth_length in *.
  rewrite H by lia.
  replace (i <? PhotoSystem.count ps)%nat with true
    by (symmetry; apply Nat.ltb_lt; exact Hi).
  cbn [andb].
  destruct (i =? Z.to_nat index)%nat eqn:N; cbn [negb].
  - apply Nat.eqb_eq in N. subst i.
    unfold PhotoSystem.targetAt.
    cbn [PhotoSystem.targetTransforms].
    rewrite nth_set_nth_same by lia. reflexivity.
  - apply Nat.eqb_neq in N. unfold parkedTransform.
    unfold PhotoSystem.targetAt, PhotoSystem.spherePositionAt.
    cbn [PhotoSystem.targetTransforms PhotoSystem.spherePositions].
    rewrite nth_set_nth_other by exact N. reflexivity.
Qed.

Section ItemFacts.

Variable Math_sin : Q -> Q.
Variable applyEuler : Vec3 -> Euler -> Vec3.
Variable lookAt : Vec3 -> Vec3 -> Quaternion.
Variable slerp : Quaternion -> Quaternion -> Q -> Quaternion.

Local Abbreviation layoutOnSphere := (PhotoSystem.layoutOnSphere applyEuler lookAt).
Local Abbreviation floatSelected := (PhotoSystem.floatSelected Math_sin).
Local Abbreviation interpolate := (PhotoSystem.interpolate slerp).
Local Abbreviation updateItem :=
  (PhotoSystem.updateItem Math_sin applyEuler lookAt slerp).
Local Abbreviation update :=
  (PhotoSystem.update Math_sin applyEuler lookAt slerp).

(** What one frame does to the hover intensity of photo [i]. *)
Local Abbreviation hoverStep ps i :=
  (if onSphere ps
   then hoverAt ps i + (hoverTarget ps i - hoverAt ps i) * 0.15
   else hoverAt ps i).

Lemma layoutOnSphere_item (ps : PhotoSystem.t) (j : nat) :
  (j < List.length (PhotoSystem.hoverIntensities ps))%nat ->
  PhotoSystem.state (layoutOnSphere ps j) = PhotoSystem.state ps
  /\ PhotoSystem.selectedIndex (layoutOnSphere ps j)
     = PhotoSystem.selectedIndex ps
  /\ PhotoSystem.currentTransforms (layoutOnSphere ps j)
     = PhotoSystem.currentTransforms ps
  /\ hoverAt (layoutOnSphere ps j) j
     = hoverAt ps j + (hoverTarget ps j - hoverAt ps j) * 0.15.
Proof.
  intro H. repeat split.
  unfold hoverAt, hoverTarget, PhotoSystem.layoutOnSphere.
  cbn [PhotoSystem.hoverIntensities].
  rewrite nth_set_nth_same by exact H. reflexivity.
Qed.

Lemma layoutOnSphere_others (ps : PhotoSystem.t) (j i : nat) :
  i <> j ->
  hoverAt (layoutOnSphere ps j) i = hoverAt ps i
  /\ PhotoSystem.targetAt (layoutOnSphere ps j) i = PhotoSystem.targetAt ps i.
Proof.
  intro N. unfold hoverAt, PhotoSystem.targetAt, PhotoSystem.layoutOnSphere.
  cbn [PhotoSystem.hoverIntensities PhotoSystem.targetTransforms].
  rewrite !nth_set_nth_other by exact N. split; reflexivity.
Qed.

Lemma floatSelected_others (time : Q) (ps : PhotoSystem.t) (j i : nat) :
  i <> j ->
  PhotoSystem.targetAt (floatSelected time ps j) i = PhotoSystem.targetAt ps i.
Proof.
  intro N. unfold PhotoSystem.targetAt, PhotoSystem.floatSelected.
  cbn [PhotoSystem.targetTransforms PhotoSystem.setTargetTransforms].
  apply nth_set_nth_other, N.
Qed.

Lemma interpolate_item (ps : PhotoSystem.t) (j : nat) :
  (j < List.length (PhotoSystem.currentTransforms ps))%nat ->
  PhotoSystem.currentAt (interpolate ps j) j
  = eased slerp (PhotoSystem.currentAt ps j) (PhotoSystem.targetAt ps j).
Proof.
  intro H. unfold PhotoSystem.currentAt at 1, PhotoSystem.interpolate.
  cbn [PhotoSystem.currentTransforms].
  rewrite nth_set_nth_same by exact H. reflexivity.
Qed.

Lemma interpolate_others (ps : PhotoSystem.t) (j i : nat) :
  i <> j ->
  PhotoSystem.currentAt (interpolate ps j) i = PhotoSystem.currentAt ps i.
Proof.
  intro N. unfold PhotoSystem.currentAt, PhotoSystem.interpolate.
  cbn [PhotoSystem.currentTransforms].
  apply nth_set_nth_other, N.
Qed.

(** The body of the loop, on the photo it handles. *)
Lemma updateItem_item (time : Q) (ps : PhotoSystem.t) (j : nat) :
  (j < List.length (PhotoSystem.hoverIntensities ps))%nat ->
  (j < List.length (PhotoSystem.currentTransforms ps))%nat ->
  hoverAt (updateItem time ps j) j = hoverStep ps j
  /\ PhotoSystem.currentAt (updateItem time ps j) j
     = eased slerp (PhotoSystem.currentAt ps j)
             (PhotoSystem.targetAt (updateItem time ps j) j)
  /\ (PhotoSystem.state ps = DETAIL ->
      Z.of_nat j <> PhotoSystem.selectedIndex ps ->
      PhotoSystem.targetAt (updateItem time ps j) j
      = PhotoSystem.targetAt ps j).
Proof.
  intros Hh Hc. unfold PhotoSystem.updateItem. cbv zeta.
  fold (onSphere ps).
  destruct (layoutOnSphere_item ps j Hh) as (S1 & S2 & S3 & S4).
  assert (E : exists ps1,
             ps1 = (if onSphere ps then layoutOnSphere ps j else ps)
             /\ PhotoSystem.state ps1 = PhotoSystem.state ps
             /\ PhotoSystem.selectedIndex ps1 = PhotoSystem.selectedIndex ps
             /\ PhotoSystem.currentTransforms ps1
                = PhotoSystem.currentTransforms ps
             /\ hoverAt ps1 j = hoverStep ps j
             /\ (PhotoSystem.state ps = DETAIL -> ps1 = ps)).
  { eexists. split; [reflexivity |].
    unfold onSphere.
    destruct (PhotoSystem.state ps) eqn:St; cbn [LayoutState_eqb orb];
      repeat split; auto; discriminate. }
  destruct E as (ps1 & <- & T1 & T2 & T3 & T4 & T5).
  assert (F : exists ps2,
             ps2 = (if LayoutState_eqb (PhotoSystem.state ps1) DETAIL
                       && (Z.of_nat j =? PhotoSystem.selectedIndex ps1)%Z
                    then floatSelected time ps1 j else ps1)
             /\ PhotoSystem.currentTransforms ps2
                = PhotoSystem.currentTransforms ps
             /\ hoverAt ps2 j = hoverStep ps j
             /\ (PhotoSystem.state ps = DETAIL ->
                 Z.of_nat j <> PhotoSystem.selectedIndex ps -> ps2 = ps)).
  { eexists. split; [reflexivity |]. rewrite T1, T2.
    destruct (Z.eqb_spec (Z.of_nat j) (PhotoSystem.selectedIndex ps)) as [e | n];
      destruct (LayoutState_eqb (PhotoSystem.state ps) DETAIL);
      cbn [andb]; repeat split; auto; intros; try contradiction; auto. }
  destruct F as (ps2 & <- & U1 & U2 & U3).
  split; [| split].
  - rewrite <- U2. reflexivity.
  - rewrite interpolate_item by (rewrite U1; exact Hc).
    unfold PhotoSystem.currentAt. rewrite U1. reflexivity.
  - intros D N. rewrite (U3 D N) at 1. reflexivity.
Qed.

(** The body of the loop, on the other photos. *)
Lemma updateItem_others (time : Q) (ps : PhotoSystem.t) (j i : nat) :
  i <> j ->
  hoverAt (updateItem time ps j) i = hoverAt ps i
  /\ PhotoSystem.currentAt (updateItem time ps j) i
     = PhotoSystem.currentAt ps i
  /\ PhotoSystem.targetAt (updateItem time ps j) i
     = PhotoSystem.targetAt ps i.
Proof.
  intro N. unfold PhotoSystem.updateItem. cbv zeta.
  destruct (layoutOnSphere_others ps j i N) as (L1 & L2).
  assert (E : exists ps1,
             ps1 = (if LayoutState_eqb (PhotoSystem.state ps) SPHERE
                       || LayoutState_eqb (PhotoSystem.state ps) CRYSTAL_BALL
                    then layoutOnSphere ps j else ps)
             /\ hoverAt ps1 i = hoverAt ps i
             /\ PhotoSystem.currentAt ps1 i = PhotoSystem.currentAt ps i
             /\ PhotoSystem.targetAt ps1 i = PhotoSystem.targetAt ps i).
  { eexists. split; [reflexivity |].
    destruct (_ || _); auto. }
  destruct E as (ps1 & <- & T1 & T2 & T3).
  assert (F : exists ps2,
             ps2 = (if LayoutState_eqb (PhotoSystem.state ps1) DETAIL
                       && (Z.of_nat j =? PhotoSystem.selectedIndex ps1)%Z
                    then floatSelected time ps1 j else ps1)
             /\ hoverAt ps2 i = hoverAt ps i
             /\ PhotoSystem.currentAt ps2 i = PhotoSystem.currentAt ps i
             /\ PhotoSystem.targetAt ps2 i = PhotoSystem.targetAt ps i).
  { eexists. split; [reflexivity |].
    destruct (_ && _); auto.
    rewrite (floatSelected_others time ps1 j i N). auto. }
  destruct F as (ps2 & <- & U1 & U2 & U3).
  rewrite interpolate_others by exact N. auto.
Qed.

Lemma arrays_only_item (a b : PhotoSystem.t) :
  arrays_only a b ->
  PhotoSystem.state b = PhotoSystem.state a
  /\ PhotoSystem.selectedIndex b = PhotoSystem.selectedIndex a
  /\ PhotoSystem.hoveredIndex b = PhotoSystem.hoveredIndex a
  /\ List.length (PhotoSystem.hoverIntensities b)
     = List.length (PhotoSystem.hoverIntensities a)
  /\ List.length (PhotoSystem.currentTransforms b)
     = List.length (PhotoSystem.currentTransforms a).
Proof.
  intros (t & c & h & E & Lt & Lc & Lh & _). subst b.
  cbn [withArrays PhotoSystem.state PhotoSystem.selectedIndex
       PhotoSystem.hoveredIndex PhotoSystem.hoverIntensities
       PhotoSystem.currentTransforms]. auto.
Qed.

(** The state of the loop of [update] after the photos below [n]. *)
Lemma updateItem_loop (time : Q) (ps0 : PhotoSystem.t) (n : nat) :
  (n <= List.length (PhotoSystem.hoverIntensities ps0))%nat ->
  (n <= List.length (PhotoSystem.currentTransforms ps0))%nat ->
  arrays_only ps0 (fold_left (updateItem time) (seq 0 n) ps0)
  /\ (forall i, (i < n)%nat ->
        hoverAt (fold_left (updateItem time) (seq 0 n) ps0) i
        = hoverStep ps0 i
        /\ PhotoSystem.currentAt (fold_left (updateItem time) (seq 0 n) ps0) i
           = eased slerp (PhotoSystem.currentAt ps0 i)
               (PhotoSystem.targetAt
                  (fold_left (updateItem time) (seq 0 n) ps0) i)
        /\ (PhotoSystem.state ps0 = DETAIL ->
            Z.of_nat i <> PhotoSystem.selectedIndex ps0 ->
            PhotoSystem.targetAt (fold_left (updateItem time) (seq 0 n) ps0) i
            = PhotoSystem.targetAt ps0 i))
  /\ (forall i, (n <= i)%nat ->
        hoverAt (fold_left (updateItem time) (seq 0 n) ps0) i = hoverAt ps0 i
        /\ PhotoSystem.currentAt (fold_left (updateItem time) (seq 0 n) ps0) i
           = PhotoSystem.currentAt ps0 i
        /\ PhotoSystem.targetAt (fold_left (updateItem time) (seq 0 n) ps0) i
           = PhotoSystem.targetAt ps0 i).
Proof.
  induction n as [|n IH]; intros Hh Hc.
  - cbn [seq fold_left]. split; [apply arrays_only_refl |].
    split; [intros i Hi; lia | auto].
  - destruct IH as (A & Lo & Hi); [lia | lia |].
    rewrite seq_S, fold_left_app. cbn [fold_left Nat.add].
    set (a := fold_left (updateItem time) (seq 0 n) ps0) in *.
    clearbody a.
    destruct (arrays_only_item _ _ A) as (F1 & F2 & F3 & F4 & F5).
    destruct (updateItem_item time a n) as (I1 & I2 & I3); [lia | lia |].
    destruct (Hi n (Nat.le_refl n)) as (K1 & K2 & K3).
    split; [| split].
    + eapply arrays_only_trans; [exact A | apply updateItem_arrays_only].
    + intros i Hlt. destruct (Nat.eq_dec i n) as [-> | Ne].
      * split; [| split].
        -- rewrite I1. unfold onSphere, hoverTarget.
           rewrite F1, F3, K1. reflexivity.
        -- rewrite I2, K2. reflexivity.
        -- intros D N. rewrite I3; [exact K3 | congruence | congruence].
      * destruct (updateItem_others time a n i Ne) as (O1 & O2 & O3).
        destruct (Lo i) as (P1 & P2 & P3); [lia |].
        rewrite O1, O2, O3. auto.
    + intros i Hle.
      destruct (updateItem_others time a n i) as (O1 & O2 & O3); [lia |].
      destruct (Hi i) as (P1 & P2 & P3); [lia |].
      rewrite O1, O2, O3. auto.
Qed.

(** [update] on the arrays of photo [i]. *)
Lemma update_item (ps : PhotoSystem.t) (dateNow : Q) (i : nat) :
  PhotoSystem.wf ps -> (i < PhotoSystem.count ps)%nat ->
  hoverAt (update ps dateNow) i = hoverStep ps i
  /\ PhotoSystem.currentAt (update ps dateNow) i
     = eased slerp (PhotoSystem.currentAt ps i)
             (PhotoSystem.targetAt (update ps dateNow) i)
  /\ (PhotoSystem.state ps = DETAIL ->
      Z.of_nat i <> PhotoSystem.selectedIndex ps ->
      PhotoSystem.targetAt (update ps dateNow) i = PhotoSystem.targetAt ps i).
Proof.
  intros (W1 & W2 & W3 & W4 & W5) Hi.
  unfold PhotoSystem.update. cbv zeta.
  match goal with
  | |- context [fold_left _ _ ?p] => set (ps0 := p)
  end.
  assert (E : PhotoSystem.state ps0 = PhotoSystem.state ps
              /\ PhotoSystem.selectedIndex ps0 = PhotoSystem.selectedIndex ps
              /\ PhotoSystem.hoveredIndex ps0 = PhotoSystem.hoveredIndex ps
              /\ PhotoSystem.hoverIntensities ps0
                 = PhotoSystem.hoverIntensities ps
              /\ PhotoSystem.currentTransforms ps0
                 = PhotoSystem.currentTransforms ps
              /\ PhotoSystem.targetTransforms ps0
                 = PhotoSystem.targetTransforms ps).
  { unfold ps0, PhotoSystem.autoRotate.
    cbn [PhotoSystem.state].
    destruct (PhotoSystem.state ps); repeat split. }
  destruct E as (E1 & E2 & E3 & E4 & E5 & E6). clearbody ps0.
  destruct (updateItem_loop (dateNow * 0.001) ps0 (PhotoSystem.count ps))
    as (_ & Lo & _); [rewrite E4; lia | rewrite E5; lia |].
  destruct (Lo i Hi) as (P1 & P2 & P3).
  split; [| split].
  - rewrite P1. unfold onSphere, hoverTarget, hoverAt.
    rewrite E1, E3, E4. reflexivity.
  - rewrite P2. unfold PhotoSystem.currentAt. rewrite E5. reflexivity.
  - intros D N. rewrite P3 by congruence.
    unfold PhotoSystem.targetAt. rewrite E6. reflexivity.
Qed.

(** X20.  In SPHERE and in CRYSTAL_BALL, [update] moves the hover intensity
    of every photo towards its target (1 for the hovered photo in SPHERE, 0
    otherwise) and leaves 85 percent of the gap.  In DETAIL the hover
    intensities are frozen. *)
Theorem X20_hover_easing (ps : PhotoSystem.t) (dateNow : Q) (i : nat) :
  PhotoSystem.wf ps -> (i < PhotoSystem.count ps)%nat ->
  (PhotoSystem.state ps <> DETAIL ->
   hoverTarget ps i - hoverAt (update ps dateNow) i
   == 0.85 * (hoverTarget ps i - hoverAt ps i))
  /\ (PhotoSystem.state ps = DETAIL ->
      hoverAt (update ps dateNow) i = hoverAt ps i).
Proof.
  intros W Hi. destruct (update_item ps dateNow i W Hi) as (H & _).
  rewrite H. unfold onSphere.
  destruct (PhotoSystem.state ps); cbn [LayoutState_eqb orb].
  - split; [intros _; ring | discriminate].
  - split; [intros _; ring | discriminate].
  - split; [congruence | reflexivity].
Qed.

(** X21.  [update] moves the current transform of every photo one step of
    factor 0.05 towards the target it has just computed: position and scale
    by [lerp], rotation by [slerp], so that 95 percent of the gap between
    each coordinate of the position and its target is left.  In DETAIL the
    target of a photo other than the selected one is the one
    [setDetailLayout] left. *)
Theorem X21_transform_easing (ps : PhotoSystem.t) (dateNow : Q) (i : nat) :
  PhotoSystem.wf ps -> (i < PhotoSystem.count ps)%nat ->
  PhotoSystem.currentAt (update ps dateNow) i
  = eased slerp (PhotoSystem.currentAt ps i)
          (PhotoSystem.targetAt (update ps dateNow) i)
  /\ (let gap (c : PhotoSystem.PhotoTransform) (f : Vec3 -> Q) :=
        f (PhotoSystem.position (PhotoSystem.targetAt (update ps dateNow) i))
        - f (PhotoSystem.position c) in
      forall f, In f [v3x; v3y; v3z] ->
        gap (PhotoSystem.currentAt (update ps dateNow) i) f
        == 0.95 * gap (PhotoSystem.currentAt ps i) f)
  /\ (PhotoSystem.state ps = DETAIL ->
      Z.of_nat i <> PhotoSystem.selectedIndex ps ->
      PhotoSystem.targetAt (update ps dateNow) i = PhotoSystem.targetAt ps i).
Proof.
  intros W Hi. destruct (update_item ps dateNow i W Hi) as (_ & H & K).
  split; [exact H |]. split; [| exact K].
  intros gap f Hf. unfold gap. rewrite H.
  unfold eased, lerp. cbn [PhotoSystem.position].
  destruct Hf as [<- | [<- | [<- | []]]]; cbn [v3x v3y v3z]; ring.
Qed.

End ItemFacts.

(** The theorem on a system of three photos, for the photo in the middle
    when the last one is shown. *)
Lemma X19_witness :
  let ps := PhotoSystem.new Sample.sqrt Sample.sin Sample.cos Sample.PI 3 in
  PhotoSystem.wf ps
  /\ (0 <= 2 < Z.of_nat (PhotoSystem.count ps))%Z
  /\ (1 < PhotoSystem.count ps)%nat
  /\ PhotoSystem.targetAt (PhotoSystem.setDetailLayout ps 2) 1
     = parkedTransform ps 1.
Proof.
  intro ps.
  assert (W : PhotoSystem.wf ps) by (vm_compute; repeat split; reflexivity).
  assert (R : (0 <= 2 < Z.of_nat (PhotoSystem.count ps))%Z)
    by (vm_compute; split; [discriminate | reflexivity]).
  assert (I : (1 < PhotoSystem.count ps)%nat) by (vm_compute; lia).
  do 3 (split; [assumption |]).
  exact (X19_detail_targets ps 2 1 W R I).
Defined.

(** The theorem on the first frame of a system of three photos. *)
Lemma X20_witness :
  let ps := PhotoSystem.new Sample.sqrt Sample.sin Sample.cos Sample.PI 3 in
  let ps' := PhotoSystem.update Sample.sin Sample.applyEuler Sample.lookAt
               Sample.slerp ps 1000 in
  PhotoSystem.wf ps
  /\ (1 < PhotoSystem.count ps)%nat
  /\ hoverTarget ps 1 - hoverAt ps' 1
     == 0.85 * (hoverTarget ps 1 - hoverAt ps 1).
Proof.
  intros ps ps'.
  assert (W : PhotoSystem.wf ps) by (vm_compute; repeat split; reflexivity).
  assert (I : (1 < PhotoSystem.count ps)%nat) by (vm_compute; lia).
  do 2 (split; [assumption |]).
  apply (X20_hover_easing Sample.sin Sample.applyEuler Sample.lookAt
           Sample.slerp ps 1000 1 W I).
  vm_compute. discriminate.
Defined.

(** The theorem on the first frame of a system of three photos. *)
Lemma X21_witness :
  let ps := PhotoSystem.new Sample.sqrt Sample.sin Sample.cos Sample.PI 3 in
  let ps' := PhotoSystem.update Sample.sin Sample.applyEuler Sample.lookAt
               Sample.slerp ps 1000 in
  PhotoSystem.wf ps
  /\ (1 < PhotoSystem.count ps)%nat
  /\ PhotoSystem.currentAt ps' 1
     = eased Sample.slerp (PhotoSystem.currentAt ps 1)
             (PhotoSystem.targetAt ps' 1).
Proof.
  intros ps ps'.
  assert (W : PhotoSystem.wf ps) by (vm_compute; repeat split; reflexivity).
  assert (I : (1 < PhotoSystem.count ps)%nat) by (vm_compute; lia).
  do 2 (split; [assumption |]).
  exact (proj1 (X21_transform_easing Sample.sin Sample.applyEuler
                  Sample.lookAt Sample.slerp ps 1000 1 W I)).
Defined.

(** ** The Fibonacci sphere *)

Section SphereLayout.

Variable Math_sqrt : Q -> Q.
Variable Math_sin : Q -> Q.
Variable Math_cos : Q -> Q.
Variable Math_PI : Q.

Local Abbreviation generateSphereLayout :=
  (PhotoSystem.generateSphereLayout Math_sqrt Math_sin Math_cos Math_PI).

Lemma generateSphereLayout_y (count i : nat) :
  (i < count)%nat ->
  v3y (nth i (generateSphereLayout count) (mkVec3 0 0 0))
  = 1 - (inject_Z (Z.of_nat i) / inject_Z (Z.of_nat count - 1)) * 2.
Proof.
  intro H. unfold PhotoSystem.generateSphereLayout.
  match goal with
  | |- context [map ?f _] =>
      rewrite (nth_indep _ (mkVec3 0 0 0) (f O))
        by (rewrite length_map, length_seq; exact H);
      rewrite (map_nth f)
  end.
  rewrite seq_nth by exact H. reflexivity.
Qed.

(** X22.  [generateSphereLayout] gives one point per photo.  With two
    photos or more, the heights of the points go down from 1 for the first
    photo to -1 for the last in equal steps of 2 / (count - 1). *)
Theorem X22_sphere_layout_levels (count i : nat) :
  (2 <= count)%nat -> (i < count)%nat ->
  let y k := v3y (nth k (generateSphereLayout count) (mkVec3 0 0 0)) in
  List.length (generateSphereLayout count) = count
  /\ y O == 1
  /\ y (count - 1)%nat == -1
  /\ ((S i < count)%nat ->
      y i - y (S i) == 2 / inject_Z (Z.of_nat count - 1)).
Proof.
  intros C I y.
  assert (P : 0 < inject_Z (Z.of_nat count - 1)).
  { change 0 with (inject_Z 0). rewrite <- Zlt_Qlt. lia. }
  assert (N : ~ inject_Z (Z.of_nat count - 1) == 0) by lra.
  split; [| split; [| split]].
  - unfold PhotoSystem.generateSphereLayout.
    rewrite length_map, length_seq. reflexivity.
  - unfold y. rewrite generateSphereLayout_y by lia.
    change (inject_Z (Z.of_nat 0)) with 0. field. exact N.
  - unfold y. rewrite generateSphereLayout_y by lia.
    replace (Z.of_nat (count - 1)) with (Z.of_nat count - 1)%Z by lia.
    field. exact N.
  - intro Hs. unfold y. rewrite !generateSphereLayout_y by lia.
    replace (Z.of_nat (S i)) with (Z.of_nat i + 1)%Z by lia.
    rewrite inject_Z_plus. change (inject_Z 1) with 1. field. exact N.
Qed.

End SphereLayout.

(** The theorem on the layout of three photos. *)
Lemma X22_witness :
  let y k := v3y (nth k (PhotoSystem.generateSphereLayout
                           Sample.sqrt Sample.sin Sample.cos Sample.PI 3)
                      (mkVec3 0 0 0)) in
  (2 <= 3)%nat /\ (0 < 3)%nat /\ y 0%nat == 1 /\ y 2%nat == -1.
Proof.
  intro y. split; [lia |]. split; [lia |].
  pose proof (X22_sphere_layout_levels Sample.sqrt Sample.sin Sample.cos
                Sample.PI 3 0 ltac:(lia) ltac:(lia)) as (_ & A & B & _).
  split; [exact A | exact B].
Defined.

(** ** The particles of the explosion *)

Section ParticleFacts.

Variable Math_random : nat -> Q.
Variable Math_sin : Q -> Q.
Variable Math_cos : Q -> Q.
Variable Math_acos : Q -> Q.
Variable Math_PI : Q.

Local Abbreviation spawn :=
  (ExplosionParticles.spawn Math_random Math_sin Math_cos Math_acos Math_PI).
Local Abbreviation resetParticle :=
  (ExplosionParticles.resetParticle Math_random Math_sin Math_cos Math_acos
     Math_PI).
Local Abbreviation updateParticle :=
  (ExplosionParticles.updateParticle Math_random Math_sin Math_cos Math_acos
     Math_PI).
Local Abbreviation explode :=
  (ExplosionParticles.explode Math_random Math_sin Math_cos Math_acos Math_PI).
Local Abbreviation update :=
  (ExplosionParticles.update Math_random Math_sin Math_cos Math_acos Math_PI).
Local Abbreviation run :=
  (ExplosionParticles.run Math_random Math_sin Math_cos Math_acos Math_PI).
Local Abbreviation particleAt := ExplosionParticles.particleAt.

(** The loop of [explode] after the particles below [n]. *)
Lemma explode_loop (es0 : ExplosionParticles.t) (n : nat) :
  (n <= List.length (ExplosionParticles.particles es0))%nat ->
  let a := fold_left (fun es i => resetParticle es i true) (seq 0 n) es0 in
  ExplosionParticles.active a = ExplosionParticles.active es0
  /\ ExplosionParticles.visible a = ExplosionParticles.visible es0
  /\ List.length (ExplosionParticles.particles a)
     = List.length (ExplosionParticles.particles es0)
  /\ ExplosionParticles.randomCalls a
     = (ExplosionParticles.randomCalls es0 + 7 * n)%nat
  /\ (forall i, (i < n)%nat ->
        particleAt a i
        = spawn (ExplosionParticles.randomCalls es0 + 7 * i)%nat)
  /\ (forall i, (n <= i)%nat -> particleAt a i = particleAt es0 i).
Proof.
  induction n as [|n IH]; intro Hn; cbv zeta.
  - cbn [seq fold_left]. repeat split; intros; auto; lia.
  - destruct IH as (A & V & L & R & Lo & Hi); [lia |].
    rewrite seq_S, fold_left_app. cbn [fold_left Nat.add].
    set (a := fold_left _ (seq 0 n) es0) in *. clearbody a.
    unfold ExplosionParticles.resetParticle. cbn [negb andb].
    cbn [ExplosionParticles.active ExplosionParticles.visible
         ExplosionParticles.particles ExplosionParticles.randomCalls].
    rewrite set_nth_length.
    split; [exact A |]. split; [exact V |]. split; [exact L |].
    split; [lia |]. split.
    + intros i Hlt. unfold ExplosionParticles.particleAt at 1.
      cbn [ExplosionParticles.particles].
      destruct (Nat.eq_dec i n) as [-> | Ne].
      * rewrite nth_set_nth_same by lia. rewrite R. reflexivity.
      * rewrite nth_set_nth_other by exact Ne. apply Lo. lia.
    + intros i Hle. unfold ExplosionParticles.particleAt at 1.
      cbn [ExplosionParticles.particles].
      rewrite nth_set_nth_other by lia. apply Hi. lia.
Qed.

(** X23.  [explode] switches the effect on, shows the mesh and respawns
    every particle with life 1, drawing seven random numbers for each:
    particle [i] is made from the draws number [7 i] to [7 i + 5] after
    the ones made before. *)
Theorem X23_explode_respawns_all (es : ExplosionParticles.t) (i : nat) :
  List.length (ExplosionParticles.particles es)
  = ExplosionParticles.particleCount ->
  (i < ExplosionParticles.particleCount)%nat ->
  ExplosionParticles.active (explode es) = true
  /\ ExplosionParticles.visible (explode es) = true
  /\ List.length (ExplosionParticles.particles (explode es))
     = ExplosionParticles.particleCount
  /\ ExplosionParticles.randomCalls (explode es)
     = (ExplosionParticles.randomCalls es
        + 7 * ExplosionParticles.particleCount)%nat
  /\ particleAt (explode es) i
     = spawn (ExplosionParticles.randomCalls es + 7 * i)%nat
  /\ ExplosionParticles.life (particleAt (explode es) i) = 1.0.
Proof.
  intros L Hi. unfold ExplosionParticles.explode.
  match goal with
  | |- context [fold_left _ _ ?e] =>
      destruct (explode_loop e ExplosionParticles.particleCount)
        as (A & V & Le & R & Lo & _)
  end.
  { cbn [ExplosionParticles.particles]. rewrite L. lia. }
  cbn [ExplosionParticles.active ExplosionParticles.visible
       ExplosionParticles.particles ExplosionParticles.randomCalls] in *.
  rewrite A, V, Le, R, (Lo i Hi). repeat split; auto.
Qed.

(** The loop of [update] after the particles below [n]. *)
Lemma update_loop (es0 : ExplosionParticles.t) (n : nat) :
  (n <= List.length (ExplosionParticles.particles es0))%nat ->
  let a := fold_left updateParticle (seq 0 n) es0 in
  ExplosionParticles.active a = ExplosionParticles.active es0
  /\ ExplosionParticles.visible a = ExplosionParticles.visible es0
  /\ List.length (ExplosionParticles.particles a)
     = List.length (ExplosionParticles.particles es0)
  /\ (ExplosionParticles.randomCalls es0 + n
      <= ExplosionParticles.randomCalls a)%nat
  /\ (forall i, (i < n)%nat ->
        exists k, (ExplosionParticles.randomCalls es0 <= k)%nat
          /\ particleAt a i
             = if Qgtb (ExplosionParticles.life (particleAt es0 i)) 0
               then ExplosionParticles.advance (Math_random k)
                                               (particleAt es0 i)
               else spawn k)
  /\ (forall i, (n <= i)%nat -> particleAt a i = particleAt es0 i).
Proof.
  induction n as [|n IH]; intro Hn; cbv zeta.
  - cbn [seq fold_left]. repeat split; intros; auto; lia.
  - destruct IH as (A & V & L & R & Lo & Hi); [lia |].
    rewrite seq_S, fold_left_app. cbn [fold_left Nat.add].
    set (a := fold_left _ (seq 0 n) es0) in *. clearbody a.
    unfold ExplosionParticles.updateParticle,
      ExplosionParticles.resetParticle.
    cbn [negb andb].
    rewrite (Hi n (Nat.le_refl n)).
    destruct (Qgtb (ExplosionParticles.life (particleAt es0 n)) 0) eqn:G;
      cbn [ExplosionParticles.active ExplosionParticles.visible
           ExplosionParticles.particles ExplosionParticles.randomCalls];
      rewrite set_nth_length;
      (split; [exact A |]); (split; [exact V |]); (split; [exact L |]);
      (split; [lia |]); split.
    + intros i Hlt. unfold ExplosionParticles.particleAt at 1.
      cbn [ExplosionParticles.particles].
      destruct (Nat.eq_dec i n) as [-> | Ne].
      * rewrite nth_set_nth_same by lia. rewrite G.
        exists (ExplosionParticles.randomCalls a). split; [lia | reflexivity].
      * rewrite nth_set_nth_other by exact Ne. apply Lo. lia.
    + intros i Hle. unfold ExplosionParticles.particleAt at 1.
      cbn [ExplosionParticles.particles].
      rewrite nth_set_nth_other by lia. apply Hi. lia.
    + intros i Hlt. unfold ExplosionParticles.particleAt at 1.
      cbn [ExplosionParticles.particles].
      destruct (Nat.eq_dec i n) as [-> | Ne].
      * rewrite nth_set_nth_same by lia. rewrite G.
        exists (ExplosionParticles.randomCalls a). split; [lia | reflexivity].
      * rewrite nth_set_nth_other by exact Ne. apply Lo. lia.
    + intros i Hle. unfold ExplosionParticles.particleAt at 1.
      cbn [ExplosionParticles.particles].
      rewrite nth_set_nth_other by lia. apply Hi. lia.
Qed.

(** X24.  While the effect is active, [update] moves every live particle
    by its velocity, keeps 95 percent of the velocity and takes between
    0.01 and 0.02 from the life; a particle whose life is 0 or less is
    respawned with life 1 instead. *)
Theorem X24_particle_step (es : ExplosionParticles.t) (i : nat) :
  unit_random Math_random ->
  ExplosionParticles.active es = true ->
  List.length (ExplosionParticles.particles es)
  = ExplosionParticles.particleCount ->
  (i < ExplosionParticles.particleCount)%nat ->
  let p := particleAt es i in
  let p' := particleAt (update es) i in
  (0 < ExplosionParticles.life p ->
   exists r, 0 <= r /\ r < 1
     /\ p' = ExplosionParticles.advance r p
     /\ ExplosionParticles.life p - 0.02 < ExplosionParticles.life p'
     /\ ExplosionParticles.life p' <= ExplosionParticles.life p - 0.01)
  /\ (ExplosionParticles.life p <= 0 ->
      exists k, p' = spawn k /\ ExplosionParticles.life p' = 1.0).
Proof.
  intros U A L Hi p p'. subst p p'.
  unfold ExplosionParticles.update. rewrite A. cbn [negb].
  destruct (update_loop es ExplosionParticles.particleCount)
    as (_ & _ & _ & _ & Lo & _); [rewrite L; lia |].
  destruct (Lo i Hi) as (k & _ & E). rewrite E. split.
  - intro P. apply Qgtb_true in P. rewrite P.
    destruct (U k) as (U0 & U1).
    exists (Math_random k). repeat split; auto;
      unfold ExplosionParticles.advance; cbn [ExplosionParticles.life]; lra.
  - intro P. apply Qgtb_false in P. rewrite P.
    exists k. split; reflexivity.
Qed.

Lemma explode_active (es : ExplosionParticles.t) :
  ExplosionParticles.active (explode es) = true.
Proof.
  unfold ExplosionParticles.explode.
  apply (fold_left_invariant _ (fun e => ExplosionParticles.active e = true)).
  - intros e j H. exact H.
  - reflexivity.
Qed.

Lemma update_active (es : ExplosionParticles.t) :
  ExplosionParticles.active (update es) = ExplosionParticles.active es.
Proof.
  unfold ExplosionParticles.update.
  destruct (ExplosionParticles.active es) eqn:A; cbn [negb]; [| exact A].
  apply (fold_left_invariant _ (fun e => ExplosionParticles.active e = true)).
  - intros e j H. unfold ExplosionParticles.updateParticle,
      ExplosionParticles.resetParticle.
    destruct (Qgtb _ 0); exact H.
  - exact A.
Qed.

Lemma run_active (es : ExplosionParticles.t)
      (calls : list ExplosionParticles.Call) :
  ExplosionParticles.active es = true ->
  ExplosionParticles.active (run es calls) = true.
Proof.
  revert es. induction calls as [|c calls IH]; intros es A; [exact A |].
  apply IH. destruct c; cbn [ExplosionParticles.call].
  - apply explode_active.
  - rewrite update_active. exact A.
Qed.

(** X25.  Before the first [explode] nothing happens: [update] leaves an
    inactive system as it is, without a call of [Math.random].  After an
    [explode] the effect stays active whatever is called. *)
Theorem X25_active_forever (es : ExplosionParticles.t)
        (calls : list ExplosionParticles.Call) :
  (ExplosionParticles.active es = false ->
   ~ In ExplosionParticles.Explode calls -> run es calls = es)
  /\ (ExplosionParticles.active es = true \/
      In ExplosionParticles.Explode calls ->
      ExplosionParticles.active (run es calls) = true).
Proof.
  split.
  - revert es. induction calls as [|c calls IH]; intros es A N.
    + reflexivity.
    + change (run es (c :: calls))
        with (run (ExplosionParticles.call Math_random Math_sin Math_cos
                     Math_acos Math_PI es c) calls).
      destruct c.
      * exfalso. apply N. left. reflexivity.
      * cbn [ExplosionParticles.call]. unfold ExplosionParticles.update.
        rewrite A. cbn [negb]. apply IH; [exact A |].
        intro H. apply N. right. exact H.
  - revert es. induction calls as [|c calls IH]; intros es [A | I].
    + exact A.
    + destruct I.
    + apply run_active, A.
    + change (run es (c :: calls))
        with (run (ExplosionParticles.call Math_random Math_sin Math_cos
                     Math_acos Math_PI es c) calls).
      destruct I as [-> | I].
      * apply run_active, explode_active.
      * apply IH. right. exact I.
Qed.

(** The lives stay in range under one call. *)
Lemma resetParticle_lives_inv (es : ExplosionParticles.t) (i : nat) :
  lives_inv es -> lives_inv (resetParticle es i true).
Proof.
  intros (L & F). unfold ExplosionParticles.resetParticle, lives_inv.
  cbn [negb andb ExplosionParticles.particles].
  rewrite set_nth_length. split; [exact L |].
  apply set_nth_Forall; [| exact F].
  cbn [ExplosionParticles.spawn ExplosionParticles.life]. lra.
Qed.

Lemma updateParticle_lives_inv (es : ExplosionParticles.t) (i : nat) :
  unit_random Math_random ->
  lives_inv es -> lives_inv (updateParticle es i).
Proof.
  intros U I. unfold ExplosionParticles.updateParticle.
  destruct (Qgtb _ 0) eqn:G; [| apply resetParticle_lives_inv, I].
  destruct I as (L & F). unfold lives_inv.
  cbn [ExplosionParticles.particles].
  rewrite set_nth_length. split; [exact L |].
  apply Qgtb_true in G.
  assert (B : ExplosionParticles.life (particleAt es i) <= 1).
  { unfold ExplosionParticles.particleAt. apply nth_Forall.
    - cbn [ExplosionParticles.life]. lra.
    - eapply Forall_impl; [| exact F]. intros p (_ & H). exact H. }
  apply set_nth_Forall; [| exact F].
  destruct (U (ExplosionParticles.randomCalls es)) as (U0 & U1).
  unfold ExplosionParticles.advance. cbn [ExplosionParticles.life]. lra.
Qed.

(** X26.  Whatever the photo system calls, there are always 300 particles
    and the life of each of them stays above -0.02 and at most 1. *)
Theorem X26_lives_in_range (calls : list ExplosionParticles.Call) :
  unit_random Math_random ->
  lives_inv (run ExplosionParticles.new calls).
Proof.
  intro U.
  apply (fold_left_invariant _ lives_inv).
  - intros es c I. destruct c; cbn [ExplosionParticles.call].
    + unfold ExplosionParticles.explode.
      apply (fold_left_invariant _ lives_inv).
      * intros e j H. apply resetParticle_lives_inv, H.
      * destruct I as (L & F). split; assumption.
    + unfold ExplosionParticles.update.
      destruct (ExplosionParticles.active es); cbn [negb]; [| exact I].
      apply (fold_left_invariant _ lives_inv).
      * intros e j H. apply updateParticle_lives_inv; assumption.
      * exact I.
  - split.
    + apply repeat_length.
    + apply Forall_forall. intros p H. apply repeat_spec in H. subst p.
      cbn [ExplosionParticles.life]. lra.
Qed.

End ParticleFacts.

Lemma sampleRandom_unit : unit_random sampleRandom.
Proof.
  intro k. unfold sampleRandom.
  assert (H : (0 <= Z.of_nat (k mod 10) < 10)%Z).
  { pose proof (Nat.mod_upper_bound k 10). lia. }
  destruct H as (H0 & H1).
  rewrite Zle_Qle in H0. rewrite Zlt_Qlt in H1.
  change (inject_Z 0) with 0 in H0. change (inject_Z 10) with 10 in H1.
  split.
  - apply Qle_shift_div_l; lra.
  - apply Qlt_shift_div_r; lra.
Qed.

(** The theorem on the first burst of a new system. *)
Lemma X23_witness :
  let explode := ExplosionParticles.explode sampleRandom Sample.sin
                   Sample.cos (fun x => 1 - x) Sample.PI in
  List.length (ExplosionParticles.particles ExplosionParticles.new)
  = ExplosionParticles.particleCount
  /\ (1 < ExplosionParticles.particleCount)%nat
  /\ ExplosionParticles.life
       (ExplosionParticles.particleAt (explode ExplosionParticles.new) 1)
     = 1.0.
Proof.
  intro explode.
  assert (L : List.length (ExplosionParticles.particles ExplosionParticles.new)
              = ExplosionParticles.particleCount) by apply repeat_length.
  assert (I : (1 < ExplosionParticles.particleCount)%nat)
    by (unfold ExplosionParticles.particleCount; lia).
  do 2 (split; [assumption |]).
  exact (proj2 (proj2 (proj2 (proj2 (proj2
           (X23_explode_respawns_all sampleRandom Sample.sin Sample.cos
              (fun x => 1 - x) Sample.PI ExplosionParticles.new 1 L I)))))).
Defined.

(** The theorem on the first frame after the first burst. *)
Lemma X24_witness :
  let es := ExplosionParticles.explode sampleRandom Sample.sin Sample.cos
              (fun x => 1 - x) Sample.PI ExplosionParticles.new in
  let es' := ExplosionParticles.update sampleRandom Sample.sin Sample.cos
               (fun x => 1 - x) Sample.PI es in
  unit_random sampleRandom
  /\ ExplosionParticles.active es = true
  /\ List.length (ExplosionParticles.particles es)
     = ExplosionParticles.particleCount
  /\ (0 < ExplosionParticles.particleCount)%nat
  /\ 0 < ExplosionParticles.life (ExplosionParticles.particleAt es 0)
  /\ ExplosionParticles.life (ExplosionParticles.particleAt es' 0)
     <= ExplosionParticles.life (ExplosionParticles.particleAt es 0) - 0.01.
Proof.
  intros es es'.
  assert (A : ExplosionParticles.active es = true)
    by (vm_compute; reflexivity).
  assert (L : List.length (ExplosionParticles.particles es)
              = ExplosionParticles.particleCount)
    by (vm_compute; reflexivity).
  assert (I : (0 < ExplosionParticles.particleCount)%nat)
    by (unfold ExplosionParticles.particleCount; lia).
  assert (P : 0 < ExplosionParticles.life (ExplosionParticles.particleAt es 0))
    by (vm_compute; reflexivity).
  split; [exact sampleRandom_unit |].
  do 4 (split; [assumption |]).
  destruct (proj1 (X24_particle_step sampleRandom Sample.sin Sample.cos
                     (fun x => 1 - x) Sample.PI es 0 sampleRandom_unit A L I) P)
    as (r & _ & _ & _ & _ & H).
  exact H.
Defined.

(** The theorem on a burst between two frames. *)
Lemma X26_witness :
  unit_random sampleRandom
  /\ lives_inv
       (ExplosionParticles.run sampleRandom Sample.sin Sample.cos
          (fun x => 1 - x) Sample.PI ExplosionParticles.new
          [ExplosionParticles.Update; ExplosionParticles.Explode;
           ExplosionParticles.Update]).
Proof.
  split; [exact sampleRandom_unit |].
  exact (X26_lives_in_range sampleRandom Sample.sin Sample.cos
           (fun x => 1 - x) Sample.PI _ sampleRandom_unit).
Defined.

(** ** The getters *)

Section GetterFacts.

Variable Math_sqrt : Q -> Q.

Local Abbreviation run := (VisionManager.run Math_sqrt).

(** X27.  After any number of frames from a new manager, the guard of the
    [pinchDistance] getter is redundant: the getter returns the pinch
    distance of the left hand, a number between 0 and 1.  The rotation
    speed getter returns 0 when the right hand is not detected, and
    [handsDetectedBoth] is false when [isHandDetected] is. *)
Theorem X27_getters (inps : list VisionInput) :
  let vm := run VisionManager.new inps in
  VisionGetters.pinchDistance vm = pinchDistance (VisionManager.leftHand vm)
  /\ in01 (VisionGetters.pinchDistance vm)
  /\ (detected (VisionManager.rightHand vm) = false ->
      VisionGetters.handRotationSpeed vm = mkVec2 0 0)
  /\ (VisionGetters.isHandDetected vm = false ->
      VisionManager.handsDetectedBoth vm = false).
Proof.
  intro vm.
  destruct (run_inv Math_sqrt inps VisionManager.new new_inv)
    as ((L1 & _ & L3) & (_ & _ & R3) & _ & B).
  fold vm in L1, L3, R3, B.
  assert (E : VisionGetters.pinchDistance vm
              = pinchDistance (VisionManager.leftHand vm)).
  { unfold VisionGetters.pinchDistance.
    destruct (detected (VisionManager.leftHand vm)); [reflexivity |].
    destruct (L3 eq_refl) as (_ & _ & P). symmetry. exact P. }
  split; [exact E |]. split; [rewrite E; exact L1 |]. split.
  - intro D. destruct (R3 D) as (_ & P & _). exact P.
  - unfold VisionGetters.isHandDetected. intro D.
    apply orb_false_iff in D. destruct D as (D1 & D2).
    rewrite B, D1, D2. reflexivity.
Qed.

End GetterFacts.
